(** * NotebookLM-Reimagined: the RAG core

    A shallow embedding of [backend/app/services/rag.py] (text chunker,
    embedding service, ingest and search of [RAGService]) and of the
    context helpers of [backend/app/routers/chat.py], with the properties
    the specification states about them.

    Conventions.
    - A Python [str] is a list of characters ([text]); characters are the
      code points below 256, and [is_space] is Python's [str.isspace] on
      that range.
    - A Python [int] is a [Z]; lengths are [Z.of_nat (length _)].
    - A call that can raise returns a [result]; code that talks to the
      embedding provider or to the content store runs in the monad [M],
      which threads the trace of external calls made so far. *)

From Stdlib Require Import Ascii String.
From Stdlib Require Import List ZArith Lia Bool.
From Stdlib Require Import Permutation Sorted.
From Stdlib Require Import SpecFloat DecimalString.
Import ListNotations.

Local Open Scope Z_scope.

(* ================================================================== *)
(** * Python values *)
(* ================================================================== *)

Definition text := list ascii.

(** A string literal of the source. *)
Definition lit (s : string) : text := list_ascii_of_string s.

Definition len {A} (l : list A) : Z := Z.of_nat (length l).

(** Truthiness of a [str] or of a list: non-empty. *)
Definition truthy {A} (l : list A) : bool :=
  match l with [] => false | _ :: _ => true end.

(** Exceptions of the Python code ([Exception] subclasses). *)
Inductive exn :=
| ValueError                      (* range() arg 3 must not be zero *)
| KeyError (key : string)         (* missing key of a row *)
| ProviderError (code : nat)      (* raised by the embedding provider *)
| StoreError (code : nat).        (* raised by the content store client *)

Inductive result (A : Type) :=
| Ok (a : A)
| Err (e : exn).
Arguments Ok {A} a.
Arguments Err {A} e.

Definition rbind {A B} (r : result A) (k : A -> result B) : result B :=
  match r with Ok a => k a | Err e => Err e end.

(** ** Slices *)

(** How Python's slicing clamps one bound [i] of [s[i:j]] for a
    sequence of length [n]: a negative bound counts from the end. *)
Definition clamp (n i : Z) : Z :=
  if i <? 0 then Z.max 0 (i + n) else Z.min i n.

(** [s[i:j]] *)
Definition slice {A} (s : list A) (i j : Z) : list A :=
  let a := clamp (len s) i in
  let b := clamp (len s) j in
  firstn (Z.to_nat (b - a)) (skipn (Z.to_nat a) s).

(** [s[i:]] *)
Definition slice_from {A} (s : list A) (i : Z) : list A :=
  skipn (Z.to_nat (clamp (len s) i)) s.

(** [s[:j]] *)
Definition slice_to {A} (s : list A) (j : Z) : list A :=
  firstn (Z.to_nat (clamp (len s) j)) s.

(** [range(start, stop, step)], which raises ValueError on a zero step. *)
Definition range_len (start stop step : Z) : Z :=
  if 0 <? step then
    (if start <? stop then (stop - start - 1) / step + 1 else 0)
  else
    (if stop <? start then (start - stop - 1) / (- step) + 1 else 0).

Definition py_range (start stop step : Z) : result (list Z) :=
  if step =? 0 then Err ValueError
  else Ok (map (fun k => start + Z.of_nat k * step)
               (seq 0 (Z.to_nat (range_len start stop step)))).

(** ** Whitespace and [str.strip()] *)

(** [str.isspace] on a character below 256: TAB..CR, FS..US, space,
    NEL (0x85), NBSP (0xA0). *)
Definition is_space (c : ascii) : bool :=
  let n := N_of_ascii c in
  ((9 <=? n) && (n <=? 13) || (28 <=? n) && (n <=? 32)
   || (n =? 133) || (n =? 160))%N.

Fixpoint lstrip (s : text) : text :=
  match s with
  | c :: s' => if is_space c then lstrip s' else s
  | [] => []
  end.

Definition rstrip (s : text) : text := rev (lstrip (rev s)).

Definition strip (s : text) : text := rstrip (lstrip s).

(** ** [str.split(sep)] for a non-empty separator *)

Fixpoint starts_with (p s : text) : bool :=
  match p, s with
  | [], _ => true
  | a :: p', b :: s' => Ascii.eqb a b && starts_with p' s'
  | _ :: _, [] => false
  end.

(** Left-to-right scan for non-overlapping occurrences of [sep].
    [skip] counts the characters of a matched separator still to pass,
    [cur] holds the piece being read, reversed. *)
Fixpoint split_go (sep : text) (skip : nat) (cur : text) (s : text)
  : list text :=
  match s with
  | [] => [rev cur]
  | c :: s' =>
      match skip with
      | S k => split_go sep k cur s'
      | O =>
          if starts_with sep s
          then rev cur :: split_go sep (length sep - 1) [] s'
          else split_go sep 0 (c :: cur) s'
      end
  end.

Definition split (s sep : text) : list text := split_go sep 0 [] s.

(** [sep.join(pieces)] *)
Fixpoint join (sep : text) (pieces : list text) : text :=
  match pieces with
  | [] => []
  | [p] => p
  | p :: rest => p ++ sep ++ join sep rest
  end.

(* ================================================================== *)
(** * TextChunker *)
(* ================================================================== *)

Record TextChunker := {
  chunk_size : Z;
  chunk_overlap : Z;
  separators : list text
}.

Definition default_separators : list text :=
  [lit "
" ++ lit "
"; lit "
"; lit ". "; lit " "; lit ""].

(** [TextChunker.__init__]: the fields are stored as given; an absent
    or empty separator list is replaced by the default one. *)
Definition TextChunker_init (chunk_size chunk_overlap : Z)
    (separators : option (list text)) : TextChunker :=
  {| chunk_size := chunk_size;
     chunk_overlap := chunk_overlap;
     separators := match separators with
                   | Some (s :: l) => s :: l
                   | _ => default_separators
                   end |}.

(** A chunk with its metadata, as [split_text] returns it. *)
Record Chunk := {
  chunk_index : Z;
  content : text;
  token_count : Z
}.

Section Chunker.

Variable self : TextChunker.

(** [_estimate_tokens] *)
Definition _estimate_tokens (t : text) : Z := len t / 4.

(** [_split_by_size] *)
Definition _split_by_size (t : text) : result (list text) :=
  rbind (py_range 0 (len t) (chunk_size self - chunk_overlap self))
    (fun starts =>
       Ok (filter truthy
             (map (fun i => slice t i (i + chunk_size self)) starts))).

(** The prefix [_add_overlap] puts before a chunk: the tail of the
    chunk before it. *)
Definition overlap_text (prev_chunk : text) : text :=
  if chunk_overlap self <? len prev_chunk
  then slice_from prev_chunk (- chunk_overlap self)
  else prev_chunk.

(** The loop of [_add_overlap] from position [i] on; [prev] is
    [chunks[i - 1]], taken from the list the method was given. *)
Fixpoint add_overlap_from (i : Z) (prev : text) (chunks : list text)
  : list text :=
  match chunks with
  | [] => []
  | chunk :: rest =>
      (if (0 <? i) && (0 <? chunk_overlap self)
       then overlap_text prev ++ lit " " ++ chunk
       else chunk)
      :: add_overlap_from (i + 1) chunk rest
  end.

(** [_add_overlap] *)
Definition _add_overlap (chunks : list text) : list text :=
  if len chunks <=? 1 then chunks
  else add_overlap_from 0 [] chunks.

(** The [for split in splits] loop of [_recursive_split]; the state is
    [(chunks, current_chunk)], and [recurse] is the recursive call on
    the remaining separators. *)
Fixpoint merge_splits (recurse : text -> result (list text))
    (separator : text) (splits : list text)
    (chunks : list text) (current_chunk : text)
  : result (list text * text) :=
  match splits with
  | [] => Ok (chunks, current_chunk)
  | split :: rest =>
      let potential_chunk :=
        if truthy current_chunk
        then current_chunk ++ separator ++ split
        else split in
      if len potential_chunk <=? chunk_size self then
        merge_splits recurse separator rest chunks potential_chunk
      else
        let chunks :=
          if truthy current_chunk then chunks ++ [current_chunk]
          else chunks in
        if chunk_size self <? len split then
          rbind (recurse split) (fun sub_chunks =>
            merge_splits recurse separator rest
              (chunks ++ removelast sub_chunks)
              (last sub_chunks []))
        else
          merge_splits recurse separator rest chunks split
  end.

(** The list [chunks] of [_recursive_split] as it stands just before
    [_add_overlap] is applied to it. *)
Definition merged (recurse : text -> result (list text))
    (separator : text) (t : text) : result (list text) :=
  rbind (merge_splits recurse separator (split t separator) [] [])
    (fun '(chunks, current_chunk) =>
       Ok (if truthy current_chunk then chunks ++ [current_chunk]
           else chunks)).

(** [_recursive_split] *)
Fixpoint _recursive_split (separators : list text) (t : text)
  : result (list text) :=
  match separators with
  | [] => _split_by_size t
  | separator :: remaining_separators =>
      if truthy separator then
        rbind (merged (_recursive_split remaining_separators) separator t)
              (fun chunks => Ok (_add_overlap chunks))
      else _split_by_size t
  end.

(** The loop of [split_text] over [enumerate(chunks)] from index [i]. *)
Fixpoint collect (i : Z) (chunks : list text) : list Chunk :=
  match chunks with
  | [] => []
  | chunk :: rest =>
      if truthy (strip chunk)
      then {| chunk_index := i;
              content := strip chunk;
              token_count := _estimate_tokens chunk |}
           :: collect (i + 1) rest
      else collect (i + 1) rest
  end.

(** [split_text] *)
Definition split_text (t : text) : result (list Chunk) :=
  if negb (truthy t) || negb (truthy (strip t)) then Ok []
  else
    let t := strip t in
    rbind (_recursive_split (separators self) t)
          (fun chunks => Ok (collect 0 chunks)).

End Chunker.

(** The segmentation the specification describes, written from its
    words: split on the first separator, accumulate pieces while they
    fit, recurse into a piece that is too long with the finer
    separators, fall back to the fixed-stride slices of
    [_split_by_size]; overlap injection is not part of it. *)
Fixpoint segment (self : TextChunker) (separators : list text) (t : text)
  : result (list text) :=
  match separators with
  | [] => _split_by_size self t
  | separator :: remaining_separators =>
      if truthy separator
      then merged self (segment self remaining_separators) separator t
      else _split_by_size self t
  end.

(** The specification's chunk sequence: one pass of overlap injection
    over the finished segmentation. *)
Definition segment_then_overlap (self : TextChunker)
    (separators : list text) (t : text) : result (list text) :=
  rbind (segment self separators t)
        (fun segments => Ok (_add_overlap self segments)).

(** ** Chunks with their provenance

    [_recursive_split] once more, with every chunk kept in three parts
    instead of one string: [own], the content the chunk was cut to;
    [injected], what [_add_overlap] has put before it; and [origin],
    the offset in the text at which [own] starts.  The code is the
    same line by line; where the source builds the string of a chunk,
    the parts are built, and [glue] gives the string back. *)
Record piece := {
  origin : Z;
  injected : text;
  own : text
}.

(** The string of the chunk. *)
Definition glue (m : piece) : text := injected m ++ own m.

(** A chunk of a split that starts at offset [d] of the text. *)
Definition shift (d : Z) (m : piece) : piece :=
  {| origin := d + origin m; injected := injected m; own := own m |}.

(** The empty [current_chunk] the loop starts from. *)
Definition empty_piece : piece :=
  {| origin := 0; injected := []; own := [] |}.

Section Provenance.

Variable self : TextChunker.

(** [_split_by_size]: the slice taken at [i] starts at [i]. *)
Definition _split_by_size_pieces (t : text) : result (list piece) :=
  rbind (py_range 0 (len t) (chunk_size self - chunk_overlap self))
    (fun starts =>
       Ok (filter (fun m => truthy (own m))
             (map (fun i => {| origin := i; injected := [];
                               own := slice t i (i + chunk_size self) |})
                  starts))).

(** The loop of [_add_overlap]: the overlap text and the space go to
    [injected]. *)
Fixpoint add_overlap_from_pieces (i : Z) (prev : text) (chunks : list piece)
  : list piece :=
  match chunks with
  | [] => []
  | chunk :: rest =>
      (if (0 <? i) && (0 <? chunk_overlap self)
       then {| origin := origin chunk;
               injected := overlap_text self prev ++ lit " " ++ injected chunk;
               own := own chunk |}
       else chunk)
      :: add_overlap_from_pieces (i + 1) (glue chunk) rest
  end.

(** [_add_overlap] *)
Definition _add_overlap_pieces (chunks : list piece) : list piece :=
  if len chunks <=? 1 then chunks
  else add_overlap_from_pieces 0 [] chunks.

(** The [for split in splits] loop of [_recursive_split]; [pos] is the
    offset of [split] in the text and [next] that of the split after
    it.  A chunk begun from a split starts at the offset of the split;
    a split appended to the current chunk goes to its [own]. *)
Fixpoint merge_splits_pieces (recurse : text -> result (list piece))
    (separator : text) (pos : Z) (splits : list text)
    (chunks : list piece) (current_chunk : piece)
  : result (list piece * piece) :=
  match splits with
  | [] => Ok (chunks, current_chunk)
  | split :: rest =>
      let next := pos + len split + len separator in
      let potential_chunk :=
        if truthy (glue current_chunk)
        then {| origin := origin current_chunk;
                injected := injected current_chunk;
                own := own current_chunk ++ separator ++ split |}
        else {| origin := pos; injected := []; own := split |} in
      if len (glue potential_chunk) <=? chunk_size self then
        merge_splits_pieces recurse separator next rest chunks potential_chunk
      else
        let chunks :=
          if truthy (glue current_chunk) then chunks ++ [current_chunk]
          else chunks in
        if chunk_size self <? len split then
          rbind (recurse split) (fun sub_chunks =>
            let sub_chunks := map (shift pos) sub_chunks in
            merge_splits_pieces recurse separator next rest
              (chunks ++ removelast sub_chunks)
              (last sub_chunks empty_piece))
        else
          merge_splits_pieces recurse separator next rest chunks
            {| origin := pos; injected := []; own := split |}
  end.

(** The list [chunks] just before [_add_overlap] is applied to it. *)
Definition merged_pieces (recurse : text -> result (list piece))
    (separator : text) (t : text) : result (list piece) :=
  rbind (merge_splits_pieces recurse separator 0 (split t separator)
           [] empty_piece)
    (fun '(chunks, current_chunk) =>
       Ok (if truthy (glue current_chunk) then chunks ++ [current_chunk]
           else chunks)).

(** [_recursive_split] *)
Fixpoint _recursive_split_pieces (separators : list text) (t : text)
  : result (list piece) :=
  match separators with
  | [] => _split_by_size_pieces t
  | separator :: remaining_separators =>
      if truthy separator then
        rbind (merged_pieces (_recursive_split_pieces remaining_separators)
                 separator t)
              (fun chunks => Ok (_add_overlap_pieces chunks))
      else _split_by_size_pieces t
  end.

End Provenance.

(* ================================================================== *)
(** * External calls *)
(* ================================================================== *)

Definition EmbeddingVector := list spec_float.

(** The record [process_source] builds for one chunk. *)
Record chunk_record := {
  rec_source_id : text;
  rec_chunk_index : Z;
  rec_content : text;
  rec_embedding : EmbeddingVector;
  rec_token_count : Z
  (* "metadata": {} *)
}.

(** The parameters [search] hands to [match_source_chunks];
    [p_source_ids] is present only for a non-empty filter. *)
Record rpc_params := {
  query_embedding : EmbeddingVector;
  match_count : Z;
  p_notebook_id : text;
  p_source_ids : option (list text)
}.

(** A row [match_source_chunks] returns. *)
Record chunk_row := {
  row_source_id : text;
  row_content : text;
  row_similarity : option spec_float
}.

(** A row of the [sources] table, or the placeholder built for an
    unknown id; a key that is absent is [None]. *)
Record source_row := {
  src_id : text;
  src_name : option text;
  src_type : option text;
  src_metadata_content : option text;   (* metadata["content"] *)
  src_summary : option text             (* source_guide["summary"] *)
}.

(** The calls that leave the process, in the order they are made. *)
Inductive event :=
| EmbedContent (model content task_type : text)
| Insert (table : text) (batch : list chunk_record)
| Rpc (fn : text) (params : rpc_params)
| SelectIn (table : text) (ids : list text)
| SelectReady (table notebook_id : text) (ids : option (list text)).

Definition trace := list event.

(** What lies outside the code: the embedding provider, the content
    store, the iteration order of a Python [set] of strings and float
    formatting.  The provider and the store answer a call knowing the
    calls made before it. *)
Record World := {
  embed_content : trace -> text -> text -> text -> result EmbeddingVector;
  insert_execute : trace -> text -> list chunk_record -> result unit;
  rpc_execute : trace -> text -> rpc_params -> result (option (list chunk_row));
  select_in_execute :
    trace -> text -> list text -> result (option (list source_row));
  select_ready_execute :
    trace -> text -> text -> option (list text)
    -> result (option (list source_row));
  set_order : list text -> list text;
  format_2f : spec_float -> text
}.

(** A [set] holds each element once and yields them in some order. *)
Definition set_iteration (order : list text -> list text) : Prop :=
  forall l, NoDup l -> Permutation (order l) l.

(** Computations that make external calls: the trace so far goes in,
    the extended trace comes out with a value or an exception. *)
Definition M (A : Type) : Type := trace -> trace * result A.

Definition ret {A} (a : A) : M A := fun tr => (tr, Ok a).

Definition bind {A B} (m : M A) (k : A -> M B) : M B :=
  fun tr =>
    match m tr with
    | (tr', Ok a) => k a tr'
    | (tr', Err e) => (tr', Err e)
    end.

Definition lift {A} (r : result A) : M A := fun tr => (tr, r).

(** [try: x = m / except Exception as e: return handler e], followed
    by the rest [k x] of the function. *)
Definition try_or_return {A B} (m : M A) (handler : exn -> M B)
    (k : A -> M B) : M B :=
  fun tr =>
    match m tr with
    | (tr', Ok a) => k a tr'
    | (tr', Err e) => handler e tr'
    end.

(** An external call: recorded, then answered by the world. *)
Definition call {A} (ev : event) (answer : trace -> result A) : M A :=
  fun tr => (tr ++ [ev], answer tr).

Declare Scope M_scope.
Delimit Scope M_scope with M.
Notation "x <- m ;; k" := (bind m (fun x => k))
  (at level 61, m at next level, right associativity) : M_scope.
Notation "m ;;; k" := (bind m (fun _ => k))
  (at level 61, right associativity) : M_scope.

Fixpoint mapM {A B} (f : A -> M B) (l : list A) : M (list B) :=
  match l with
  | [] => ret []
  | a :: l' => (b <- f a ;; bs <- mapM f l' ;; ret (b :: bs))%M
  end.

Fixpoint forM_ {A} (l : list A) (f : A -> M unit) : M unit :=
  match l with
  | [] => ret tt
  | a :: l' => (f a ;;; forM_ l' f)%M
  end.

(* ================================================================== *)
(** * EmbeddingService *)
(* ================================================================== *)

Definition MODEL_NAME : text := lit "models/text-embedding-004".
Definition EMBEDDING_DIM : Z := 768.

(** [[0.0] * n] *)
Definition zeros (n : Z) : EmbeddingVector :=
  repeat (S754_zero false) (Z.to_nat n).

Section Services.

Variable w : World.

Local Open Scope M_scope.

(** [generate_embedding] *)
Definition generate_embedding (t : text) : M EmbeddingVector :=
  if negb (truthy t) || negb (truthy (strip t)) then
    ret (zeros EMBEDDING_DIM)
  else
    let t := slice_to t 10000 in
    call (EmbedContent MODEL_NAME t (lit "retrieval_document"))
         (fun tr => embed_content w tr MODEL_NAME t (lit "retrieval_document")).

(** [generate_embeddings_batch] *)
Definition generate_embeddings_batch (texts : list text)
  : M (list EmbeddingVector) :=
  mapM generate_embedding texts.

(** [generate_query_embedding] *)
Definition generate_query_embedding (query : text) : M EmbeddingVector :=
  if negb (truthy query) || negb (truthy (strip query)) then
    ret (zeros EMBEDDING_DIM)
  else
    call (EmbedContent MODEL_NAME query (lit "retrieval_query"))
         (fun tr => embed_content w tr MODEL_NAME query (lit "retrieval_query")).

(* ================================================================== *)
(** * RAGService *)
(* ================================================================== *)

Record RAGService := { chunker : TextChunker }.

(** [RAGService.__init__] *)
Definition RAGService_init : RAGService :=
  {| chunker := TextChunker_init 1000 200 None |}.

Definition make_record (source_id : text)
    (p : Chunk * EmbeddingVector) : chunk_record :=
  let (chunk, embedding) := p in
  {| rec_source_id := source_id;
     rec_chunk_index := chunk_index chunk;
     rec_content := content chunk;
     rec_embedding := embedding;
     rec_token_count := token_count chunk |}.

Definition batch_size : Z := 50.

(** [process_source] *)
Definition process_source (self : RAGService)
    (source_id content_ : text) : M Z :=
  chunks <- lift (split_text (chunker self) content_) ;;
  if negb (truthy chunks) then ret 0
  else
    let chunk_contents := map content chunks in
    embeddings <- generate_embeddings_batch chunk_contents ;;
    let chunk_records :=
      map (make_record source_id) (combine chunks embeddings) in
    starts <- lift (py_range 0 (len chunk_records) batch_size) ;;
    forM_ starts (fun i =>
      let batch := slice chunk_records i (i + batch_size) in
      call (Insert (lit "source_chunks") batch)
           (fun tr => insert_execute w tr (lit "source_chunks") batch)) ;;;
    ret (len chunk_records).

(** [search] *)
Definition search (self : RAGService) (query notebook_id : text)
    (source_ids : option (list text)) (match_count : Z)
  : M (list chunk_row) :=
  query_embedding <- generate_query_embedding query ;;
  let params :=
    {| query_embedding := query_embedding;
       match_count := match_count;
       p_notebook_id := notebook_id;
       p_source_ids := match source_ids with
                       | Some (i :: l) => Some (i :: l)
                       | _ => None
                       end |} in
  data <- call (Rpc (lit "match_source_chunks") params)
               (fun tr => rpc_execute w tr (lit "match_source_chunks") params) ;;
  ret (match data with Some (r :: l) => r :: l | _ => [] end).

End Services.

(* ================================================================== *)
(** * The context helpers of the chat router *)
(* ================================================================== *)

(** Python values as the helpers hand them back. *)
#[warnings="-register-all"]
Inductive pyval :=
| PStr (s : text)
| PBool (b : bool)
| PRow (r : source_row)
| PList (l : list pyval)
| PTuple (l : list pyval).

Definition text_eqb (a b : text) : bool :=
  if list_eq_dec ascii_dec a b then true else false.

(** [x in l] *)
Definition mem (x : text) (l : list text) : bool := existsb (text_eqb x) l.

(** The distinct elements of [l], each at its first position. *)
Fixpoint first_appearance_from (seen l : list text) : list text :=
  match l with
  | [] => []
  | x :: l' =>
      if mem x seen then first_appearance_from seen l'
      else x :: first_appearance_from (x :: seen) l'
  end.

Definition first_appearance (l : list text) : list text :=
  first_appearance_from [] l.

(** [str(i)] *)
Definition str_int (i : Z) : text := lit (NilZero.string_of_int (Z.to_int i)).

(** A [dict] with string keys: one entry per key, a later assignment
    replaces the value. *)
Definition dict (V : Type) := list (text * V).

Fixpoint dict_set {V} (k : text) (v : V) (d : dict V) : dict V :=
  match d with
  | [] => [(k, v)]
  | (k', v') :: d' =>
      if text_eqb k k' then (k, v) :: d' else (k', v') :: dict_set k v d'
  end.

Fixpoint dict_get {V} (k : text) (d : dict V) : option V :=
  match d with
  | [] => None
  | (k', v) :: d' => if text_eqb k k' then Some v else dict_get k d'
  end.

(** [d[key]] on a row whose entry for [key] is [v] *)
Definition getitem {A} (key : string) (v : option A) : result A :=
  match v with Some a => Ok a | None => Err (KeyError key) end.

Definition non_empty (v : option text) : option text :=
  match v with Some (c :: s) => Some (c :: s) | _ => None end.

Definition newline : text := lit "
".

(** One turn of the loop of [get_sources_content]: the name appended
    to [source_names] and the block appended to [context_parts]. *)
Definition source_block (source : source_row) : result (text * text) :=
  rbind (getitem "name" (src_name source)) (fun name =>
  rbind (getitem "type" (src_type source)) (fun type =>
    let content :=
      match (if text_eqb type (lit "text")
             then non_empty (src_metadata_content source) else None) with
      | Some c => c
      | None =>
          match non_empty (src_summary source) with
          | Some s => s
          | None => lit "[Source: " ++ name ++ lit "]"
          end
      end in
    Ok (name,
        lit "--- Source: " ++ name ++ lit " ---" ++ newline
          ++ content ++ newline))).

Fixpoint source_blocks (sources : list source_row)
  : result (list (text * text)) :=
  match sources with
  | [] => Ok []
  | s :: rest =>
      rbind (source_block s) (fun b =>
      rbind (source_blocks rest) (fun bs => Ok (b :: bs)))
  end.

(** The placeholder for an id the [sources] table does not know. *)
Definition unknown_source (sid : text) : source_row :=
  {| src_id := sid; src_name := Some (lit "Unknown"); src_type := None;
     src_metadata_content := None; src_summary := None |}.

(** [source.get("name", "Unknown")] for [source = sources.get(id, {})] *)
Definition name_in (sources : dict source_row) (sid : text) : text :=
  match dict_get sid sources with
  | Some source =>
      match src_name source with Some n => n | None => lit "Unknown" end
  | None => lit "Unknown"
  end.

Section Chat.

Variable w : World.

Local Open Scope M_scope.

(** The process-wide [rag_service]. *)
Definition rag_service : RAGService := RAGService_init.

(** [source_ids] as a filter: [None] and the empty list both mean none. *)
Definition if_any (source_ids : option (list text)) : option (list text) :=
  match source_ids with Some (i :: l) => Some (i :: l) | _ => None end.

(** [get_sources_content]: the legacy context, used as fallback. *)
Definition get_sources_content (notebook_id : text)
    (source_ids : option (list text)) : M pyval :=
  data <- call (SelectReady (lit "sources") notebook_id (if_any source_ids))
               (fun tr => select_ready_execute w tr (lit "sources")
                            notebook_id (if_any source_ids)) ;;
  let sources := match data with Some l => l | None => [] end in
  blocks <- lift (source_blocks sources) ;;
  let source_names := map fst blocks in
  let context_parts := map snd blocks in
  ret (PTuple [PStr (join newline context_parts);
               PList (map PRow sources);
               PList (map PStr source_names)]).

(** The loop of [get_rag_context] over [enumerate(chunks, 1)]; the
    state is [(context_parts, source_names, seen_sources)]. *)
Fixpoint render_chunks (sources : dict source_row) (i : Z)
    (chunks : list chunk_row)
    (context_parts source_names seen_sources : list text)
  : list text * list text :=
  match chunks with
  | [] => (context_parts, source_names)
  | chunk :: rest =>
      let source_name := name_in sources (row_source_id chunk) in
      let unseen := negb (mem source_name seen_sources) in
      let source_names :=
        if unseen then source_names ++ [source_name] else source_names in
      let seen_sources :=
        if unseen then source_name :: seen_sources else seen_sources in
      let similarity :=
        match row_similarity chunk with
        | Some f => format_2f w f
        | None => lit "0.00"
        end in
      render_chunks sources (i + 1) rest
        (context_parts ++
           [lit "[" ++ str_int i ++ lit "] Source: " ++ source_name
              ++ lit " (relevance: " ++ similarity ++ lit ")" ++ newline
              ++ row_content chunk ++ newline])
        source_names seen_sources
  end.

(** [get_rag_context] *)
Definition get_rag_context (notebook_id query : text)
    (source_ids : option (list text)) (match_count : Z) : M pyval :=
  try_or_return
    (search w rag_service query notebook_id (if_any source_ids) match_count)
    (* print("RAG search failed, using fallback: ...") *)
    (fun e => get_sources_content notebook_id source_ids)
  (fun chunks =>
  match chunks with
  | [] => get_sources_content notebook_id source_ids
  | _ :: _ =>
      let source_ids_from_chunks :=
        set_order w (first_appearance (map row_source_id chunks)) in
      data <- call (SelectIn (lit "sources") source_ids_from_chunks)
                   (fun tr => select_in_execute w tr (lit "sources")
                                source_ids_from_chunks) ;;
      let sources :=
        fold_left (fun d s => dict_set (src_id s) s d)
                  (match data with Some l => l | None => [] end) [] in
      let '(context_parts, source_names) :=
        render_chunks sources 1 chunks [] [] [] in
      let sources_list :=
        map (fun sid => match dict_get sid sources with
                        | Some s => s
                        | None => unknown_source sid
                        end) source_ids_from_chunks in
      ret (PTuple [PStr (join (newline ++ newline) context_parts);
                   PList (map PRow sources_list);
                   PList (map PStr source_names)])
  end).

End Chat.

(** ** The citation and suggestion loops of [send_message] *)

(** [needle in haystack], on strings *)
Fixpoint contains (needle haystack : text) : bool :=
  match haystack with
  | [] => starts_with needle []
  | _ :: rest => starts_with needle haystack || contains needle rest
  end.

(** The double nearest to 0.9. *)
Definition float_0_9 : spec_float :=
  S754_finite false 8106479329266893 (-53).

(** An entry of [citations]. *)
Record citation := {
  cit_number : Z;
  cit_source_id : text;
  cit_source_name : text;
  cit_text : text;
  cit_confidence : spec_float
}.

(** The loop of [send_message] over [enumerate(sources, 1)] from
    number [i]: a source is cited when the marker "[i]" occurs in the
    generated content. *)
Fixpoint parse_citations (i : Z) (sources : list source_row) (content_ : text)
  : result (list citation) :=
  match sources with
  | [] => Ok []
  | source :: rest =>
      if contains (lit "[" ++ str_int i ++ lit "]") content_ then
        rbind (getitem "name" (src_name source)) (fun name =>
        rbind (parse_citations (i + 1) rest content_) (fun citations =>
          Ok ({| cit_number := i;
                 cit_source_id := src_id source;
                 cit_source_name := name;
                 cit_text := match non_empty (src_summary source) with
                             | Some summary => slice_to summary 200
                             | None => lit ""
                             end;
                 cit_confidence := float_0_9 |} :: citations)))
      else parse_citations (i + 1) rest content_
  end.

(** The questions [send_message] keeps from the generator's answer:
    [[q.strip() for q in content.strip().split("\n") if q.strip()][:3]] *)
Definition suggested_questions (content_ : text) : list text :=
  slice_to
    (map strip
       (filter (fun q => truthy (strip q)) (split (strip content_) newline)))
    3.

(** A source as the citation loop reads it: each of the keys it
    subscripts may be absent. *)
Record cited_source := {
  key_id : option text;
  key_name : option text;
  key_summary : option text             (* source_guide["summary"] *)
}.

(** The loop of [send_message] over [enumerate(sources, 1)] from
    number [i], on sources that may lack a key. *)
Fixpoint citations_of (i : Z) (sources : list cited_source) (content_ : text)
  : result (list citation) :=
  match sources with
  | [] => Ok []
  | source :: rest =>
      if contains (lit "[" ++ str_int i ++ lit "]") content_ then
        rbind (getitem "id" (key_id source)) (fun id =>
        rbind (getitem "name" (key_name source)) (fun name =>
        rbind (citations_of (i + 1) rest content_) (fun citations =>
          Ok ({| cit_number := i;
                 cit_source_id := id;
                 cit_source_name := name;
                 cit_text := match non_empty (key_summary source) with
                             | Some summary => slice_to summary 200
                             | None => lit ""
                             end;
                 cit_confidence := float_0_9 |} :: citations))))
      else citations_of (i + 1) rest content_
  end.

(** A row of the store, which has its id, as the loop reads it. *)
Definition as_cited (s : source_row) : cited_source :=
  {| key_id := Some (src_id s); key_name := src_name s;
     key_summary := src_summary s |}.

(* ================================================================== *)
(** * Notions used in the statements *)
(* ================================================================== *)

(** Empty or whitespace-only. *)
Definition blank (t : text) : bool := forallb is_space t.

(** Every chunk has at most [bound] characters. *)
Definition within (bound : Z) (chunks : list text) : Prop :=
  Forall (fun s => len s <= bound) chunks.

(** What one pass of [_add_overlap] can add to a chunk: nothing
    without overlap, else the overlap and a space. *)
Definition overlap_growth (self : TextChunker) : Z :=
  if 0 <? chunk_overlap self then chunk_overlap self + 1 else 0.

(** The chunks of [_recursive_split] just before its closing call of
    [_add_overlap]. *)
Definition before_overlap (self : TextChunker) (separators : list text)
    (t : text) : result (list text) :=
  match separators with
  | [] => _split_by_size self t
  | separator :: remaining_separators =>
      if truthy separator
      then merged self (_recursive_split self remaining_separators)
             separator t
      else _split_by_size self t
  end.

(** Calls of the embedding provider, and inserts into the store. *)
Definition is_embed_call (ev : event) : Prop :=
  match ev with EmbedContent _ _ _ => True | _ => False end.

Definition is_insert_call (ev : event) : Prop :=
  match ev with Insert _ _ => True | _ => False end.

(** Every entry of the [sources] dict sits under its own id. *)
Definition keyed_by_id (d : dict source_row) : Prop :=
  Forall (fun kv => src_id (snd kv) = fst kv) d.

(** Reading [used_fallback], the boolean the specification's
    AssembledContext carries beside the text and the sources, off a
    returned value: the boolean component of the tuple, if it has one. *)
Fixpoint first_bool (l : list pyval) : option bool :=
  match l with
  | [] => None
  | PBool b :: _ => Some b
  | _ :: l' => first_bool l'
  end.

Definition used_fallback (v : pyval) : option bool :=
  match v with PTuple l => first_bool l | _ => None end.

(** What both helpers return: the tuple (context, sources, names). *)
Definition context_tuple (v : pyval) : Prop :=
  exists context_ sources source_names,
    v = PTuple [PStr context_; PList (map PRow sources);
                PList (map PStr source_names)].

(** ** Concrete chunkers and texts *)

(** The text of the specification's first end-to-end scenario, to be
    split with [chunk_size = 40] and [chunk_overlap = 10]. *)
Definition scenario1 : text :=
  lit "Paragraph one." ++ newline ++ newline ++
  lit "Paragraph two is longer than the chunk size and must be split further into smaller pieces repeatedly until each piece fits.".

Definition chunker_40_10 : TextChunker := TextChunker_init 40 10 None.

(** A long word pair followed by a short paragraph, for
    [chunk_size = 11] and [chunk_overlap = 3]. *)
Definition two_words_and_c : text :=
  lit "aaaaaaaa bbbbbbbb" ++ newline ++ newline ++ lit "c".

Definition chunker_11_3 : TextChunker := TextChunker_init 11 3 None.


(** A chunker whose overlap equals its chunk size. *)
Definition chunker_5_5 : TextChunker := TextChunker_init 5 5 None.

(** A query of 10,001 letters. *)
Definition long_query : text := repeat "a"%char (Z.to_nat 10001).

(** A service whose chunker cuts a run of letters into single
    characters, and a text that gives 120 chunks. *)
Definition letter_service : RAGService :=
  {| chunker := TextChunker_init 1 0 None |}.

Definition letters_120 : text := repeat "a"%char 120.

Definition chunks_120 : list Chunk :=
  map (fun k => {| chunk_index := Z.of_nat k; content := lit "a";
                   token_count := 0 |}) (seq 0 120).

(** ** Concrete worlds *)

(** A world in which nothing outside fails: the provider answers with
    a one-component vector, the store accepts every insert and holds
    no rows, a set yields its elements in insertion order. *)
Definition quiet_world : World :=
  {| embed_content := fun _ _ _ _ => Ok [S754_zero false];
     insert_execute := fun _ _ _ => Ok tt;
     rpc_execute := fun _ _ _ => Ok (Some []);
     select_in_execute := fun _ _ _ => Ok (Some []);
     select_ready_execute := fun _ _ _ _ => Ok (Some []);
     set_order := fun l => l;
     format_2f := fun _ => lit "0.50" |}.

(** An embedding provider that is down. *)
Definition provider_down_world : World :=
  {| embed_content := fun _ _ _ _ => Err (ProviderError 503);
     insert_execute := fun _ _ _ => Ok tt;
     rpc_execute := fun _ _ _ => Ok (Some []);
     select_in_execute := fun _ _ _ => Ok (Some []);
     select_ready_execute := fun _ _ _ _ => Ok (Some []);
     set_order := fun l => l;
     format_2f := fun _ => lit "0.00" |}.

Definition hello_embed_trace : trace :=
  [EmbedContent MODEL_NAME (lit "hello") (lit "retrieval_document")].

Definition doc_row : source_row :=
  {| src_id := lit "s1"; src_name := Some (lit "Doc");
     src_type := Some (lit "text");
     src_metadata_content := Some (lit "Hello");
     src_summary := None |}.

(** A store with one ready source and no chunk near any query. *)
Definition library_world : World :=
  {| embed_content := fun _ _ _ _ => Ok [S754_zero false];
     insert_execute := fun _ _ _ => Ok tt;
     rpc_execute := fun _ _ _ => Ok (Some []);
     select_in_execute := fun _ _ _ => Ok (Some []);
     select_ready_execute := fun _ _ _ _ => Ok (Some [doc_row]);
     set_order := fun l => l;
     format_2f := fun _ => lit "0.00" |}.

(** The calls [search] makes in [library_world]. *)
Definition library_search_trace : trace :=
  [EmbedContent MODEL_NAME (lit "unrelated query") (lit "retrieval_query");
   Rpc (lit "match_source_chunks")
       {| query_embedding := [S754_zero false]; match_count := 5;
          p_notebook_id := lit "n1"; p_source_ids := None |}].

(** The value [get_rag_context] returns in [library_world]. *)
Definition library_fallback : pyval :=
  PTuple [PStr (lit "--- Source: Doc ---" ++ newline ++ lit "Hello" ++ newline);
          PList [PRow doc_row];
          PList [PStr (lit "Doc")]].

Definition row_a : source_row :=
  {| src_id := lit "a"; src_name := Some (lit "Alpha");
     src_type := Some (lit "text"); src_metadata_content := None;
     src_summary := None |}.

Definition row_b : source_row :=
  {| src_id := lit "b"; src_name := Some (lit "Beta");
     src_type := Some (lit "text"); src_metadata_content := None;
     src_summary := None |}.

Definition ranked_chunks : list chunk_row :=
  [ {| row_source_id := lit "b"; row_content := lit "beta one";
       row_similarity := Some (S754_zero false) |};
    {| row_source_id := lit "a"; row_content := lit "alpha";
       row_similarity := None |};
    {| row_source_id := lit "b"; row_content := lit "beta two";
       row_similarity := None |} ].

(** A store that ranks a chunk of source b first, then one of source
    a, then b again; the set of ids is iterated last-inserted first. *)
Definition ranked_world : World :=
  {| embed_content := fun _ _ _ _ => Ok [S754_zero false];
     insert_execute := fun _ _ _ => Ok tt;
     rpc_execute := fun _ _ _ => Ok (Some ranked_chunks);
     select_in_execute := fun _ _ _ => Ok (Some [row_a; row_b]);
     select_ready_execute := fun _ _ _ _ => Ok (Some []);
     set_order := @rev text;
     format_2f := fun _ => lit "0.00" |}.

Definition ranked_search_trace : trace :=
  [EmbedContent MODEL_NAME (lit "what is beta") (lit "retrieval_query");
   Rpc (lit "match_source_chunks")
       {| query_embedding := [S754_zero false]; match_count := 10;
          p_notebook_id := lit "n1"; p_source_ids := None |}].

(** The tuple [get_rag_context] returns in [ranked_world]. *)
Definition ranked_context : pyval :=
  PTuple
    [PStr (lit "[1] Source: Beta (relevance: 0.00)" ++ newline
           ++ lit "beta one" ++ newline ++ newline ++ newline
           ++ lit "[2] Source: Alpha (relevance: 0.00)" ++ newline
           ++ lit "alpha" ++ newline ++ newline ++ newline
           ++ lit "[3] Source: Beta (relevance: 0.00)" ++ newline
           ++ lit "beta two" ++ newline);
     PList [PRow row_a; PRow row_b];
     PList [PStr (lit "Beta"); PStr (lit "Alpha")]].

(** ** Notions for the further properties *)

(** The call document mode makes for a text. *)
Definition document_call (t : text) : event :=
  EmbedContent MODEL_NAME (slice_to t 10000) (lit "retrieval_document").

(** A row with the keys [get_sources_content] reads by subscript. *)
Definition has_name_and_type (source : source_row) : Prop :=
  src_name source <> None /\ src_type source <> None.

(** The block [get_rag_context] renders for the chunk of rank [i]. *)
Definition chunk_block (w : World) (sources : dict source_row) (i : Z)
    (chunk : chunk_row) : text :=
  lit "[" ++ str_int i ++ lit "] Source: "
  ++ name_in sources (row_source_id chunk)
  ++ lit " (relevance: "
  ++ match row_similarity chunk with
     | Some f => format_2f w f
     | None => lit "0.00"
     end
  ++ lit ")" ++ newline ++ row_content chunk ++ newline.

(** The [sources] dict [get_rag_context] builds from the rows of the
    lookup. *)
Definition sources_dict (data : option (list source_row)) : dict source_row :=
  fold_left (fun d s => dict_set (src_id s) s d)
            (match data with Some l => l | None => [] end) [].

(** The marker of citation number [i]. *)
Definition marker (i : Z) : text := lit "[" ++ str_int i ++ lit "]".

(** ** Further concrete worlds and inputs *)

Definition is_insert (ev : event) : bool :=
  match ev with Insert _ _ => true | _ => false end.

(** A store that accepts one insert and refuses every later one. *)
Definition one_batch_world : World :=
  {| embed_content := fun _ _ _ _ => Ok [S754_zero false];
     insert_execute := fun tr _ _ =>
       if existsb is_insert tr then Err (StoreError 507) else Ok tt;
     rpc_execute := fun _ _ _ => Ok (Some []);
     select_in_execute := fun _ _ _ => Ok (Some []);
     select_ready_execute := fun _ _ _ _ => Ok (Some []);
     set_order := fun l => l;
     format_2f := fun _ => lit "0.00" |}.

(** A ready source whose row has no name. *)
Definition nameless_row : source_row :=
  {| src_id := lit "s2"; src_name := None; src_type := Some (lit "pdf");
     src_metadata_content := None; src_summary := None |}.

Definition nameless_world : World :=
  {| embed_content := fun _ _ _ _ => Ok [S754_zero false];
     insert_execute := fun _ _ _ => Ok tt;
     rpc_execute := fun _ _ _ => Ok (Some []);
     select_in_execute := fun _ _ _ => Ok (Some []);
     select_ready_execute := fun _ _ _ _ => Ok (Some [doc_row; nameless_row]);
     set_order := fun l => l;
     format_2f := fun _ => lit "0.00" |}.

(** The ranked chunks of [ranked_world], with a lookup that fails. *)
Definition lookup_down_world : World :=
  {| embed_content := fun _ _ _ _ => Ok [S754_zero false];
     insert_execute := fun _ _ _ => Ok tt;
     rpc_execute := fun _ _ _ => Ok (Some ranked_chunks);
     select_in_execute := fun _ _ _ => Err (StoreError 503);
     select_ready_execute := fun _ _ _ _ => Ok (Some [doc_row]);
     set_order := fun l => l;
     format_2f := fun _ => lit "0.00" |}.

(** The ranked chunks of [ranked_world], with a lookup that finds no
    row. *)
Definition orphan_world : World :=
  {| embed_content := fun _ _ _ _ => Ok [S754_zero false];
     insert_execute := fun _ _ _ => Ok tt;
     rpc_execute := fun _ _ _ => Ok (Some ranked_chunks);
     select_in_execute := fun _ _ _ => Ok (Some []);
     select_ready_execute := fun _ _ _ _ => Ok (Some [doc_row]);
     set_order := fun l => l;
     format_2f := fun _ => lit "0.00" |}.

Definition chunker_3_1 : TextChunker := TextChunker_init 3 1 None.

(** The chunks of "ab cd" under [chunker_3_1]. *)
Definition ab_cd_chunks : list Chunk :=
  [ {| chunk_index := 0; content := lit "ab"; token_count := 0 |};
    {| chunk_index := 1; content := lit "b b b b cd"; token_count := 2 |} ].

Definition chunker_4_1 : TextChunker := TextChunker_init 4 1 None.

(** The ingest of [letters_120] into [one_batch_world], its vectors and
    its provider calls. *)
Definition one_batch_run : trace * result Z :=
  process_source one_batch_world letter_service (lit "s1") letters_120 [].

Definition embeddings_120 : list EmbeddingVector :=
  repeat [S754_zero false] 120.

Definition calls_120 : trace :=
  map (fun c => document_call (content c)) chunks_120.

Definition chunker_10_3 : TextChunker := TextChunker_init 10 3 None.

Definition chunker_5_9 : TextChunker := TextChunker_init 5 9 None.

(** ** Notions for chunk provenance, sources and lines *)

(** Text that overlap injection has put before a chunk: at most [n]
    blocks, each the tail of a chunk, of at most [chunk_overlap]
    characters, and a space; nothing without overlap. *)
Definition overlap_blocks (self : TextChunker) (n : nat) (s : text) : Prop :=
  exists tails,
    s = concat (map (fun x => x ++ lit " ") tails)
    /\ (length tails <= n)%nat
    /\ Forall (fun x => len x <= chunk_overlap self) tails
    /\ (chunk_overlap self <= 0 -> tails = []).

(** The own content of [m] starts at offset [origin m] of [t]: it is
    not empty and its first character is the character of [t] there. *)
Definition starts_at (t : text) (m : piece) : Prop :=
  0 <= origin m /\ own m <> []
  /\ nth_error t (Z.to_nat (origin m)) = hd_error (own m).

(** What is known of a chunk that came back through [n] levels of
    [_recursive_split] on the text [t]. *)
Definition traced (self : TextChunker) (n : nat) (t : text) (m : piece) : Prop :=
  starts_at t m
  /\ (0 <= chunk_size self -> len (own m) <= chunk_size self)
  /\ overlap_blocks self n (injected m).

(** The chunks of the merge loop with the one being accumulated. *)
Definition live (chunks : list piece) (current : piece) : list piece :=
  if truthy (glue current) then chunks ++ [current] else chunks.

(** The row the lookup of [get_rag_context] returned for an id: the
    last one in the answer with that id. *)
Definition stored_row (data : option (list source_row)) (sid : text)
  : option source_row :=
  find (fun r => text_eqb sid (src_id r))
       (rev (match data with Some l => l | None => [] end)).

(** Its name, or "Unknown" without a row or without a name. *)
Definition stored_name (data : option (list source_row)) (sid : text) : text :=
  match stored_row data sid with
  | Some r => match src_name r with Some n => n | None => lit "Unknown" end
  | None => lit "Unknown"
  end.

(** A source with the keys the citation loop reads by subscript. *)
Definition has_id_and_name (source : cited_source) : Prop :=
  key_id source <> None /\ key_name source <> None.

(** The lines [suggested_questions] keeps: not blank, stripped. *)
Definition kept_lines (lines : list text) : list text :=
  map strip (filter (fun q => truthy (strip q)) lines).

(** The pieces of the scenario text under [chunker_40_10]. *)
Definition scenario1_pieces : list piece :=
  [ {| origin := 0; injected := [];
       own := lit "Paragraph one." |};
    {| origin := 16; injected := lit "graph one. ";
       own := lit "Paragraph two is longer than the chunk" |};
    {| origin := 55;
       injected := lit " the chunk  the chunk  the chunk  the chunk ";
       own := lit "size and must be split further into" |};
    {| origin := 91;
       injected := lit "rther into rther into rther into rther into ";
       own := lit "smaller pieces repeatedly until each" |};
    {| origin := 128;
       injected := lit "until each until each until each until each ";
       own := lit "piece fits." |} ].


(** The lines of an answer of the generator. *)
Definition answer_lines : list text :=
  [lit "What is A?"; lit "  "; lit " Why B? "; lit "How C?"; lit "And D?"].

(* ================================================================== *)
(** * Properties *)
(* ================================================================== *)

(** ** Lengths, slices and whitespace *)

(** Linear arithmetic with [/] and [mod] by constants. *)
Ltac divlia := Z.to_euclidean_division_equations; lia.

Lemma len_nonneg {A} (l : list A) : 0 <= len l.
Proof. unfold len; lia. Qed.

Lemma len_app {A} (l1 l2 : list A) : len (l1 ++ l2) = len l1 + len l2.
Proof. unfold len; rewrite length_app; lia. Qed.

Lemma len_cons {A} (a : A) (l : list A) : len (a :: l) = len l + 1.
Proof. unfold len; simpl length; lia. Qed.

Lemma truthy_false {A} (l : list A) : truthy l = false <-> l = [].
Proof. destruct l; simpl; split; congruence. Qed.

Lemma truthy_true {A} (l : list A) : truthy l = true <-> l <> [].
Proof. destruct l; simpl; split; congruence. Qed.

Lemma truthy_len {A} (l : list A) : truthy l = true <-> 0 < len l.
Proof. destruct l; rewrite ?len_cons; cbn; split; try lia; try congruence.
       intros _. pose proof (len_nonneg l). lia. Qed.

Lemma lstrip_blank t : blank t = true -> lstrip t = [].
Proof.
  induction t as [|c t IH]; simpl; [reflexivity|].
  intros H; apply andb_prop in H as [Hc Ht]. rewrite Hc. auto.
Qed.

Lemma lstrip_nil_blank t : lstrip t = [] -> blank t = true.
Proof.
  induction t as [|c t IH]; simpl; [reflexivity|].
  destruct (is_space c); simpl; [exact IH | discriminate].
Qed.

(** What [lstrip] removes is whitespace, and what it leaves does not
    start with whitespace. *)
Lemma lstrip_split t :
  exists p, t = p ++ lstrip t /\ blank p = true.
Proof.
  induction t as [|c t [p [E B]]]; simpl.
  - exists []; auto.
  - destruct (is_space c) eqn:Hc.
    + exists (c :: p); simpl; rewrite Hc, B; split; [congruence | reflexivity].
    + exists []; auto.
Qed.

Lemma lstrip_head t c r : lstrip t = c :: r -> is_space c = false.
Proof.
  induction t as [|a t IH]; simpl; [discriminate|].
  destruct (is_space a) eqn:Ha; [exact IH|].
  intros E; injection E as -> _; exact Ha.
Qed.

Lemma lstrip_fixed c r : is_space c = false -> lstrip (c :: r) = c :: r.
Proof. simpl; intros ->; reflexivity. Qed.

Lemma lstrip_idem t : lstrip (lstrip t) = lstrip t.
Proof.
  destruct (lstrip t) as [|c r] eqn:E; [reflexivity|].
  apply lstrip_fixed. eapply lstrip_head; eauto.
Qed.

Lemma blank_app a b : blank (a ++ b) = blank a && blank b.
Proof. apply forallb_app. Qed.

Lemma blank_rev a : blank (rev a) = blank a.
Proof.
  induction a as [|c a IH]; simpl; [reflexivity|].
  rewrite blank_app, IH; simpl. rewrite andb_true_r, andb_comm; reflexivity.
Qed.

Lemma rstrip_split t :
  exists q, t = rstrip t ++ q /\ blank q = true.
Proof.
  destruct (lstrip_split (rev t)) as [p [E B]].
  exists (rev p). unfold rstrip. split.
  - rewrite <- rev_app_distr, <- E, rev_involutive; reflexivity.
  - rewrite blank_rev; exact B.
Qed.

Lemma strip_blank t : blank t = true -> strip t = [].
Proof. intros H; unfold strip; rewrite (lstrip_blank _ H); reflexivity. Qed.

Lemma strip_nil_blank t : strip t = [] -> blank t = true.
Proof.
  unfold strip; intros H.
  destruct (lstrip_split t) as [p [E B]].
  destruct (rstrip_split (lstrip t)) as [q [E' B']].
  rewrite H in E'; simpl in E'. rewrite E, E', blank_app, B, B'; reflexivity.
Qed.

(** The first character of a stripped text is not whitespace. *)
Lemma strip_head t c r : strip t = c :: r -> is_space c = false.
Proof.
  unfold strip; intros H.
  destruct (rstrip_split (lstrip t)) as [q [E _]].
  rewrite H in E; simpl in E. eapply lstrip_head; eauto.
Qed.

Lemma strip_idem t : strip (strip t) = strip t.
Proof.
  destruct (strip t) as [|c r] eqn:E; [reflexivity|].
  rewrite <- E. unfold strip at 1.
  rewrite E, (lstrip_fixed c r (strip_head _ _ _ E)), <- E.
  unfold strip, rstrip. rewrite rev_involutive, lstrip_idem; reflexivity.
Qed.

Lemma firstn_repeat_le {A} (x : A) (n m : nat) :
  (n <= m)%nat -> firstn n (repeat x m) = repeat x n.
Proof.
  revert m; induction n as [|n IH]; intros [|m] H; simpl;
    try reflexivity; try lia.
  f_equal. apply IH. lia.
Qed.

Lemma length_zeros n : 0 <= n -> len (zeros n) = n.
Proof. intros H; unfold zeros, len; rewrite repeat_length; lia. Qed.

(** ** The embedding service *)

Section EmbeddingProperties.

Variable w : World.

(** C9. Embedding an empty or whitespace-only text, in document mode
    and in query mode, returns the zero vector of dimension 768, that
    is [[0.0] * 768], and calls nothing outside: the trace of external
    calls is left as it was. *)
Theorem C9_blank_text_zero_vector (t : text) (tr : trace) :
  blank t = true ->
  generate_embedding w t tr = (tr, Ok (zeros 768)) /\
  generate_query_embedding w t tr = (tr, Ok (zeros 768)) /\
  zeros 768 = repeat (S754_zero false) 768 /\
  len (zeros 768) = 768.
Proof.
  intros H. unfold generate_embedding, generate_query_embedding.
  rewrite (strip_blank _ H); simpl truthy.
  rewrite orb_true_r. repeat split.
Qed.

Lemma slice_to_firstn {A} (l : list A) (n : Z) :
  0 <= n -> slice_to l n = firstn (Z.to_nat n) l.
Proof.
  intros H. unfold slice_to, clamp. pose proof (len_nonneg l).
  destruct (n <? 0) eqn:E; [lia|].
  destruct (Z.le_gt_cases n (len l)).
  - rewrite Z.min_l by lia. reflexivity.
  - rewrite Z.min_r by lia. unfold len in *. rewrite Nat2Z.id.
    rewrite !firstn_all2; try reflexivity; lia.
Qed.

Lemma not_blank_truthy t :
  blank t = false -> truthy t = true /\ truthy (strip t) = true.
Proof.
  intros H; split.
  - destruct t; [discriminate | reflexivity].
  - apply truthy_true; intros E. apply strip_nil_blank in E; congruence.
Qed.

(** A text with a character that is not whitespace, in document mode:
    one provider call, on [text[:10000]], whose answer is returned. *)
Lemma generate_embedding_call (t : text) (tr : trace) :
  blank t = false ->
  generate_embedding w t tr =
    (tr ++ [EmbedContent MODEL_NAME (slice_to t 10000)
              (lit "retrieval_document")],
     embed_content w tr MODEL_NAME (slice_to t 10000)
       (lit "retrieval_document")).
Proof.
  intros H. unfold generate_embedding.
  destruct (not_blank_truthy _ H) as [-> ->]. reflexivity.
Qed.

(** Document mode cuts a long text to its first 10,000 characters
    without raising. *)
Lemma generate_embedding_truncates (t : text) (tr : trace) :
  blank t = false -> 10000 < len t ->
  exists sent,
    generate_embedding w t tr =
      (tr ++ [EmbedContent MODEL_NAME sent (lit "retrieval_document")],
       embed_content w tr MODEL_NAME sent (lit "retrieval_document"))
    /\ sent = firstn (Z.to_nat 10000) t /\ len sent = 10000.
Proof.
  intros Hb Hl. exists (slice_to t 10000). split; [|split].
  - apply generate_embedding_call; assumption.
  - apply slice_to_firstn; lia.
  - rewrite slice_to_firstn by lia. unfold len in *.
    rewrite length_firstn. lia.
Qed.

(** Query mode hands the query to the provider as it is. *)
Lemma generate_query_embedding_call (q : text) (tr : trace) :
  blank q = false ->
  generate_query_embedding w q tr =
    (tr ++ [EmbedContent MODEL_NAME q (lit "retrieval_query")],
     embed_content w tr MODEL_NAME q (lit "retrieval_query")).
Proof.
  intros H. unfold generate_query_embedding.
  destruct (not_blank_truthy _ H) as [-> ->]. reflexivity.
Qed.

(** C5. At a query of 10,001 characters, query mode passes all 10,001
    characters to the provider, where document mode passes the first
    10,000 of the same text. *)
Theorem C5_query_mode_not_truncated (tr : trace) :
  generate_query_embedding w long_query tr =
    (tr ++ [EmbedContent MODEL_NAME long_query (lit "retrieval_query")],
     embed_content w tr MODEL_NAME long_query (lit "retrieval_query"))
  /\ len long_query = 10001
  /\ generate_embedding w long_query tr =
       (tr ++ [EmbedContent MODEL_NAME (repeat "a"%char (Z.to_nat 10000))
                 (lit "retrieval_document")],
        embed_content w tr MODEL_NAME (repeat "a"%char (Z.to_nat 10000))
          (lit "retrieval_document")).
Proof.
  assert (Hb : blank long_query = false) by (vm_compute; reflexivity).
  split; [|split].
  - apply generate_query_embedding_call; exact Hb.
  - unfold long_query, len. rewrite repeat_length. lia.
  - rewrite (generate_embedding_call _ tr Hb).
    replace (slice_to long_query 10000)
      with (repeat "a"%char (Z.to_nat 10000)); [reflexivity|].
    rewrite slice_to_firstn by lia.
    unfold long_query. symmetry. apply firstn_repeat_le. lia.
Qed.

End EmbeddingProperties.

Lemma C9_blank_text_zero_vector_witness :
  blank (lit "  ") = true /\
  (generate_embedding quiet_world (lit "  ") [] = ([], Ok (zeros 768)) /\
   generate_query_embedding quiet_world (lit "  ") [] = ([], Ok (zeros 768)) /\
   zeros 768 = repeat (S754_zero false) 768 /\
   len (zeros 768) = 768).
Proof.
  split; [reflexivity|].
  apply (C9_blank_text_zero_vector quiet_world (lit "  ") []). reflexivity.
Defined.

(** ** Ingest: [process_source] *)

(** [s[i : i + b]] for a window that starts inside or after [s]. *)
Lemma slice_window {A} (l : list A) (i b : Z) :
  0 <= i -> 0 <= b ->
  slice l i (i + b) = firstn (Z.to_nat b) (skipn (Z.to_nat i) l).
Proof.
  intros Hi Hb. unfold slice, clamp. pose proof (len_nonneg l) as Hn.
  destruct (i <? 0) eqn:E1; [lia|]. destruct (i + b <? 0) eqn:E2; [lia|].
  unfold len in *.
  destruct (Z.le_gt_cases i (Z.of_nat (length l))) as [Hin|Hout].
  - rewrite (Z.min_l i) by lia.
    destruct (Z.le_gt_cases (i + b) (Z.of_nat (length l))).
    + rewrite Z.min_l by lia. f_equal. lia.
    + rewrite Z.min_r by lia.
      rewrite !firstn_all2; try reflexivity; rewrite length_skipn; lia.
  - rewrite !Z.min_r by lia. rewrite Z.sub_diag. simpl firstn.
    rewrite skipn_all2 by lia. rewrite firstn_nil. reflexivity.
Qed.

Lemma len_slice_window {A} (l : list A) (i b : Z) :
  0 <= i <= len l -> 0 <= b ->
  len (slice l i (i + b)) = Z.min b (len l - i).
Proof.
  intros Hi Hb. rewrite slice_window by lia. unfold len in *.
  rewrite length_firstn, length_skipn. lia.
Qed.

Lemma firstn_add {A} (l : list A) (a b : nat) :
  firstn (a + b) l = firstn a l ++ firstn b (skipn a l).
Proof.
  revert l; induction a as [|a IH]; intros l; simpl; [reflexivity|].
  destruct l as [|x l]; simpl.
  - rewrite firstn_nil; reflexivity.
  - rewrite IH; reflexivity.
Qed.

(** The windows [l[k*b : k*b + b]] for [k = 0 .. m-1], one after the
    other, are the first [m * b] elements of [l]. *)
Lemma windows_concat {A} (l : list A) (b : Z) (m : nat) :
  0 < b ->
  concat (map (fun i => slice l i (i + b))
              (map (fun k => 0 + Z.of_nat k * b) (seq 0 m)))
  = firstn (m * Z.to_nat b) l.
Proof.
  intros Hb. induction m as [|m IH]; [reflexivity|].
  rewrite seq_S, !map_app, concat_app, IH. simpl map. simpl concat.
  rewrite app_nil_r, slice_window by lia.
  replace (S m * Z.to_nat b)%nat with (m * Z.to_nat b + Z.to_nat b)%nat by lia.
  rewrite firstn_add. do 3 f_equal. lia.
Qed.

Lemma map_seq_const {A} (f : nat -> A) (c : A) (a n : nat) :
  (forall k, (a <= k < a + n)%nat -> f k = c) ->
  map f (seq a n) = repeat c n.
Proof.
  revert a; induction n as [|n IH]; intros a H; simpl; [reflexivity|].
  rewrite H by lia. f_equal. apply IH. intros k Hk; apply H; lia.
Qed.

(** The batches [process_source] cuts from [l]: sizes and content. *)
Lemma batches_of_50 {A} (l : list A) :
  exists starts,
    py_range 0 (len l) batch_size = Ok starts /\
    let batches := map (fun i => slice l i (i + batch_size)) starts in
    concat batches = l /\
    map len batches =
      repeat 50 (Z.to_nat (len l / 50))
      ++ (if len l mod 50 =? 0 then [] else [len l mod 50]) /\
    len batches = (len l + 49) / 50.
Proof.
  pose proof (len_nonneg l) as Hn.
  set (n := len l) in *.
  set (cnt := Z.to_nat (range_len 0 n batch_size)).
  exists (map (fun k => 0 + Z.of_nat k * batch_size) (seq 0 cnt)).
  assert (Hcnt : Z.of_nat cnt = (n + 49) / 50).
  { unfold cnt, range_len, batch_size.
    change (0 <? 50) with true. cbv iota. clearbody n.
    destruct (0 <? n) eqn:E;
      [apply Z.ltb_lt in E | apply Z.ltb_ge in E]; divlia. }
  split; [reflexivity|]. cbv zeta. split; [|split].
  - rewrite windows_concat by (unfold batch_size; lia).
    apply firstn_all2. unfold batch_size.
    assert (n = Z.of_nat (length l)) by reflexivity.
    clearbody n cnt. divlia.
  - rewrite !map_map.
    set (q := Z.to_nat (n / 50)).
    assert (Hq : Z.of_nat q = n / 50) by (unfold q; clearbody n; divlia).
    assert (Hsplit : cnt = (q + (if (n mod 50 =? 0)%Z then 0 else 1))%nat).
    { clearbody n q cnt. destruct (n mod 50 =? 0) eqn:E;
        [apply Z.eqb_eq in E | apply Z.eqb_neq in E]; divlia. }
    rewrite Hsplit, seq_app, map_app. f_equal.
    + apply map_seq_const. intros k Hk.
      rewrite len_slice_window; unfold batch_size; fold n;
        clearbody n q cnt; divlia.
    + simpl plus. destruct (n mod 50 =? 0) eqn:E; [reflexivity|].
      apply Z.eqb_neq in E. simpl. f_equal.
      rewrite len_slice_window; unfold batch_size; fold n;
        clearbody n q cnt; divlia.
  - unfold len at 1. rewrite !length_map, length_seq. exact Hcnt.
Qed.

Section IngestProperties.

Variable w : World.

(** Embedding a batch makes provider calls only, and a batch that
    comes back holds one vector per text. *)
Lemma generate_embeddings_batch_trace (texts : list text) :
  forall tr tr' r,
    generate_embeddings_batch w texts tr = (tr', r) ->
    exists embeds,
      tr' = tr ++ embeds /\ Forall is_embed_call embeds /\
      (forall vs, r = Ok vs -> length vs = length texts).
Proof.
  unfold generate_embeddings_batch.
  induction texts as [|t texts IH]; intros tr tr' r H.
  - injection H as <- <-. exists []. rewrite app_nil_r.
    repeat split; auto. intros vs E; injection E as <-; reflexivity.
  - simpl in H. unfold bind in H.
    destruct (generate_embedding w t tr) as [tr1 r1] eqn:E1.
    assert (H1 : exists es, tr1 = tr ++ es /\ Forall is_embed_call es).
    { unfold generate_embedding in E1.
      destruct (negb (truthy t) || negb (truthy (strip t))).
      - injection E1 as <- _. exists []. rewrite app_nil_r; auto.
      - unfold call in E1. injection E1 as <- _.
        eexists; split; [reflexivity|]. repeat constructor. }
    destruct H1 as [es [-> Hes]].
    destruct r1 as [v|e].
    + destruct (mapM (generate_embedding w) texts (tr ++ es))
        as [tr2 r2] eqn:E2.
      destruct (IH _ _ _ E2) as [es2 [-> [Hes2 Hlen]]].
      exists (es ++ es2). rewrite app_assoc.
      destruct r2 as [vs|e]; injection H as <- <-;
        (split; [reflexivity|]); (split; [apply Forall_app; auto|]).
      * intros vs' E; injection E as <-. simpl. f_equal. apply Hlen; reflexivity.
      * intros vs' E; discriminate.
    + injection H as <- <-. exists es. repeat split; auto.
      intros vs E; discriminate.
Qed.

(** The insert loop, whatever the store answers: insert calls only. *)
Lemma insert_loop_trace (records : list chunk_record) (starts : list Z) :
  forall tr tr' r,
    forM_ starts (fun i =>
      let batch := slice records i (i + batch_size) in
      call (Insert (lit "source_chunks") batch)
           (fun tr => insert_execute w tr (lit "source_chunks") batch)) tr
    = (tr', r) ->
    exists inserts, tr' = tr ++ inserts /\ Forall is_insert_call inserts.
Proof.
  induction starts as [|i starts IH]; intros tr tr' r H.
  - injection H as <- _. exists []. rewrite app_nil_r; auto.
  - simpl in H. unfold bind at 1, call at 1 in H.
    destruct (insert_execute w tr _ _) as [[]|e].
    + destruct (IH _ _ _ H) as [ins [-> Hins]].
      eexists. rewrite <- app_assoc. split; [reflexivity|].
      constructor; [exact I | exact Hins].
    + injection H as <- _. eexists; split; [reflexivity|].
      repeat constructor.
Qed.

(** The insert loop against a store that accepts every batch. *)
Lemma insert_loop_ok (records : list chunk_record) (starts : list Z) :
  (forall tr tbl b, insert_execute w tr tbl b = Ok tt) ->
  forall tr,
    forM_ starts (fun i =>
      let batch := slice records i (i + batch_size) in
      call (Insert (lit "source_chunks") batch)
           (fun tr => insert_execute w tr (lit "source_chunks") batch)) tr
    = (tr ++ map (Insert (lit "source_chunks"))
               (map (fun i => slice records i (i + batch_size)) starts),
       Ok tt).
Proof.
  intros Hok. induction starts as [|i starts IH]; intros tr.
  - simpl. rewrite app_nil_r. reflexivity.
  - simpl. unfold bind, call at 1. rewrite Hok, IH, <- app_assoc.
    reflexivity.
Qed.

(** [process_source] once the chunker has produced chunks. *)
Lemma process_source_run (self : RAGService) (source_id content_ : text)
    (chunks : list Chunk) (tr : trace) :
  split_text (chunker self) content_ = Ok chunks -> chunks <> [] ->
  process_source w self source_id content_ tr =
    match generate_embeddings_batch w (map content chunks) tr with
    | (tr1, Err e) => (tr1, Err e)
    | (tr1, Ok embeddings) =>
        let chunk_records :=
          map (make_record source_id) (combine chunks embeddings) in
        match py_range 0 (len chunk_records) batch_size with
        | Err e => (tr1, Err e)
        | Ok starts =>
            match forM_ starts (fun i =>
                    let batch := slice chunk_records i (i + batch_size) in
                    call (Insert (lit "source_chunks") batch)
                         (fun tr => insert_execute w tr
                                      (lit "source_chunks") batch)) tr1 with
            | (tr2, Ok _) => (tr2, Ok (len chunk_records))
            | (tr2, Err e) => (tr2, Err e)
            end
        end
    end.
Proof.
  intros Hs Hne. unfold process_source, bind, lift. rewrite Hs.
  destruct chunks as [|c chunks]; [congruence|]. cbn [truthy negb].
  destruct (generate_embeddings_batch w _ tr) as [tr1 [embeddings|e]];
    [|reflexivity].
  cbv zeta. destruct (py_range _ _ _) as [starts|e]; [|reflexivity].
  destruct (forM_ _ _ _) as [tr2 [u|e]]; reflexivity.
Qed.

(** C10. In every run of [process_source] the calls made are provider
    calls followed by insert calls: every embedding is generated
    before the first insert is issued.  So when the embedding of the
    chunks fails, [process_source] raises that error and has issued
    no insert: the content store is as it was. *)
Theorem C10_embeddings_before_inserts (self : RAGService)
    (source_id content_ : text) (tr tr' : trace) (r : result Z) :
  process_source w self source_id content_ tr = (tr', r) ->
  exists embeds inserts,
    tr' = tr ++ embeds ++ inserts /\
    Forall is_embed_call embeds /\ Forall is_insert_call inserts /\
    (forall chunks tr1 e,
       split_text (chunker self) content_ = Ok chunks ->
       generate_embeddings_batch w (map content chunks) tr = (tr1, Err e) ->
       r = Err e /\ tr' = tr1 /\ inserts = []).
Proof.
  intros H.
  destruct (split_text (chunker self) content_) as [chunks|e0] eqn:Hs.
  2:{ unfold process_source, bind at 1, lift at 1 in H. rewrite Hs in H.
      injection H as <- <-. exists [], []. rewrite app_nil_r.
      repeat split; auto. all: intros; discriminate. }
  destruct chunks as [|c chunks].
  { unfold process_source, bind at 1, lift at 1 in H. rewrite Hs in H.
    simpl in H. injection H as <- <-. exists [], []. rewrite app_nil_r.
    split; [reflexivity|]. split; [constructor|]. split; [constructor|].
    intros chunks tr1 e E1 E2. injection E1 as <-. simpl in E2.
    discriminate. }
  rewrite (process_source_run self source_id content_ (c :: chunks) tr Hs)
    in H by discriminate.
  destruct (generate_embeddings_batch w (map content (c :: chunks)) tr)
    as [tr1 r1] eqn:Eb.
  destruct (generate_embeddings_batch_trace _ _ _ _ Eb) as [es [-> [Hes _]]].
  destruct r1 as [embeddings|e].
  - cbv zeta in H.
    destruct (py_range _ _ _) as [starts|e] eqn:Er.
    + destruct (forM_ starts _ (tr ++ es)) as [tr2 r2] eqn:El.
      destruct (insert_loop_trace _ _ _ _ _ El) as [ins [-> Hins]].
      exists es, ins. rewrite <- app_assoc in H.
      assert (tr' = tr ++ es ++ ins) by (destruct r2; congruence).
      repeat split; auto; injection H1 as <-; congruence.
    + injection H as <- <-. exists es, []. rewrite app_nil_r.
      repeat split; auto; injection H as <-; congruence.
  - injection H as <- <-. exists es, []. rewrite app_nil_r.
    split; [reflexivity|]. split; [exact Hes|]. split; [constructor|].
    intros chunks' tr1 e' E1 E2. injection E1 as <-.
    rewrite Eb in E2. injection E2 as <- <-. auto.
Qed.

End IngestProperties.

(** ** [split] and [join] *)

Lemma split_go_nonempty sep s : forall k cur, split_go sep k cur s <> [].
Proof.
  induction s as [|c s IH]; intros k cur; simpl; [discriminate|].
  destruct k; [|apply IH].
  destruct (starts_with sep (c :: s)); [discriminate | apply IH].
Qed.

Lemma join_cons sep p l : l <> [] -> join sep (p :: l) = p ++ sep ++ join sep l.
Proof. destruct l; [congruence | reflexivity]. Qed.

Lemma starts_with_app p s :
  starts_with p s = true -> exists rest, s = p ++ rest.
Proof.
  revert s; induction p as [|a p IH]; intros s H; simpl in *.
  - exists s; reflexivity.
  - destruct s as [|b s]; [discriminate|].
    apply andb_prop in H as [Hab Hp]. apply Ascii.eqb_eq in Hab; subst b.
    destruct (IH _ Hp) as [rest ->]. exists rest; reflexivity.
Qed.

Lemma starts_with_head_diff a p c r :
  a <> c -> starts_with (a :: p) (c :: r) = false.
Proof.
  intros H. cbn [starts_with].
  destruct (Ascii.eqb_spec a c); [congruence | reflexivity].
Qed.

(** Joining the pieces with the separator gives the text back. *)
Lemma split_go_join sep s :
  sep <> [] ->
  forall k cur, join sep (split_go sep k cur s) = rev cur ++ skipn k s.
Proof.
  intros Hsep. induction s as [|c s IH]; intros k cur.
  - simpl. rewrite skipn_nil, app_nil_r. reflexivity.
  - simpl split_go. destruct k as [|k]; [|rewrite IH; reflexivity].
    destruct (starts_with sep (c :: s)) eqn:E.
    + rewrite join_cons by apply split_go_nonempty. rewrite IH. simpl rev.
      destruct (starts_with_app _ _ E) as [rest Hrest].
      destruct sep as [|a sep]; [congruence|].
      simpl in Hrest. injection Hrest as -> ->.
      replace (length (a :: sep) - 1)%nat with (length sep)
        by (simpl; lia).
      rewrite skipn_app, skipn_all, Nat.sub_diag.
      reflexivity.
    + rewrite IH. simpl. rewrite <- app_assoc. reflexivity.
Qed.

Lemma join_split t sep : sep <> [] -> join sep (split t sep) = t.
Proof. intros H. unfold split. rewrite split_go_join by exact H. reflexivity. Qed.

(** The first piece starts with what has been read so far. *)
Lemma split_go_head sep s :
  forall k cur, exists x rest, split_go sep k cur s = (rev cur ++ x) :: rest.
Proof.
  induction s as [|c s IH]; intros k cur; simpl.
  - exists [], []. rewrite app_nil_r; reflexivity.
  - destruct k as [|k]; [|apply IH].
    destruct (starts_with sep (c :: s)).
    + eexists [], _. rewrite app_nil_r; reflexivity.
    + destruct (IH 0%nat (c :: cur)) as [x [rest ->]].
      exists (c :: x), rest. simpl. rewrite <- app_assoc. reflexivity.
Qed.

(** A text that does not start with the separator has a non-empty
    first piece. *)
Lemma split_first_nonempty t sep :
  t <> [] -> starts_with sep t = false ->
  exists p ps, split t sep = p :: ps /\ p <> [].
Proof.
  intros Ht Hs. destruct t as [|c t]; [congruence|].
  unfold split. simpl split_go. rewrite Hs.
  destruct (split_go_head sep t 0%nat [c]) as [x [rest ->]].
  exists (rev [c] ++ x), rest. split; [reflexivity | discriminate].
Qed.

Lemma len_join_head sep p l : len p <= len (join sep (p :: l)).
Proof.
  destruct l as [|q l]; [simpl; lia|].
  rewrite join_cons by discriminate.
  rewrite !len_app. pose proof (len_nonneg sep).
  pose proof (len_nonneg (join sep (q :: l))). lia.
Qed.

Lemma join_merge sep a p l :
  join sep ((a ++ sep ++ p) :: l) = a ++ sep ++ join sep (p :: l).
Proof.
  destruct l as [|q l]; [reflexivity|].
  rewrite !(join_cons sep _ (q :: l)) by discriminate.
  rewrite <- !app_assoc. reflexivity.
Qed.

(** ** The chunker *)

Section ChunkerProperties.

Variable self : TextChunker.

(** *** The fixed-stride fallback *)

Lemma len_slice_le {A} (l : list A) (i b : Z) :
  0 <= b -> len (slice l i (i + b)) <= b.
Proof.
  intros Hb. remember (i + b) as j eqn:Hj.
  unfold slice, clamp, len. pose proof (len_nonneg l) as Hn. unfold len in Hn.
  cbv zeta. rewrite length_firstn, length_skipn.
  destruct (i <? 0) eqn:Ei; destruct (j <? 0) eqn:Ej;
    [apply Z.ltb_lt in Ei | apply Z.ltb_lt in Ei
    | apply Z.ltb_ge in Ei | apply Z.ltb_ge in Ei];
    [apply Z.ltb_lt in Ej | apply Z.ltb_ge in Ej
    | apply Z.ltb_lt in Ej | apply Z.ltb_ge in Ej]; lia.
Qed.

(** Every slice of the fallback has at most [chunk_size] characters. *)
Lemma _split_by_size_bound (t : text) (slices : list text) :
  0 <= (chunk_size self) -> _split_by_size self t = Ok slices ->
  Forall (fun s => len s <= (chunk_size self)) slices.
Proof.
  intros HC H. unfold _split_by_size in H.
  destruct (py_range _ _ _) as [starts|e]; simpl in H; [|discriminate].
  injection H as <-. apply Forall_forall. intros s Hs.
  apply filter_In in Hs as [Hs _]. apply in_map_iff in Hs as [i [<- _]].
  apply len_slice_le. exact HC.
Qed.

(** With [chunk_overlap = chunk_size] the fallback raises ValueError
    (the step of [range] is zero), whatever the text. *)
Lemma _split_by_size_zero_stride (t : text) :
  (chunk_overlap self) = (chunk_size self) -> _split_by_size self t = Err ValueError.
Proof.
  intros H. unfold _split_by_size, py_range.
  replace ((chunk_size self) - (chunk_overlap self) =? 0) with true by (symmetry; apply Z.eqb_eq; lia).
  reflexivity.
Qed.

(** With [chunk_overlap > chunk_size] the fallback returns no slice. *)
Lemma _split_by_size_negative_stride (t : text) :
  (chunk_size self) < (chunk_overlap self) -> _split_by_size self t = Ok [].
Proof.
  intros H. unfold _split_by_size, py_range, range_len.
  pose proof (len_nonneg t).
  replace ((chunk_size self) - (chunk_overlap self) =? 0) with false by (symmetry; apply Z.eqb_neq; lia).
  replace (0 <? (chunk_size self) - (chunk_overlap self)) with false by (symmetry; apply Z.ltb_ge; lia).
  replace (len t <? 0) with false by (symmetry; apply Z.ltb_ge; lia).
  reflexivity.
Qed.

(** A positive stride never raises. *)
Lemma _split_by_size_total (t : text) :
  (chunk_overlap self) < (chunk_size self) -> exists slices, _split_by_size self t = Ok slices.
Proof.
  intros H. unfold _split_by_size, py_range.
  replace ((chunk_size self) - (chunk_overlap self) =? 0) with false by (symmetry; apply Z.eqb_neq; lia).
  eexists; reflexivity.
Qed.

(** *** Overlap injection *)

Lemma length_add_overlap_from (chunks : list text) :
  forall i prev, length (add_overlap_from self i prev chunks) = length chunks.
Proof.
  induction chunks as [|c chunks IH]; intros i prev; simpl; auto.
Qed.

Lemma length_add_overlap (chunks : list text) :
  length (_add_overlap self chunks) = length chunks.
Proof.
  unfold _add_overlap. destruct (len chunks <=? 1); [reflexivity|].
  apply length_add_overlap_from.
Qed.

(** Without overlap [_add_overlap] leaves the chunks as they are. *)
Lemma add_overlap_zero (chunks : list text) :
  (chunk_overlap self) <= 0 -> _add_overlap self chunks = chunks.
Proof.
  intros HO. unfold _add_overlap. destruct (len chunks <=? 1); [reflexivity|].
  generalize 0. generalize (@nil ascii).
  induction chunks as [|c chunks IH]; intros prev i; simpl; [reflexivity|]. replace (0 <? (chunk_overlap self)) with false by (symmetry; apply Z.ltb_ge; lia).
  rewrite andb_false_r, IH. reflexivity.
Qed.

(** The prefix is the last [min(overlap, len prev)] characters. *)
Lemma overlap_text_spec (prev : text) :
  0 < (chunk_overlap self) ->
  overlap_text self prev =
    skipn (length prev - Z.to_nat (Z.min (chunk_overlap self) (len prev))) prev
  /\ len (overlap_text self prev) = Z.min (chunk_overlap self) (len prev).
Proof.
  intros HO. unfold overlap_text, slice_from, clamp.
  pose proof (len_nonneg prev) as Hn.
  destruct ((chunk_overlap self) <? len prev) eqn:E;
    [apply Z.ltb_lt in E | apply Z.ltb_ge in E].
  - replace (- (chunk_overlap self) <? 0) with true by (symmetry; apply Z.ltb_lt; lia).
    rewrite Z.max_r by lia. rewrite (Z.min_l (chunk_overlap self)) by lia.
    unfold len in *. split.
    + f_equal. lia.
    + rewrite length_skipn. lia.
  - rewrite Z.min_r by lia. unfold len in *. rewrite Nat2Z.id, Nat.sub_diag.
    split; reflexivity.
Qed.

(** One pass of [_add_overlap] over two or more chunks: the first is
    kept, every later one gets the tail of the chunk before it and a
    space in front. *)
Lemma add_overlap_nth (chunks : list text) (i : nat) :
  0 < (chunk_overlap self) -> (2 <= length chunks)%nat -> (i < length chunks)%nat ->
  nth i (_add_overlap self chunks) [] =
    match i with
    | 0%nat => nth 0 chunks []
    | S j => overlap_text self (nth j chunks []) ++ lit " " ++ nth i chunks []
    end.
Proof.
  intros HO H2 Hi. unfold _add_overlap.
  replace (len chunks <=? 1) with false
    by (symmetry; apply Z.leb_gt; unfold len; lia).
  assert (G : forall l k prev n,
             (n < length l)%nat -> 0 <= k ->
             nth n (add_overlap_from self k prev l) [] =
               if (0 <? k + Z.of_nat n)
               then overlap_text self
                      (match n with 0%nat => prev | S m => nth m l [] end)
                    ++ lit " " ++ nth n l []
               else nth n l []).
  { induction l as [|c l IH]; intros k prev n Hn Hk; simpl in Hn; [lia|].
    destruct n as [|n]; simpl add_overlap_from; simpl nth.
    - replace (0 <? (chunk_overlap self)) with true by (symmetry; apply Z.ltb_lt; lia).
      rewrite Z.add_0_r, andb_true_r. reflexivity.
    - rewrite IH by lia.
      replace (k + 1 + Z.of_nat n) with (k + Z.of_nat (S n)) by lia.
      destruct n; reflexivity. }
  rewrite G by lia. destruct i as [|j]; [reflexivity|].
  replace (0 <? 0 + Z.of_nat (S j)) with true
    by (symmetry; apply Z.ltb_lt; lia).
  reflexivity.
Qed.

End ChunkerProperties.

Section SplittingProperties.

Variable self : TextChunker.

(** *** The merge loop *)

(** Pieces that all fit are never handed to the recursive call. *)
Lemma merge_splits_no_recursion (rec1 rec2 : text -> result (list text))
    (separator : text) (splits : list text) :
  Forall (fun p => len p <= (chunk_size self)) splits ->
  forall chunks current,
    merge_splits self rec1 separator splits chunks current =
    merge_splits self rec2 separator splits chunks current.
Proof.
  induction 1 as [|p splits Hp _ IH]; intros chunks current; simpl;
    [reflexivity|]. replace ((chunk_size self) <? len p) with false by (symmetry; apply Z.ltb_ge; lia).
  destruct (_ <=? (chunk_size self)); apply IH.
Qed.

(** While the joined text fits, the loop only grows [current_chunk]. *)
Lemma merge_splits_fits (recurse : text -> result (list text))
    (separator : text) (splits : list text) :
  forall chunks current,
    current <> [] ->
    len (join separator (current :: splits)) <= (chunk_size self) ->
    merge_splits self recurse separator splits chunks current =
      Ok (chunks, join separator (current :: splits)).
Proof.
  induction splits as [|p splits IH]; intros chunks current Hc Hl;
    [reflexivity|].
  simpl merge_splits. apply truthy_true in Hc. rewrite Hc.
  assert (Ej : join separator (current :: p :: splits) =
               join separator ((current ++ separator ++ p) :: splits)).
  { rewrite join_merge. apply join_cons. discriminate. }
  rewrite Ej in *.
  pose proof (len_join_head separator (current ++ separator ++ p) splits). replace (len (current ++ separator ++ p) <=? (chunk_size self)) with true
    by (symmetry; apply Z.leb_le; lia).
  apply IH; [|exact Hl].
  apply truthy_true in Hc. destruct current; [congruence | discriminate].
Qed.

(** A non-empty text that fits [chunk_size] and does not start with
    the separator comes back as one chunk. *)
Lemma _recursive_split_short (separator : text) (rest : list text) (t : text) :
  separator <> [] -> t <> [] -> starts_with separator t = false ->
  len t <= (chunk_size self) ->
  _recursive_split self (separator :: rest) t = Ok [t].
Proof.
  intros Hsep Ht Hstart Hlen. simpl _recursive_split.
  apply truthy_true in Hsep as Hsep'. rewrite Hsep'. unfold merged.
  destruct (split_first_nonempty t separator Ht Hstart) as [p [ps [Es Hp]]].
  pose proof (join_split t separator Hsep) as Hj. rewrite Es in *.
  simpl merge_splits.
  assert (H : len p <= len t) by (rewrite <- Hj; apply len_join_head).
  replace (len p <=? (chunk_size self)) with true by (symmetry; apply Z.leb_le; lia).
  assert (Hm : merge_splits self (_recursive_split self rest) separator ps [] p
               = Ok ([], t)).
  { assert (Hl := Hlen). rewrite <- Hj in Hl.
    rewrite (merge_splits_fits _ separator ps [] p Hp Hl).
    do 2 f_equal. exact Hj. }
  rewrite Hm. simpl rbind. apply truthy_true in Ht. rewrite Ht.
  reflexivity.
Qed.

(** *** Chunk lengths *)

Lemma within_removelast (bound : Z) (l : list text) :
  within bound l -> within bound (removelast l).
Proof.
  unfold within. induction 1 as [|x l Hx Hl IH]; simpl; [constructor|].
  destruct l; [constructor | constructor; auto].
Qed.

Lemma within_last (bound : Z) (l : list text) :
  0 <= bound -> within bound l -> len (last l []) <= bound.
Proof.
  unfold within. intros HB.
  induction 1 as [|x l Hx Hl IH]; simpl; [exact HB|].
  destruct l; auto.
Qed.

Lemma within_weaken (b1 b2 : Z) (l : list text) :
  b1 <= b2 -> within b1 l -> within b2 l.
Proof.
  intros Hb H. eapply Forall_impl; [|exact H]. simpl. intros s Hs. lia.
Qed.

(** The merge loop keeps a bound that the recursive call keeps. *)
Lemma merge_splits_within (bound : Z) (recurse : text -> result (list text))
    (separator : text) (splits : list text) :
  0 <= bound -> chunk_size self <= bound ->
  (forall s subs, recurse s = Ok subs -> within bound subs) ->
  forall chunks current chunks' current',
    within bound chunks -> len current <= bound ->
    merge_splits self recurse separator splits chunks current
      = Ok (chunks', current') ->
    within bound chunks' /\ len current' <= bound.
Proof.
  intros HB HC Hrec. induction splits as [|p splits IH];
    intros chunks current chunks' current' Hch Hcur H.
  - injection H as <- <-. auto.
  - simpl in H.
    set (potential := if truthy current then current ++ separator ++ p
                      else p) in *.
    assert (Hch' : within bound (if truthy current then chunks ++ [current]
                                 else chunks)).
    { destruct (truthy current); [|exact Hch].
      apply Forall_app; split; [exact Hch | repeat constructor; exact Hcur]. }
    destruct (len potential <=? chunk_size self) eqn:E.
    + apply Z.leb_le in E. apply (IH _ _ _ _ Hch) in H; [exact H | lia].
    + destruct (chunk_size self <? len p) eqn:Ep.
      * destruct (recurse p) as [subs|e] eqn:Er; simpl in H; [|discriminate].
        pose proof (Hrec _ _ Er) as Hsubs.
        eapply IH; [| |exact H].
        -- apply Forall_app; split;
             [exact Hch' | apply within_removelast; exact Hsubs].
        -- apply within_last; assumption.
      * apply Z.ltb_ge in Ep. apply (IH _ _ _ _ Hch') in H; [exact H | lia].
Qed.

Lemma merged_within (bound : Z) (recurse : text -> result (list text))
    (separator t : text) (chunks : list text) :
  0 <= bound -> chunk_size self <= bound ->
  (forall s subs, recurse s = Ok subs -> within bound subs) ->
  merged self recurse separator t = Ok chunks -> within bound chunks.
Proof.
  intros HB HC Hrec H. unfold merged in H.
  destruct (merge_splits self recurse separator (split t separator) [] [])
    as [[chunks0 current]|e] eqn:E; simpl in H; [|discriminate].
  injection H as <-.
  assert (H0 : len (@nil ascii) <= bound) by exact HB.
  destruct (merge_splits_within bound _ separator _ HB HC Hrec _ _ _ _
              (Forall_nil _) H0 E) as [H1 H2].
  destruct (truthy current); [|exact H1].
  apply Forall_app; split; [exact H1 | repeat constructor; exact H2].
Qed.

(** One pass of overlap injection adds at most [overlap_growth]
    characters to a chunk. *)
Lemma add_overlap_within (bound : Z) (chunks : list text) :
  within bound chunks ->
  within (bound + overlap_growth self) (_add_overlap self chunks).
Proof.
  intros H. unfold overlap_growth.
  destruct (0 <? chunk_overlap self) eqn:EO.
  - apply Z.ltb_lt in EO. unfold _add_overlap.
    destruct (len chunks <=? 1);
      [apply (within_weaken bound); [lia | exact H]|].
    generalize 0. generalize (@nil ascii).
    induction H as [|c chunks Hc _ IH]; intros prev i; simpl; [constructor|].
    constructor; [|apply IH].
    destruct ((0 <? i) && (0 <? chunk_overlap self)); [|lia].
    change (lit " " ++ c) with (" "%char :: c). rewrite len_app, len_cons.
    pose proof (proj2 (overlap_text_spec self prev EO)). lia.
  - apply Z.ltb_ge in EO. rewrite add_overlap_zero by exact EO.
    rewrite Z.add_0_r. exact H.
Qed.

(** How long a chunk of [_recursive_split] can get: [chunk_size], and
    one [overlap_growth] more for every separator level. *)
Lemma _recursive_split_length_bound (separators : list text) :
  0 <= chunk_size self ->
  forall t chunks,
    _recursive_split self separators t = Ok chunks ->
    within (chunk_size self + len separators * overlap_growth self) chunks.
Proof.
  intros HC.
  assert (HG : 0 <= overlap_growth self).
  { unfold overlap_growth. destruct (0 <? chunk_overlap self) eqn:E;
      [apply Z.ltb_lt in E|]; lia. }
  induction separators as [|sep rest IH]; intros t chunks H.
  - change (len (@nil text)) with 0. rewrite Z.mul_0_l, Z.add_0_r.
    apply (_split_by_size_bound self t); assumption.
  - pose proof (len_nonneg rest) as Hr. rewrite len_cons.
    simpl in H. destruct (truthy sep).
    + destruct (merged self _ sep t) as [chunks0|e] eqn:E; simpl in H;
        [|discriminate].
      injection H as <-.
      apply (merged_within (chunk_size self + len rest * overlap_growth self))
        in E; [|nia|nia|exact IH].
      apply add_overlap_within in E.
      eapply within_weaken; [|exact E]. lia.
    + apply (within_weaken (chunk_size self)); [nia|].
      apply (_split_by_size_bound self t); assumption.
Qed.

(** With [chunk_overlap = 0] no chunk of [_recursive_split] is longer
    than [chunk_size], whatever the separators and the text. *)
Lemma _recursive_split_all_fit (separators : list text) :
  0 <= chunk_size self -> chunk_overlap self = 0 ->
  forall t chunks,
    _recursive_split self separators t = Ok chunks ->
    within (chunk_size self) chunks.
Proof.
  intros HC HO t chunks H.
  apply (_recursive_split_length_bound separators HC) in H.
  unfold overlap_growth in H. rewrite HO in H. simpl in H.
  rewrite Z.mul_0_r, Z.add_0_r in H. exact H.
Qed.

Lemma _recursive_split_before_overlap (separator : text) (rest : list text)
    (t : text) :
  separator <> [] ->
  _recursive_split self (separator :: rest) t =
    rbind (before_overlap self (separator :: rest) t)
          (fun chunks => Ok (_add_overlap self chunks)).
Proof.
  intros H. apply truthy_true in H. simpl. rewrite H. reflexivity.
Qed.

(** When every piece of the first split fits [chunk_size], nothing is
    split further and [_recursive_split] is the segmentation of the
    specification followed by one pass of overlap injection. *)
Lemma _recursive_split_one_level (separator : text) (rest : list text)
    (t : text) :
  separator <> [] ->
  Forall (fun p => len p <= (chunk_size self)) (split t separator) ->
  _recursive_split self (separator :: rest) t =
    segment_then_overlap self (separator :: rest) t.
Proof.
  intros Hsep Hfit. unfold segment_then_overlap. simpl.
  apply truthy_true in Hsep. rewrite Hsep. unfold merged.
  rewrite (merge_splits_no_recursion _ (segment self rest) _ _ Hfit).
  reflexivity.
Qed.

End SplittingProperties.

(** *** [split_text] *)

Lemma truthy_strip_blank (s : text) : truthy (strip s) = negb (blank s).
Proof.
  destruct (blank s) eqn:E.
  - rewrite strip_blank by exact E. reflexivity.
  - apply (not_blank_truthy _ E).
Qed.

(** What the closing loop of [split_text] keeps: a chunk for every
    segment that is not whitespace-only, numbered by the position of
    the segment. *)
Lemma collect_spec (chunks : list text) :
  forall i,
    Forall (fun c =>
              i <= chunk_index c < i + len chunks /\
              content c = strip (nth (Z.to_nat (chunk_index c - i)) chunks [])
              /\ content c <> [] /\
              token_count c =
                len (nth (Z.to_nat (chunk_index c - i)) chunks []) / 4)
           (collect i chunks)
    /\ StronglySorted Z.lt (map chunk_index (collect i chunks))
    /\ (forall k, (k < length chunks)%nat ->
                  blank (nth k chunks []) = false ->
                  In (i + Z.of_nat k) (map chunk_index (collect i chunks))).
Proof.
  induction chunks as [|s chunks IH]; intros i; simpl collect.
  - repeat split; [constructor | constructor | simpl; lia].
  - destruct (IH (i + 1)) as [Hall [Hsorted Hin]].
    assert (Hall' : Forall (fun c =>
              i < chunk_index c /\
              i <= chunk_index c < i + len (s :: chunks) /\
              content c =
                strip (nth (Z.to_nat (chunk_index c - i)) (s :: chunks) [])
              /\ content c <> [] /\
              token_count c =
                len (nth (Z.to_nat (chunk_index c - i)) (s :: chunks) []) / 4)
            (collect (i + 1) chunks)).
    { eapply Forall_impl; [|exact Hall]. intros c [Hb [Hc [Hn Ht]]].
      rewrite len_cons.
      replace (Z.to_nat (chunk_index c - i))
        with (S (Z.to_nat (chunk_index c - (i + 1)))) by lia.
      simpl nth. repeat split; auto; lia. }
    assert (Hin' : forall k, (k < length (s :: chunks))%nat ->
               blank (nth k (s :: chunks) []) = false -> k <> 0%nat ->
               In (i + Z.of_nat k) (map chunk_index (collect (i + 1) chunks))).
    { intros [|k] Hk Hb Hz; [congruence|]. simpl in Hk, Hb.
      replace (i + Z.of_nat (S k)) with (i + 1 + Z.of_nat k) by lia.
      apply Hin; [lia | exact Hb]. }
    rewrite truthy_strip_blank. destruct (blank s) eqn:Es; simpl negb; cbv iota.
    + split; [|split].
      * eapply Forall_impl; [|exact Hall']. intros c H; apply H.
      * exact Hsorted.
      * intros k Hk Hb. apply Hin'; auto. intros ->. simpl in Hb. congruence.
    + split; [|split].
      * constructor.
        -- simpl chunk_index. rewrite Z.sub_diag, len_cons. simpl.
           pose proof (len_nonneg chunks). repeat split; try lia.
           intros E. apply strip_nil_blank in E. congruence.
        -- eapply Forall_impl; [|exact Hall']. intros c H; apply H.
      * simpl map. constructor; [exact Hsorted|].
        apply Forall_map. eapply Forall_impl; [|exact Hall'].
        intros c H; apply H.
      * intros [|k] Hk Hb.
        -- left. simpl. lia.
        -- right. apply Hin'; auto.
Qed.


(** ** The chunker on concrete texts *)

(** C1. On the scenario text [_recursive_split] does not return the
    segmentation followed by one pass of overlap injection: the second
    paragraph is split three separator levels further down, each level
    injects overlap on its way back, and the chunks from position 2 on
    carry the ten-character tail four times.  On the second text the
    injected prefixes also move a split boundary: the code returns
    three chunks where the segmentation has two segments. *)
Theorem C1_overlap_injected_at_every_level :
  _recursive_split chunker_40_10 (separators chunker_40_10) scenario1 =
    Ok [lit "Paragraph one.";
        lit "graph one. Paragraph two is longer than the chunk";
        lit " the chunk  the chunk  the chunk  the chunk size and must be split further into";
        lit "rther into rther into rther into rther into smaller pieces repeatedly until each";
        lit "until each until each until each until each piece fits."]
  /\ segment_then_overlap chunker_40_10 (separators chunker_40_10) scenario1 =
    Ok [lit "Paragraph one.";
        lit "graph one. Paragraph two is longer than the chunk";
        lit " the chunk size and must be split further into";
        lit "rther into smaller pieces repeatedly until each";
        lit "until each piece fits."]
  /\ _recursive_split chunker_11_3 (separators chunker_11_3) two_words_and_c =
    Ok [lit "aaaaaaaa"; lit "aaa aaa aaa aaa bbbbbbbb"; lit "bbb c"]
  /\ segment chunker_11_3 (separators chunker_11_3) two_words_and_c =
    Ok [lit "aaaaaaaa"; lit "bbbbbbbb" ++ newline ++ newline ++ lit "c"].
Proof. repeat split; vm_compute; reflexivity. Qed.

(** On the scenario text ([chunk_size = 40], [chunk_overlap = 10],
    no word longer than 15 characters) the chunks that reach the
    closing [_add_overlap] of [_recursive_split] have 14, 38, 68, 69
    and 44 characters: three of them are longer than [chunk_size],
    because they come back from the finer separators with overlap
    already injected.  The chunks returned have 14, 49, 79, 80 and 55
    characters, more than [chunk_size + chunk_overlap + 1]. *)
Example scenario1_chunk_lengths :
  chunk_overlap chunker_40_10 < chunk_size chunker_40_10
  /\ 0 <= chunk_overlap chunker_40_10
  /\ Forall (fun word => len word <= 15) (split scenario1 (lit " "))
  /\ before_overlap chunker_40_10 (separators chunker_40_10) scenario1 =
    Ok [lit "Paragraph one.";
        lit "Paragraph two is longer than the chunk";
        lit " the chunk  the chunk  the chunk size and must be split further into";
        lit "rther into rther into rther into smaller pieces repeatedly until each";
        lit "until each until each until each piece fits."]
  /\ (exists chunks,
        before_overlap chunker_40_10 (separators chunker_40_10) scenario1
          = Ok chunks /\ map len chunks = [14; 38; 68; 69; 44])
  /\ (exists chunks,
        _recursive_split chunker_40_10 (separators chunker_40_10) scenario1
          = Ok chunks /\ map len chunks = [14; 49; 79; 80; 55]).
Proof.
  split; [reflexivity|]. split; [discriminate|].
  split; [vm_compute; repeat constructor; discriminate|].
  split; [vm_compute; reflexivity|].
  split; eexists; split; vm_compute; reflexivity.
Qed.


(** The same with small parameters: [chunk_size = 3], no overlap. *)
Example gap_in_chunk_index :
  split_text (TextChunker_init 3 0 None)
    (lit "a" ++ newline ++ newline ++ lit "   " ++ newline ++ newline ++ lit "b")
  = Ok [ {| chunk_index := 0; content := lit "a"; token_count := 0 |};
         {| chunk_index := 2; content := lit "b"; token_count := 0 |} ].
Proof. vm_compute. reflexivity. Qed.

(** With [chunk_overlap = chunk_size = 5] the chunker is built and
    splits "hi" into one chunk; nothing is raised. *)
Lemma C4_counterexample :
  chunk_size chunker_5_5 <= chunk_overlap chunker_5_5 /\
  split_text chunker_5_5 (lit "hi") =
    Ok [ {| chunk_index := 0; content := lit "hi"; token_count := 0 |} ].
Proof. split; [vm_compute; discriminate | vm_compute; reflexivity]. Qed.

(** C4 (amended). The chunker does not check its parameters.  A pair
    with [chunk_overlap >= chunk_size] is stored as given, and with
    the default separators a text whose stripped form is not empty and
    fits [chunk_size] is returned as the single chunk 0.  Only the
    fixed-stride fallback reacts to such a pair: it raises ValueError
    when the two are equal and returns no slice when the overlap is
    the larger one. *)
Theorem C4_parameters_not_validated (chunk_size_ chunk_overlap_ : Z)
    (separators_ : option (list text)) (t : text) :
  chunk_size_ <= chunk_overlap_ ->
  let self := TextChunker_init chunk_size_ chunk_overlap_ separators_ in
  chunk_size self = chunk_size_ /\ chunk_overlap self = chunk_overlap_
  /\ (separators_ = None -> strip t <> [] -> len (strip t) <= chunk_size_ ->
      split_text self t =
        Ok [ {| chunk_index := 0; content := strip t;
                token_count := len (strip t) / 4 |} ])
  /\ (chunk_overlap_ = chunk_size_ -> _split_by_size self t = Err ValueError)
  /\ (chunk_size_ < chunk_overlap_ -> _split_by_size self t = Ok []).
Proof.
  intros Hviol self. split; [reflexivity|]. split; [reflexivity|].
  split; [|split].
  - intros -> Hne Hlen. unfold split_text.
    assert (Hb : blank t = false).
    { destruct (blank t) eqn:E; [|reflexivity].
      apply strip_blank in E. congruence. }
    destruct (not_blank_truthy _ Hb) as [-> ->]. simpl negb. simpl orb.
    cbv iota.
    change (separators self) with default_separators.
    unfold default_separators.
    rewrite (_recursive_split_short self); try assumption; try discriminate.
    + simpl rbind. simpl collect. rewrite strip_idem.
      apply truthy_true in Hne. rewrite Hne. reflexivity.
    + destruct (strip t) as [|c r] eqn:Es; [congruence|].
      pose proof (strip_head _ _ _ Es) as Hc.
      apply (starts_with_head_diff "010"%char [ "010"%char ] c r).
      intros <-. discriminate.
  - intros E. apply _split_by_size_zero_stride. exact E.
  - intros E. apply _split_by_size_negative_stride. exact E.
Qed.

Lemma C4_parameters_not_validated_witness :
  7 <= 9
  /\ chunk_size (TextChunker_init 7 9 None) = 7
  /\ chunk_overlap (TextChunker_init 7 9 None) = 9
  /\ split_text (TextChunker_init 7 9 None) (lit " hello ") =
       Ok [ {| chunk_index := 0; content := lit "hello"; token_count := 1 |} ]
  /\ _split_by_size (TextChunker_init 7 9 None) (lit " hello ") = Ok [].
Proof.
  assert (H : 7 <= 9) by lia.
  destruct (C4_parameters_not_validated 7 9 None (lit " hello ") H)
    as [H1 [H2 [H3 [_ H5]]]].
  split; [exact H|]. split; [exact H1|]. split; [exact H2|]. split.
  - apply H3; [reflexivity | vm_compute; discriminate
               | vm_compute; discriminate].
  - apply H5. lia.
Defined.

(** ** Search with fallback: [get_rag_context] *)

Lemma text_eqb_eq (a b : text) : text_eqb a b = true <-> a = b.
Proof.
  unfold text_eqb. destruct (list_eq_dec ascii_dec a b); split;
    congruence.
Qed.

Lemma mem_In (x : text) (l : list text) : mem x l = true <-> In x l.
Proof.
  unfold mem. rewrite existsb_exists. split.
  - intros [y [Hy E]]. apply text_eqb_eq in E. subst; exact Hy.
  - intros H. exists x. split; [exact H | apply text_eqb_eq; reflexivity].
Qed.

(** [first_appearance_from seen l] holds exactly the elements of [l]
    that are not in [seen], each once. *)
Lemma first_appearance_from_spec (l : list text) :
  forall seen,
    NoDup (first_appearance_from seen l) /\
    (forall x, In x (first_appearance_from seen l)
               <-> In x l /\ ~ In x seen).
Proof.
  induction l as [|a l IH]; intros seen; simpl.
  - split; [constructor | intros x; tauto].
  - destruct (mem a seen) eqn:E.
    + apply mem_In in E. destruct (IH seen) as [Hnd Hin].
      split; [exact Hnd|]. intros x. rewrite Hin.
      split; [tauto|]. intros [[->|H] Hn]; [contradiction | tauto].
    + assert (Ha : ~ In a seen).
      { intros H. apply mem_In in H. congruence. }
      destruct (IH (a :: seen)) as [Hnd Hin]. split.
      * constructor; [|exact Hnd]. rewrite Hin. simpl. tauto.
      * intros x. simpl. rewrite Hin. simpl.
        destruct (list_eq_dec ascii_dec a x) as [->|Hne]; tauto.
Qed.

Lemma NoDup_first_appearance (l : list text) : NoDup (first_appearance l).
Proof. apply (first_appearance_from_spec l []). Qed.

Lemma In_first_appearance (l : list text) (x : text) :
  In x (first_appearance l) <-> In x l.
Proof.
  unfold first_appearance. rewrite (proj2 (first_appearance_from_spec l [])).
  simpl. tauto.
Qed.

Lemma dict_set_keyed (s : source_row) (d : dict source_row) :
  keyed_by_id d -> keyed_by_id (dict_set (src_id s) s d).
Proof.
  unfold keyed_by_id. induction 1 as [|[k v] d Hkv Hd IH]; simpl.
  - repeat constructor.
  - destruct (text_eqb (src_id s) k); constructor; auto.
Qed.

Lemma fold_dict_set_keyed (rows : list source_row) :
  forall d, keyed_by_id d ->
            keyed_by_id (fold_left (fun d s => dict_set (src_id s) s d) rows d).
Proof.
  induction rows as [|s rows IH]; intros d Hd; simpl; [exact Hd|].
  apply IH, dict_set_keyed, Hd.
Qed.

Lemma dict_get_keyed (d : dict source_row) (sid : text) (s : source_row) :
  keyed_by_id d -> dict_get sid d = Some s -> src_id s = sid.
Proof.
  unfold keyed_by_id. induction 1 as [|[k v] d Hkv Hd IH]; simpl;
    [discriminate|].
  destruct (text_eqb sid k) eqn:E; [|exact IH].
  intros H; injection H as <-. apply text_eqb_eq in E. simpl in Hkv.
  congruence.
Qed.

Section ChatProperties.

Variable w : World.

(** The names the loop collects: the names of the chunks' sources,
    each at its first appearance. *)
Lemma render_chunks_names (sources : dict source_row)
    (chunks : list chunk_row) :
  forall i parts names seen,
    snd (render_chunks w sources i chunks parts names seen) =
      names ++ first_appearance_from seen
                 (map (fun c => name_in sources (row_source_id c)) chunks).
Proof.
  induction chunks as [|c chunks IH]; intros i parts names seen; simpl.
  - rewrite app_nil_r. reflexivity.
  - rewrite IH. destruct (mem _ seen); simpl; [reflexivity|].
    rewrite <- app_assoc. reflexivity.
Qed.

Lemma context_tuple_no_flag (v : pyval) :
  context_tuple v -> used_fallback v = None.
Proof. intros [c [s [n ->]]]. reflexivity. Qed.

Lemma get_sources_content_tuple (notebook_id : text)
    (source_ids : option (list text)) (tr tr' : trace) (v : pyval) :
  get_sources_content w notebook_id source_ids tr = (tr', Ok v) ->
  context_tuple v.
Proof.
  unfold get_sources_content, bind, call, lift, ret.
  destruct (select_ready_execute w tr _ _ _) as [data|e]; [|discriminate].
  destruct (source_blocks _) as [blocks|e]; [|discriminate].
  intros H; injection H as _ <-. eexists _, _, _. reflexivity.
Qed.

(** How the store's answer decides the outcome of [search]. *)
Lemma search_outcome (query notebook_id : text)
    (source_ids : option (list text)) (match_count_ : Z)
    (tr tr0 : trace) (qe : EmbeddingVector) :
  generate_query_embedding w query tr = (tr0, Ok qe) ->
  let params := {| query_embedding := qe; match_count := match_count_;
                   p_notebook_id := notebook_id;
                   p_source_ids := if_any source_ids |} in
  search w rag_service query notebook_id source_ids match_count_ tr =
    (tr0 ++ [Rpc (lit "match_source_chunks") params],
     match rpc_execute w tr0 (lit "match_source_chunks") params with
     | Ok (Some (r :: l)) => Ok (r :: l)
     | Ok _ => Ok []
     | Err e => Err e
     end).
Proof.
  intros H. unfold search, bind. rewrite H. unfold call, ret, if_any.
  destruct (rpc_execute w tr0 _ _) as [[[|r l]|]|e]; reflexivity.
Qed.

(** C6 (amended). When [search] raises or finds no chunk,
    [get_rag_context] calls [get_sources_content] with the same
    notebook and the same source filter and returns what it returns
    (or raises what it raises).  The value returned is the tuple
    (context, sources, source names) of the fallback: it has no
    [used_fallback] component. *)
Theorem C6_fallback_output (notebook_id query : text)
    (source_ids : option (list text)) (match_count_ : Z)
    (tr tr1 : trace) (r : result (list chunk_row)) :
  search w rag_service query notebook_id (if_any source_ids) match_count_ tr
    = (tr1, r) ->
  r = Ok [] \/ (exists e, r = Err e) ->
  get_rag_context w notebook_id query source_ids match_count_ tr =
    get_sources_content w notebook_id source_ids tr1
  /\ (forall tr2 v,
        get_rag_context w notebook_id query source_ids match_count_ tr
          = (tr2, Ok v) ->
        context_tuple v /\ used_fallback v = None).
Proof.
  intros Hs Hr.
  assert (E : get_rag_context w notebook_id query source_ids match_count_ tr =
              get_sources_content w notebook_id source_ids tr1).
  { unfold get_rag_context, try_or_return. rewrite Hs.
    destruct Hr as [-> | [e ->]]; reflexivity. }
  split; [exact E|]. intros tr2 v H. rewrite E in H.
  pose proof (get_sources_content_tuple _ _ _ _ _ H) as Ht.
  split; [exact Ht | apply context_tuple_no_flag; exact Ht].
Qed.

(** The successful path of [get_rag_context]. *)
Lemma get_rag_context_found (notebook_id query : text)
    (source_ids : option (list text)) (match_count_ : Z)
    (tr tr1 : trace) (c : chunk_row) (cs : list chunk_row) :
  search w rag_service query notebook_id (if_any source_ids) match_count_ tr
    = (tr1, Ok (c :: cs)) ->
  let chunks := c :: cs in
  let ids := set_order w (first_appearance (map row_source_id chunks)) in
  get_rag_context w notebook_id query source_ids match_count_ tr =
    (tr1 ++ [SelectIn (lit "sources") ids],
     match select_in_execute w tr1 (lit "sources") ids with
     | Err e => Err e
     | Ok data =>
         let sources :=
           fold_left (fun d s => dict_set (src_id s) s d)
                     (match data with Some l => l | None => [] end) [] in
         let out := render_chunks w sources 1 chunks [] [] [] in
         Ok (PTuple
               [PStr (join (newline ++ newline) (fst out));
                PList (map PRow
                         (map (fun sid => match dict_get sid sources with
                                          | Some s => s
                                          | None => unknown_source sid
                                          end) ids));
                PList (map PStr (snd out))])
     end).
Proof.
  intros Hs chunks ids. unfold get_rag_context, try_or_return. rewrite Hs.
  unfold bind, call. fold chunks. fold ids.
  destruct (select_in_execute w tr1 _ ids) as [data|e]; [|reflexivity].
  cbv zeta. destruct (render_chunks _ _ _ _ _ _ _) as [parts names].
  reflexivity.
Qed.

End ChatProperties.

Lemma ranked_world_set_iteration : set_iteration (set_order ranked_world).
Proof. intros l _. apply Permutation_sym, Permutation_rev. Qed.

(** The store finds no chunk; the value returned is the fallback's
    triple and holds no [used_fallback]. *)
Lemma C6_counterexample :
  (exists tr1,
     search library_world rag_service (lit "unrelated query") (lit "n1")
       None 5 [] = (tr1, Ok []))
  /\ (exists tr2,
        get_rag_context library_world (lit "n1") (lit "unrelated query")
          None 5 [] = (tr2, Ok library_fallback))
  /\ used_fallback library_fallback <> Some true.
Proof.
  split; [eexists; vm_compute; reflexivity|].
  split; [eexists; vm_compute; reflexivity|].
  vm_compute. discriminate.
Qed.

Lemma C6_fallback_output_witness :
  search library_world rag_service (lit "unrelated query") (lit "n1")
    (if_any None) 5 [] = (library_search_trace, Ok [])
  /\ (@Ok (list chunk_row) [] = Ok [] \/
      exists e, @Ok (list chunk_row) [] = Err e)
  /\ get_rag_context library_world (lit "n1") (lit "unrelated query")
       None 5 [] =
     get_sources_content library_world (lit "n1") None library_search_trace
  /\ get_sources_content library_world (lit "n1") None library_search_trace
     = (library_search_trace ++ [SelectReady (lit "sources") (lit "n1") None],
        Ok library_fallback)
  /\ context_tuple library_fallback
  /\ used_fallback library_fallback = None.
Proof.
  assert (Hs : search library_world rag_service (lit "unrelated query")
                 (lit "n1") (if_any None) 5 []
               = (library_search_trace, Ok []))
    by (vm_compute; reflexivity).
  assert (Hf : get_sources_content library_world (lit "n1") None
                 library_search_trace
               = (library_search_trace
                    ++ [SelectReady (lit "sources") (lit "n1") None],
                  Ok library_fallback))
    by (vm_compute; reflexivity).
  destruct (C6_fallback_output library_world (lit "n1")
              (lit "unrelated query") None 5 [] library_search_trace
              (Ok []) Hs (or_introl eq_refl)) as [E Hv].
  split; [exact Hs|]. split; [left; reflexivity|].
  split; [exact E|]. split; [exact Hf|].
  rewrite <- E in Hf. exact (Hv _ _ Hf).
Defined.

(** The ranked list names source b before source a, the set of ids is
    iterated a before b: the records come back as a, b, the names as
    Beta, Alpha. *)
Lemma C8_counterexample :
  set_iteration (set_order ranked_world)
  /\ search ranked_world rag_service (lit "what is beta") (lit "n1")
       None 10 [] = (ranked_search_trace, Ok ranked_chunks)
  /\ first_appearance (map row_source_id ranked_chunks) = [lit "b"; lit "a"]
  /\ get_rag_context ranked_world (lit "n1") (lit "what is beta") None 10 []
     = (ranked_search_trace ++ [SelectIn (lit "sources") [lit "a"; lit "b"]],
        Ok ranked_context)
  /\ map src_id [row_a; row_b]
     <> first_appearance (map row_source_id ranked_chunks).
Proof.
  split; [exact ranked_world_set_iteration|].
  split; [vm_compute; reflexivity|]. split; [vm_compute; reflexivity|].
  split; [vm_compute; reflexivity|]. vm_compute. discriminate.
Qed.

Lemma C10_embeddings_before_inserts_witness :
  process_source provider_down_world RAGService_init (lit "s1") (lit "hello") []
    = (hello_embed_trace, Err (ProviderError 503))
  /\ exists embeds inserts,
       hello_embed_trace = [] ++ embeds ++ inserts
       /\ Forall is_embed_call embeds /\ Forall is_insert_call inserts
       /\ inserts = [].
Proof.
  assert (Hp : process_source provider_down_world RAGService_init (lit "s1")
                 (lit "hello") []
               = (hello_embed_trace, Err (ProviderError 503)))
    by (vm_compute; reflexivity).
  split; [exact Hp|].
  destruct (C10_embeddings_before_inserts provider_down_world RAGService_init
              (lit "s1") (lit "hello") [] _ _ Hp)
    as [embeds [inserts [E [He [Hi Hfail]]]]].
  exists embeds, inserts. split; [exact E|]. split; [exact He|].
  split; [exact Hi|].
  refine (proj2 (proj2 (Hfail
            [ {| chunk_index := 0; content := lit "hello"; token_count := 1 |} ]
            hello_embed_trace (ProviderError 503) _ _))).
  - vm_compute; reflexivity.
  - vm_compute; reflexivity.
Defined.

(* ================================================================== *)
(** * Further properties of the code *)
(* ================================================================== *)

(** ** Overlap injection and the fixed-stride fallback *)

Lemma len_strip_le (s : text) : len (strip s) <= len s.
Proof.
  unfold strip.
  destruct (lstrip_split s) as [p [E _]].
  destruct (rstrip_split (lstrip s)) as [q [E' _]].
  apply (f_equal (@len ascii)) in E, E'. rewrite len_app in E, E'.
  pose proof (len_nonneg p). pose proof (len_nonneg q). lia.
Qed.

Lemma filter_all {A} (f : A -> bool) (l : list A) :
  Forall (fun x => f x = true) l -> filter f l = l.
Proof.
  induction 1 as [|x l Hx _ IH]; simpl; [reflexivity|].
  rewrite Hx, IH. reflexivity.
Qed.

Section FallbackProperties.

Variable self : TextChunker.

(** The slices of the fallback for a positive stride: window number
    [k] starts at [k * stride] and is [chunk_size] long, cut at the end
    of the text; there are ceil(len / stride) of them. *)
Lemma _split_by_size_windows (t : text) :
  0 <= chunk_overlap self < chunk_size self ->
  let stride := Z.to_nat (chunk_size self - chunk_overlap self) in
  let count := Z.to_nat ((len t + (chunk_size self - chunk_overlap self) - 1)
                         / (chunk_size self - chunk_overlap self)) in
  _split_by_size self t =
    Ok (map (fun k => firstn (Z.to_nat (chunk_size self))
                        (skipn (k * stride) t)) (seq 0 count))
  /\ (length t <= count * stride)%nat
  /\ (forall k, (k < count)%nat -> (k * stride < length t)%nat).
Proof.
  intros HO stride count.
  set (s := chunk_size self - chunk_overlap self) in *.
  assert (Hs : 0 < s) by (unfold s; lia).
  pose proof (len_nonneg t) as Hn.
  assert (Hcount : Z.to_nat (range_len 0 (len t) s) = count).
  { unfold count, range_len.
    replace (0 <? s) with true by (symmetry; apply Z.ltb_lt; lia).
    destruct (0 <? len t) eqn:E;
      [apply Z.ltb_lt in E | apply Z.ltb_ge in E]; f_equal.
    - rewrite Z.sub_0_r.
      replace (len t + s - 1) with (len t - 1 + 1 * s) by lia.
      rewrite Z.div_add by lia. reflexivity.
    - assert (len t = 0) by lia. rewrite H.
      symmetry. apply Z.div_small. lia. }
  assert (Hcover : (length t <= count * stride)%nat).
  { unfold count, stride. fold s. unfold len in *.
    pose proof (Z.div_mod (Z.of_nat (length t) + s - 1) s ltac:(lia)) as Hd.
    pose proof (Z.mod_pos_bound (Z.of_nat (length t) + s - 1) s Hs) as Hm.
    assert (0 <= (Z.of_nat (length t) + s - 1) / s)
      by (apply Z.div_pos; lia).
    nia. }
  assert (Hstart : forall k, (k < count)%nat -> (k * stride < length t)%nat).
  { intros k Hk. unfold count, stride in *. fold s in Hk. unfold len in *.
    pose proof (Z.div_mod (Z.of_nat (length t) + s - 1) s ltac:(lia)) as Hd.
    pose proof (Z.mod_pos_bound (Z.of_nat (length t) + s - 1) s Hs) as Hm.
    assert (0 <= (Z.of_nat (length t) + s - 1) / s)
      by (apply Z.div_pos; lia).
    nia. }
  split; [|split; assumption].
  unfold _split_by_size, py_range. fold s.
  replace (s =? 0) with false by (symmetry; apply Z.eqb_neq; lia).
  simpl rbind. rewrite Hcount, map_map. f_equal.
  rewrite filter_all.
  - apply map_ext. intros k. rewrite slice_window by lia.
    do 2 f_equal. unfold stride. fold s. lia.
  - apply Forall_forall. intros x Hx. apply in_map_iff in Hx as [k [<- Hk]].
    apply in_seq in Hk. apply truthy_len.
    rewrite len_slice_window; try lia.
    + pose proof (Hstart k ltac:(lia)). unfold stride in *. unfold len. lia.
    + pose proof (Hstart k ltac:(lia)). unfold stride in *. unfold len. lia.
Qed.

Lemma firstn_windows_concat (t : text) (size stride : nat) (count : nat) :
  (stride <= size)%nat ->
  concat (map (firstn stride)
            (map (fun k => firstn size (skipn (k * stride) t)) (seq 0 count)))
  = firstn (count * stride) t.
Proof.
  intros H. induction count as [|m IH]; [reflexivity|].
  rewrite seq_S, !map_app, concat_app, IH. simpl map. simpl concat.
  rewrite app_nil_r, firstn_firstn, Nat.min_l by exact H.
  replace (S m * stride)%nat with (m * stride + stride)%nat by lia.
  rewrite firstn_add. reflexivity.
Qed.

(** X3. With [0 <= chunk_overlap < chunk_size] the fallback loses no
    character: it returns ceil(len / stride) non-empty slices of at
    most [chunk_size] characters, and the first [stride] characters of
    the slices, one slice after the other, are the text; without
    overlap the slices themselves are. *)
Theorem X3_split_by_size_covers_text (t : text) :
  0 <= chunk_overlap self < chunk_size self ->
  exists slices,
    _split_by_size self t = Ok slices
    /\ Forall (fun s => s <> [] /\ len s <= chunk_size self) slices
    /\ len slices =
         (len t + (chunk_size self - chunk_overlap self) - 1)
         / (chunk_size self - chunk_overlap self)
    /\ concat (map (firstn (Z.to_nat (chunk_size self - chunk_overlap self)))
                 slices) = t
    /\ (chunk_overlap self = 0 -> concat slices = t).
Proof.
  intros HO.
  destruct (_split_by_size_windows t HO) as [E [Hcover Hstart]].
  cbv zeta in E, Hcover, Hstart.
  set (stride := Z.to_nat (chunk_size self - chunk_overlap self)) in *.
  set (count := Z.to_nat ((len t + (chunk_size self - chunk_overlap self) - 1)
                          / (chunk_size self - chunk_overlap self))) in *.
  eexists. split; [exact E|].
  assert (Hcat : concat (map (firstn stride)
                   (map (fun k => firstn (Z.to_nat (chunk_size self))
                                    (skipn (k * stride) t)) (seq 0 count)))
                 = t).
  { rewrite firstn_windows_concat by (unfold stride; lia).
    apply firstn_all2. exact Hcover. }
  split; [|split; [|split]].
  - apply Forall_forall. intros x Hx. apply in_map_iff in Hx as [k [<- Hk]].
    apply in_seq in Hk. pose proof (Hstart k ltac:(lia)) as Hk'. split.
    + intros Hnil. apply (f_equal (@length ascii)) in Hnil.
      rewrite length_firstn, length_skipn in Hnil. simpl in Hnil. lia.
    + unfold len. rewrite length_firstn. lia.
  - unfold len at 1. rewrite length_map, length_seq. unfold count.
    rewrite Z2Nat.id; [reflexivity|].
    pose proof (len_nonneg t). apply Z.div_pos; lia.
  - exact Hcat.
  - intros H0. etransitivity; [|exact Hcat]. f_equal. rewrite map_map.
    apply map_ext. intros k. rewrite firstn_firstn.
    f_equal. unfold stride. lia.
Qed.

(** X4. With [0 <= chunk_overlap < chunk_size], two slices of the
    fallback that follow each other overlap: what a slice holds after
    its first [stride] characters is the first [chunk_overlap]
    characters of the next slice. *)
Theorem X4_split_by_size_slices_overlap (t : text) (slices : list text)
    (k : nat) (a b : text) :
  0 <= chunk_overlap self < chunk_size self ->
  _split_by_size self t = Ok slices ->
  nth_error slices k = Some a ->
  nth_error slices (S k) = Some b ->
  skipn (Z.to_nat (chunk_size self - chunk_overlap self)) a
    = firstn (Z.to_nat (chunk_overlap self)) b.
Proof.
  intros HO H Ha Hb.
  destruct (_split_by_size_windows t HO) as [E _]. cbv zeta in E.
  rewrite E in H. injection H as <-.
  set (stride := Z.to_nat (chunk_size self - chunk_overlap self)) in *.
  rewrite nth_error_map, nth_error_seq in Ha, Hb.
  destruct (Nat.ltb k _); [|discriminate].
  destruct (Nat.ltb (S k) _); [|discriminate].
  simpl in Ha, Hb. injection Ha as <-. injection Hb as <-.
  rewrite skipn_firstn_comm, skipn_skipn, firstn_firstn.
  replace (stride + k * stride)%nat with (S k * stride)%nat by lia.
  f_equal. unfold stride. lia.
Qed.

(** X1. One pass of [_add_overlap] over two or more chunks with
    [chunk_overlap > 0] keeps their number and the first chunk, and
    puts before every later chunk the last min(overlap, len) characters
    of the chunk before it in the list it was given, and one space. *)
Theorem X1_add_overlap_prefixes (chunks : list text) :
  0 < chunk_overlap self -> (2 <= length chunks)%nat ->
  length (_add_overlap self chunks) = length chunks
  /\ nth 0 (_add_overlap self chunks) [] = nth 0 chunks []
  /\ forall i, (S i < length chunks)%nat ->
       let prev := nth i chunks [] in
       nth (S i) (_add_overlap self chunks) [] =
         skipn (length prev
                - Z.to_nat (Z.min (chunk_overlap self) (len prev))) prev
         ++ lit " " ++ nth (S i) chunks [].
Proof.
  intros HO H2. split; [apply length_add_overlap|]. split.
  - apply (add_overlap_nth self chunks 0 HO H2). lia.
  - intros i Hi prev. rewrite (add_overlap_nth self chunks (S i) HO H2 Hi).
    rewrite (proj1 (overlap_text_spec self (nth i chunks []) HO)).
    reflexivity.
Qed.

(** X2. [_add_overlap] returns the list it was given when
    [chunk_overlap <= 0] or when the list has fewer than two chunks. *)
Theorem X2_add_overlap_unchanged (chunks : list text) :
  chunk_overlap self <= 0 \/ (length chunks <= 1)%nat ->
  _add_overlap self chunks = chunks.
Proof.
  intros [H|H]; [apply add_overlap_zero; exact H|].
  unfold _add_overlap.
  replace (len chunks <=? 1) with true
    by (symmetry; apply Z.leb_le; unfold len; lia).
  reflexivity.
Qed.

End FallbackProperties.

(** ** [_recursive_split] and [split_text] *)

(** What [split_text] returns, in terms of the segments of
    [_recursive_split]. *)
Lemma split_text_segments (self : TextChunker) (t : text) (chunks : list Chunk) :
  split_text self t = Ok chunks ->
  exists segments,
    (blank t = true /\ segments = [] \/
     _recursive_split self (separators self) (strip t) = Ok segments)
    /\ Forall (fun c =>
                 0 <= chunk_index c < len segments /\
                 content c = strip (nth (Z.to_nat (chunk_index c)) segments [])
                 /\ content c <> [] /\
                 token_count c =
                   len (nth (Z.to_nat (chunk_index c)) segments []) / 4)
              chunks.
Proof.
  intros H. unfold split_text in H.
  destruct (negb (truthy t) || negb (truthy (strip t))) eqn:Eb.
  - injection H as <-. exists []. split; [|constructor]. left. split; auto.
    apply orb_prop in Eb as [Eb|Eb]; apply negb_true_iff in Eb.
    + apply truthy_false in Eb. subst t. reflexivity.
    + apply truthy_false in Eb. apply strip_nil_blank. exact Eb.
  - destruct (_recursive_split self (separators self) (strip t))
      as [segments|e] eqn:Er; simpl in H; [|discriminate].
    injection H as <-. exists segments. split; [right; reflexivity|].
    destruct (collect_spec segments 0) as [Hall _].
    eapply Forall_impl; [|exact Hall]. intros c [Hi [Hc [Hn Ht]]].
    rewrite Z.sub_0_r in Hc, Ht. repeat split; auto; lia.
Qed.

Section SplitTextProperties.

Variable self : TextChunker.

Lemma merge_splits_total (recurse : text -> result (list text))
    (separator : text) (splits : list text) :
  (forall s, exists subs, recurse s = Ok subs) ->
  forall chunks current,
    exists out, merge_splits self recurse separator splits chunks current
                = Ok out.
Proof.
  intros Hrec. induction splits as [|p splits IH]; intros chunks current.
  - eexists; reflexivity.
  - simpl. destruct (_ <=? chunk_size self); [apply IH|].
    destruct (chunk_size self <? len p); [|apply IH].
    destruct (Hrec p) as [subs ->]. simpl. apply IH.
Qed.

Lemma _recursive_split_total (separators : list text) :
  chunk_overlap self < chunk_size self ->
  forall t, exists chunks, _recursive_split self separators t = Ok chunks.
Proof.
  intros HO. induction separators as [|sep rest IH]; intros t.
  - apply _split_by_size_total; exact HO.
  - simpl. destruct (truthy sep); [|apply _split_by_size_total; exact HO].
    unfold merged.
    destruct (merge_splits_total (_recursive_split self rest) sep
                (split t sep) IH [] []) as [[chunks current] ->].
    eexists; reflexivity.
Qed.


(** A text that no separator of the list splits and that is longer
    than [chunk_size] goes down to the fallback unchanged. *)
Lemma _recursive_split_unsplit (separators : list text) (t : text) :
  chunk_size self < len t ->
  Forall (fun sep => sep = [] \/ split t sep = [t]) separators ->
  (chunk_overlap self = chunk_size self ->
   _recursive_split self separators t = Err ValueError)
  /\ (chunk_size self < chunk_overlap self ->
      _recursive_split self separators t = Ok []).
Proof.
  intros Hlen. induction 1 as [|sep rest Hsep _ IH]; simpl.
  - split; intros H.
    + apply _split_by_size_zero_stride; exact H.
    + apply _split_by_size_negative_stride; exact H.
  - destruct sep as [|c sep]; simpl truthy; cbv iota.
    + split; intros H.
      * apply _split_by_size_zero_stride; exact H.
      * apply _split_by_size_negative_stride; exact H.
    + destruct Hsep as [Hnil|Hsplit]; [discriminate|].
      unfold merged. rewrite Hsplit. simpl merge_splits.
      replace (len t <=? chunk_size self) with false
        by (symmetry; apply Z.leb_gt; exact Hlen).
      replace (chunk_size self <? len t) with true
        by (symmetry; apply Z.ltb_lt; exact Hlen).
      destruct IH as [IH1 IH2]. split; intros H.
      * rewrite (IH1 H). reflexivity.
      * rewrite (IH2 H). reflexivity.
Qed.

Lemma long_strip_not_blank (t : text) (n : Z) :
  0 <= n -> n < len (strip t) -> blank t = false.
Proof.
  intros Hn Hlen. destruct (blank t) eqn:E; [|reflexivity].
  apply strip_blank in E. rewrite E in Hlen.
  change (len (@nil ascii)) with 0 in Hlen. lia.
Qed.

(** X6. When [chunk_overlap = chunk_size], a text whose stripped form
    is longer than [chunk_size] and is split by none of the separators
    makes [split_text] raise ValueError. *)
Theorem X6_unsplittable_text_raises (t : text) :
  0 <= chunk_size self ->
  chunk_overlap self = chunk_size self ->
  chunk_size self < len (strip t) ->
  Forall (fun sep => sep = [] \/ split (strip t) sep = [strip t])
         (separators self) ->
  split_text self t = Err ValueError.
Proof.
  intros HC HO Hlen Hsep. unfold split_text.
  destruct (not_blank_truthy _ (long_strip_not_blank t _ HC Hlen)) as [-> ->].
  simpl.
  rewrite (proj1 (_recursive_split_unsplit _ _ Hlen Hsep) HO). reflexivity.
Qed.

(** X7. When [chunk_overlap > chunk_size], a text whose stripped form
    is longer than [chunk_size] and is split by none of the separators
    is dropped: [split_text] returns no chunk and raises nothing. *)
Theorem X7_unsplittable_text_dropped (t : text) :
  0 <= chunk_size self ->
  chunk_size self < chunk_overlap self ->
  chunk_size self < len (strip t) ->
  Forall (fun sep => sep = [] \/ split (strip t) sep = [strip t])
         (separators self) ->
  split_text self t = Ok [].
Proof.
  intros HC HO Hlen Hsep. unfold split_text.
  destruct (not_blank_truthy _ (long_strip_not_blank t _ HC Hlen)) as [-> ->].
  simpl.
  rewrite (proj2 (_recursive_split_unsplit _ _ Hlen Hsep) HO). reflexivity.
Qed.

(** X8. No chunk [split_text] returns is longer than [chunk_size]
    plus, for every separator of the list, what one pass of overlap
    injection can add ([chunk_overlap + 1] when the overlap is
    positive): the bound on chunk length the code keeps. *)
Theorem X8_chunk_length_bound (t : text) (chunks : list Chunk) :
  0 <= chunk_size self ->
  split_text self t = Ok chunks ->
  Forall (fun c => len (content c)
                   <= chunk_size self
                      + len (separators self) * overlap_growth self)
         chunks.
Proof.
  intros HC H.
  destruct (split_text_segments self t chunks H) as [segments [Hseg Hall]].
  apply Forall_forall. intros c Hc.
  rewrite Forall_forall in Hall. destruct (Hall c Hc) as [Hi [-> _]].
  destruct Hseg as [[_ ->]|Hseg]; [simpl in Hi; unfold len in Hi; simpl in Hi; lia|].
  apply (_recursive_split_length_bound self _ HC) in Hseg.
  unfold within in Hseg. rewrite Forall_forall in Hseg.
  pose proof (len_strip_le (nth (Z.to_nat (chunk_index c)) segments [])).
  assert (In (nth (Z.to_nat (chunk_index c)) segments []) segments)
    by (apply nth_In; unfold len in Hi; lia).
  specialize (Hseg _ H1). simpl in Hseg. lia.
Qed.

(** X9. A text that is not blank, whose stripped form fits
    [chunk_size] and does not start with the first separator, comes
    back from [split_text] as one chunk: number 0, the stripped text,
    a quarter of its length as token count. *)
Theorem X9_short_text_single_chunk (t : text) (separator : text)
    (rest : list text) :
  separators self = separator :: rest -> separator <> [] ->
  strip t <> [] -> starts_with separator (strip t) = false ->
  len (strip t) <= chunk_size self ->
  split_text self t =
    Ok [ {| chunk_index := 0; content := strip t;
            token_count := len (strip t) / 4 |} ].
Proof.
  intros Hseps Hsep Hne Hstart Hlen. unfold split_text.
  assert (Hb : blank t = false).
  { destruct (blank t) eqn:E; [|reflexivity].
    apply strip_blank in E. congruence. }
  destruct (not_blank_truthy _ Hb) as [-> ->]. simpl negb. simpl orb.
  cbv iota. rewrite Hseps.
  rewrite (_recursive_split_short self separator rest (strip t)
             Hsep Hne Hstart Hlen).
  simpl rbind. simpl collect. rewrite strip_idem.
  apply truthy_true in Hne. rewrite Hne. reflexivity.
Qed.

(** X10. Every chunk [split_text] returns has a content that is not
    blank and has no whitespace at either end, and a token count that
    is a quarter of the length of the unstripped segment, so at least
    a quarter of the length of the content. *)
Theorem X10_chunk_content_stripped (t : text) (chunks : list Chunk) :
  split_text self t = Ok chunks ->
  Forall (fun c => strip (content c) = content c
                   /\ blank (content c) = false
                   /\ len (content c) / 4 <= token_count c)
         chunks.
Proof.
  intros H.
  destruct (split_text_segments self t chunks H) as [segments [_ Hall]].
  eapply Forall_impl; [|exact Hall]. intros c [_ [Hc [Hn Ht]]].
  split; [rewrite Hc; apply strip_idem|]. split.
  - destruct (blank (content c)) eqn:E; [|reflexivity].
    apply strip_blank in E. rewrite Hc, strip_idem in E. congruence.
  - rewrite Ht, Hc. apply Z.div_le_mono; [lia | apply len_strip_le].
Qed.

End SplitTextProperties.

(** ** Batch embedding, ingest and search *)

Lemma blank_test (t : text) :
  negb (truthy t) || negb (truthy (strip t)) = blank t.
Proof.
  rewrite truthy_strip_blank, negb_involutive.
  destruct t; reflexivity.
Qed.

Section BatchProperties.

Variable w : World.

Lemma generate_embedding_run (t : text) (tr : trace) :
  generate_embedding w t tr =
    if blank t then (tr, Ok (zeros EMBEDDING_DIM))
    else (tr ++ [document_call t],
          embed_content w tr MODEL_NAME (slice_to t 10000)
            (lit "retrieval_document")).
Proof.
  unfold generate_embedding. rewrite blank_test.
  destruct (blank t); reflexivity.
Qed.

(** A batch that comes back: one vector per text, one provider call
    per text that is not blank, in the order of the texts. *)
Lemma generate_embeddings_batch_ok (texts : list text) :
  forall tr tr' vs,
    generate_embeddings_batch w texts tr = (tr', Ok vs) ->
    length vs = length texts
    /\ tr' = tr ++ map document_call (filter (fun t => negb (blank t)) texts)
    /\ (forall i t, nth_error texts i = Some t -> blank t = true ->
                    nth_error vs i = Some (zeros 768)).
Proof.
  unfold generate_embeddings_batch.
  induction texts as [|t texts IH]; intros tr tr' vs H.
  - injection H as <- <-. rewrite app_nil_r. repeat split.
    intros [|i] t H; discriminate.
  - simpl in H. unfold bind at 1 in H. rewrite generate_embedding_run in H.
    destruct (blank t) eqn:Eb.
    + unfold bind at 1 in H.
      destruct (mapM (generate_embedding w) texts tr) as [tr2 [vs2|e]] eqn:E2;
        [|discriminate].
      injection H as <- <-. destruct (IH _ _ _ E2) as [Hl [Ht Hz]].
      simpl. rewrite Eb. simpl. split; [f_equal; exact Hl|].
      split; [exact Ht|].
      intros [|i] t0 Hn Hb; simpl in *; [reflexivity | eauto].
    + destruct (embed_content w tr _ _ _) as [v|e]; [|discriminate].
      unfold bind at 1 in H.
      destruct (mapM (generate_embedding w) texts (tr ++ [document_call t]))
        as [tr2 [vs2|e]] eqn:E2; [|discriminate].
      injection H as <- <-. destruct (IH _ _ _ E2) as [Hl [Ht Hz]].
      simpl. rewrite Eb. simpl. split; [f_equal; exact Hl|].
      split; [rewrite Ht, <- app_assoc; reflexivity|].
      intros [|i] t0 Hn Hb; simpl in *; [congruence | eauto].
Qed.

(** The first text the provider fails on ends the batch. *)
Lemma generate_embeddings_batch_first_failure (before after : list text)
    (t : text) :
  forall tr tr1 tr2 vs e,
    generate_embeddings_batch w before tr = (tr1, Ok vs) ->
    generate_embedding w t tr1 = (tr2, Err e) ->
    generate_embeddings_batch w (before ++ t :: after) tr = (tr2, Err e).
Proof.
  unfold generate_embeddings_batch.
  induction before as [|b before IH]; intros tr tr1 tr2 vs e Hb Ht.
  - injection Hb as <- _. simpl. unfold bind at 1. rewrite Ht. reflexivity.
  - simpl in Hb |- *. unfold bind at 1 in Hb. unfold bind at 1.
    destruct (generate_embedding w b tr) as [tr0 [v|e0]]; [|discriminate].
    unfold bind at 1 in Hb. unfold bind at 1.
    destruct (mapM (generate_embedding w) before tr0) as [tr3 [vs3|e3]] eqn:E3;
      [|discriminate].
    injection Hb as <- _. rewrite (IH _ _ _ _ _ E3 Ht). reflexivity.
Qed.

(** X11. When [generate_embeddings_batch] returns, it returns one
    vector per text, in order; it has called the provider once for
    each text that is not blank, in the order of the texts and with
    the text cut to 10,000 characters, and the vector of a blank text
    is the zero vector. *)
Theorem X11_batch_one_vector_per_text (texts : list text)
    (tr tr' : trace) (vs : list EmbeddingVector) :
  generate_embeddings_batch w texts tr = (tr', Ok vs) ->
  length vs = length texts
  /\ tr' = tr ++ map document_call (filter (fun t => negb (blank t)) texts)
  /\ (forall i t, nth_error texts i = Some t -> blank t = true ->
                  nth_error vs i = Some (zeros 768)).
Proof. apply generate_embeddings_batch_ok. Qed.

(** X12. When the provider fails on a text of the batch after the
    texts before it were embedded, [generate_embeddings_batch] raises
    that error at once: the texts after it are never sent, and no
    vector is returned. *)
Theorem X12_batch_stops_at_first_failure (before after : list text)
    (t : text) (tr tr1 tr2 : trace) (vs : list EmbeddingVector) (e : exn) :
  generate_embeddings_batch w before tr = (tr1, Ok vs) ->
  generate_embedding w t tr1 = (tr2, Err e) ->
  generate_embeddings_batch w (before ++ t :: after) tr = (tr2, Err e)
  /\ tr2 = tr ++ map document_call
                   (filter (fun t => negb (blank t)) (before ++ [t])).
Proof.
  intros Hb Ht. split.
  - eapply generate_embeddings_batch_first_failure; eauto.
  - destruct (generate_embeddings_batch_ok _ _ _ _ Hb) as [_ [-> _]].
    rewrite generate_embedding_run in Ht.
    destruct (blank t) eqn:Eb; [discriminate|]. injection Ht as <- _.
    rewrite filter_app, map_app, app_assoc. simpl. rewrite Eb. reflexivity.
Qed.

(** X13. When the chunker returns no chunk, as it does for a blank
    content, [process_source] returns 0 and calls neither the provider
    nor the store. *)
Theorem X13_nothing_to_ingest (self : RAGService) (source_id content_ : text)
    (tr : trace) :
  blank content_ = true \/ split_text (chunker self) content_ = Ok [] ->
  process_source w self source_id content_ tr = (tr, Ok 0).
Proof.
  intros H.
  assert (Hs : split_text (chunker self) content_ = Ok []).
  { destruct H as [H|H]; [|exact H].
    unfold split_text. rewrite blank_test, H. reflexivity. }
  unfold process_source, bind at 1, lift at 1. rewrite Hs. reflexivity.
Qed.

(** The insert loop stops at the first batch the store refuses. *)
Lemma insert_loop_prefix (records : list chunk_record) (starts : list Z) :
  forall tr tr' r,
    forM_ starts (fun i =>
      let batch := slice records i (i + batch_size) in
      call (Insert (lit "source_chunks") batch)
           (fun tr => insert_execute w tr (lit "source_chunks") batch)) tr
    = (tr', r) ->
    let batches := map (fun i => slice records i (i + batch_size)) starts in
    exists k,
      (k <= length batches)%nat
      /\ tr' = tr ++ map (Insert (lit "source_chunks")) (firstn k batches)
      /\ (r = Ok tt -> k = length batches)
      /\ (forall e, r = Err e ->
            (0 < k)%nat /\
            insert_execute w
              (tr ++ map (Insert (lit "source_chunks"))
                       (firstn (k - 1) batches))
              (lit "source_chunks") (nth (k - 1) batches []) = Err e).
Proof.
  induction starts as [|i starts IH]; intros tr tr' r H; cbv zeta.
  - injection H as <- <-. exists 0%nat. simpl. rewrite app_nil_r.
    repeat split; auto. all: intros; discriminate.
  - simpl in H. unfold bind at 1, call at 1 in H.
    destruct (insert_execute w tr _ _) as [[]|e0] eqn:Ei.
    + destruct (IH _ _ _ H) as [k [Hk [-> [Hok Herr]]]].
      exists (S k). simpl. rewrite <- app_assoc. simpl.
      split; [lia|]. split; [reflexivity|]. split; [auto|].
      intros e He. destruct (Herr e He) as [Hpos Hfail]. split; [lia|].
      rewrite Nat.sub_0_r. destruct k as [|k]; [lia|].
      simpl in Hfail |- *. rewrite Nat.sub_0_r in Hfail.
      rewrite <- app_assoc in Hfail. exact Hfail.
    + injection H as <- <-. exists 1%nat. simpl.
      split; [lia|]. split; [reflexivity|]. split; [discriminate|].
      intros e He. injection He as <-. rewrite app_nil_r.
      split; [lia | exact Ei].
Qed.

(** X14. When the store refuses a batch, [process_source] raises the
    store's error and returns no count: the batches before the refused
    one have been written and stay written, the batches after it are
    never sent.  When it returns a count, every batch was sent. *)
Theorem X14_insert_failure_keeps_earlier_batches (self : RAGService)
    (source_id content_ : text) (chunks : list Chunk)
    (embeddings : list EmbeddingVector) (tr tr1 tr' : trace)
    (r : result Z) :
  split_text (chunker self) content_ = Ok chunks -> chunks <> [] ->
  generate_embeddings_batch w (map content chunks) tr = (tr1, Ok embeddings) ->
  process_source w self source_id content_ tr = (tr', r) ->
  exists batches k,
    concat batches = map (make_record source_id) (combine chunks embeddings)
    /\ (k <= length batches)%nat
    /\ tr' = tr1 ++ map (Insert (lit "source_chunks")) (firstn k batches)
    /\ (forall n, r = Ok n -> k = length batches /\ n = len chunks)
    /\ (forall e, r = Err e ->
          (0 < k)%nat /\
          insert_execute w
            (tr1 ++ map (Insert (lit "source_chunks"))
                      (firstn (k - 1) batches))
            (lit "source_chunks") (nth (k - 1) batches []) = Err e).
Proof.
  intros Hs Hne Hb H.
  rewrite (process_source_run w self source_id content_ chunks tr Hs Hne), Hb
    in H. cbv zeta in H.
  set (records := map (make_record source_id) (combine chunks embeddings))
    in *.
  destruct (batches_of_50 records) as [starts [Er [Hcat _]]].
  cbv zeta in Hcat. rewrite Er in H.
  destruct (forM_ starts _ tr1) as [tr2 r2] eqn:El.
  destruct (insert_loop_prefix _ _ _ _ _ El) as [k [Hk [-> [Hok Herr]]]].
  exists (map (fun i => slice records i (i + batch_size)) starts), k.
  split; [exact Hcat|]. split; [exact Hk|].
  assert (Hlen : len records = len chunks).
  { destruct (generate_embeddings_batch_ok _ _ _ _ Hb) as [Hl _].
    rewrite length_map in Hl.
    unfold records, len. rewrite length_map, length_combine. lia. }
  destruct r2 as [[]|e]; injection H as <- <-.
  - split; [reflexivity|]. split.
    + intros n Hn. injection Hn as <-. split; [apply Hok; reflexivity|].
      exact Hlen.
    + intros e He; discriminate.
  - split; [reflexivity|]. split.
    + intros n Hn; discriminate.
    + intros e' He. apply Herr. congruence.
Qed.

(** X15. Every chunk of a source is embedded by a call of the
    provider: chunk contents are never blank, so [process_source]'s
    batch makes one call per chunk, in chunk order, on the content cut
    to 10,000 characters, and never takes the zero-vector shortcut. *)
Theorem X15_every_chunk_is_embedded (self : TextChunker) (t : text)
    (chunks : list Chunk) (tr tr1 : trace)
    (embeddings : list EmbeddingVector) :
  split_text self t = Ok chunks ->
  generate_embeddings_batch w (map content chunks) tr = (tr1, Ok embeddings) ->
  length embeddings = length chunks
  /\ tr1 = tr ++ map (fun c => document_call (content c)) chunks.
Proof.
  intros Hs Hb.
  destruct (generate_embeddings_batch_ok _ _ _ _ Hb) as [Hl [-> _]].
  rewrite length_map in Hl. split; [exact Hl|]. f_equal.
  rewrite filter_all, map_map; [reflexivity|].
  apply Forall_forall. intros x Hx. apply in_map_iff in Hx as [c [<- Hc]].
  destruct (split_text_segments self t chunks Hs) as [segments [_ Hall]].
  rewrite Forall_forall in Hall. destruct (Hall c Hc) as [_ [Hcon [Hn _]]].
  destruct (blank (content c)) eqn:E; [|reflexivity].
  apply strip_blank in E. rewrite Hcon, strip_idem in E. congruence.
Qed.

(** X16. A blank query is not short-circuited by [search]: without
    calling the provider it asks the store for the neighbours of the
    zero vector, and returns the rows the store answers with ([[]] for
    an answer without data). *)
Theorem X16_blank_query_searches_zero_vector (self : RAGService)
    (query notebook_id : text) (source_ids : option (list text))
    (match_count_ : Z) (tr : trace) :
  blank query = true ->
  let params := {| query_embedding := zeros 768; match_count := match_count_;
                   p_notebook_id := notebook_id;
                   p_source_ids := if_any source_ids |} in
  search w self query notebook_id source_ids match_count_ tr =
    (tr ++ [Rpc (lit "match_source_chunks") params],
     match rpc_execute w tr (lit "match_source_chunks") params with
     | Ok (Some rows) => Ok rows
     | Ok None => Ok []
     | Err e => Err e
     end).
Proof.
  intros Hb params. unfold search, bind at 1, generate_query_embedding.
  rewrite blank_test, Hb. unfold ret at 1, bind, call, if_any.
  fold params.
  destruct (rpc_execute w tr _ _) as [[[|r l]|]|e]; reflexivity.
Qed.

End BatchProperties.

(** ** The context helpers *)

Lemma source_blocks_ok (rows : list source_row) :
  Forall has_name_and_type rows ->
  exists blocks,
    source_blocks rows = Ok blocks
    /\ map (fun b => Some (fst b)) blocks = map src_name rows
    /\ Forall (fun b => exists body,
                 snd b = lit "--- Source: " ++ fst b ++ lit " ---" ++ newline
                         ++ body ++ newline) blocks.
Proof.
  induction 1 as [|r rows [Hn Ht] _ [blocks [E [Hnames Hshape]]]].
  - exists []. repeat split; constructor.
  - simpl. unfold source_block.
    destruct (src_name r) as [name|] eqn:En; [|congruence].
    destruct (src_type r) as [type|] eqn:Ety; [|congruence].
    simpl. rewrite E. simpl. eexists. split; [reflexivity|].
    simpl. rewrite Hnames. split; [reflexivity|].
    constructor; [|exact Hshape]. simpl. eexists; reflexivity.
Qed.

Lemma source_blocks_missing_key (rows : list source_row) :
  Exists (fun r => ~ has_name_and_type r) rows ->
  source_blocks rows = Err (KeyError "name")
  \/ source_blocks rows = Err (KeyError "type").
Proof.
  induction rows as [|r rows IH]; intros H; [inversion H|].
  simpl. unfold source_block.
  destruct (src_name r) as [name|] eqn:En; [|left; reflexivity].
  destruct (src_type r) as [type|] eqn:Ety; [|right; reflexivity].
  simpl. inversion H as [? ? Hr|? ? Hr]; subst.
  - exfalso. apply Hr. split; congruence.
  - destruct (IH Hr) as [-> | ->]; [left | right]; reflexivity.
Qed.

Lemma first_appearance_constant {A} (x : text) (a : A) (l : list A) :
  first_appearance (map (fun _ => x) (a :: l)) = [x].
Proof.
  assert (H : mem x [x] = true) by (apply mem_In; left; reflexivity).
  unfold first_appearance. cbn [map first_appearance_from mem existsb].
  f_equal. induction l as [|b l IH]; [reflexivity|].
  cbn [map first_appearance_from]. rewrite H. exact IH.
Qed.

Lemma nth_error_combine_seq {A} (l : list A) :
  forall n i x,
    nth_error l i = Some x ->
    nth_error (combine (seq n (length l)) l) i = Some ((n + i)%nat, x).
Proof.
  induction l as [|a l IH]; intros n [|i] x H; simpl in *; try discriminate.
  - injection H as <-. rewrite Nat.add_0_r. reflexivity.
  - rewrite (IH (S n) i x H). do 2 f_equal. lia.
Qed.

Section ContextProperties.

Variable w : World.

(** X17. With rows that all have a name and a type,
    [get_sources_content] makes one store call and returns the rows as
    the store gave them, the names of the rows in the same order with
    repetitions kept, and a context of one block per row, each
    starting with the line "--- Source: name ---". *)
Theorem X17_fallback_context_shape (notebook_id : text)
    (source_ids : option (list text)) (tr : trace)
    (data : option (list source_row)) :
  select_ready_execute w tr (lit "sources") notebook_id (if_any source_ids)
    = Ok data ->
  let rows := match data with Some l => l | None => [] end in
  Forall has_name_and_type rows ->
  exists blocks names,
    get_sources_content w notebook_id source_ids tr =
      (tr ++ [SelectReady (lit "sources") notebook_id (if_any source_ids)],
       Ok (PTuple [PStr (join newline blocks);
                   PList (map PRow rows);
                   PList (map PStr names)]))
    /\ map Some names = map src_name rows
    /\ length blocks = length rows
    /\ Forall2 (fun name block =>
                  exists body,
                    block = lit "--- Source: " ++ name ++ lit " ---"
                            ++ newline ++ body ++ newline)
               names blocks.
Proof.
  intros Hd rows Hrows.
  destruct (source_blocks_ok rows Hrows) as [blocks [E [Hnames Hshape]]].
  exists (map snd blocks), (map fst blocks).
  split; [|split; [|split]].
  - unfold get_sources_content, bind, call, lift, ret. rewrite Hd.
    fold rows. rewrite E. reflexivity.
  - rewrite map_map. exact Hnames.
  - rewrite length_map.
    rewrite <- (length_map (fun b => Some (fst b))), Hnames, length_map.
    reflexivity.
  - clear -Hshape. induction Hshape as [|b blocks Hb _ IH]; simpl;
      constructor; [exact Hb | exact IH].
Qed.

(** X18. When a row the store returns lacks the name or the type,
    [get_sources_content] raises KeyError for that key, after its
    store call. *)
Theorem X18_fallback_missing_key (notebook_id : text)
    (source_ids : option (list text)) (tr : trace)
    (rows : list source_row) :
  select_ready_execute w tr (lit "sources") notebook_id (if_any source_ids)
    = Ok (Some rows) ->
  Exists (fun r => ~ has_name_and_type r) rows ->
  exists key,
    (key = "name"%string \/ key = "type"%string)
    /\ get_sources_content w notebook_id source_ids tr =
         (tr ++ [SelectReady (lit "sources") notebook_id (if_any source_ids)],
          Err (KeyError key)).
Proof.
  intros Hd Hrows.
  unfold get_sources_content, bind, call, lift. rewrite Hd.
  destruct (source_blocks_missing_key rows Hrows) as [-> | ->];
    eexists; (split; [|reflexivity]); [left | right]; reflexivity.
Qed.

(** X20. When the search finds no chunk or raises and the store has no
    ready source, [get_rag_context] returns the empty context with no
    sources and no names. *)
Theorem X20_nothing_found_nothing_ready (notebook_id query : text)
    (source_ids : option (list text)) (match_count_ : Z)
    (tr tr1 : trace) (r : result (list chunk_row)) :
  search w rag_service query notebook_id (if_any source_ids) match_count_ tr
    = (tr1, r) ->
  r = Ok [] \/ (exists e, r = Err e) ->
  select_ready_execute w tr1 (lit "sources") notebook_id (if_any source_ids)
    = Ok None
  \/ select_ready_execute w tr1 (lit "sources") notebook_id (if_any source_ids)
     = Ok (Some []) ->
  get_rag_context w notebook_id query source_ids match_count_ tr =
    (tr1 ++ [SelectReady (lit "sources") notebook_id (if_any source_ids)],
     Ok (PTuple [PStr []; PList []; PList []])).
Proof.
  intros Hs Hr Hd. unfold get_rag_context, try_or_return. rewrite Hs.
  assert (E : get_sources_content w notebook_id source_ids tr1 =
              (tr1 ++ [SelectReady (lit "sources") notebook_id
                         (if_any source_ids)],
               Ok (PTuple [PStr []; PList []; PList []]))).
  { unfold get_sources_content, bind, call, lift, ret.
    destruct Hd as [-> | ->]; reflexivity. }
  destruct Hr as [-> | [e ->]]; exact E.
Qed.

(** X21. After a search that found chunks, [get_rag_context] does not
    fall back: it makes one lookup of the distinct source ids, and an
    error of that lookup is raised to the caller. *)
Theorem X21_lookup_error_is_raised (notebook_id query : text)
    (source_ids : option (list text)) (match_count_ : Z)
    (tr tr1 : trace) (c : chunk_row) (cs : list chunk_row) (e : exn) :
  search w rag_service query notebook_id (if_any source_ids) match_count_ tr
    = (tr1, Ok (c :: cs)) ->
  let ids := set_order w (first_appearance (map row_source_id (c :: cs))) in
  select_in_execute w tr1 (lit "sources") ids = Err e ->
  get_rag_context w notebook_id query source_ids match_count_ tr =
    (tr1 ++ [SelectIn (lit "sources") ids], Err e).
Proof.
  intros Hs ids He.
  rewrite (get_rag_context_found w _ _ _ _ _ _ _ _ Hs). cbv zeta.
  fold ids. rewrite He. reflexivity.
Qed.

Lemma render_chunks_parts (sources : dict source_row)
    (chunks : list chunk_row) :
  forall n parts names seen,
    fst (render_chunks w sources (Z.of_nat n) chunks parts names seen) =
      parts ++ map (fun p => chunk_block w sources (Z.of_nat (fst p)) (snd p))
                   (combine (seq n (length chunks)) chunks).
Proof.
  induction chunks as [|c chunks IH]; intros n parts names seen; simpl.
  - rewrite app_nil_r. reflexivity.
  - replace (Z.of_nat n + 1) with (Z.of_nat (S n)) by lia.
    rewrite IH, <- app_assoc. reflexivity.
Qed.

(** X22. After a search that found chunks and a lookup that answered,
    the context [get_rag_context] returns is one block per chunk, in
    the order of the ranked list and joined by blank lines; the block
    of the chunk of rank i starts with "[i] Source: " and the name of
    its source, whether the name was seen before or not. *)
Theorem X22_one_block_per_chunk (notebook_id query : text)
    (source_ids : option (list text)) (match_count_ : Z)
    (tr tr1 : trace) (c : chunk_row) (cs : list chunk_row)
    (data : option (list source_row)) :
  search w rag_service query notebook_id (if_any source_ids) match_count_ tr
    = (tr1, Ok (c :: cs)) ->
  let ids := set_order w (first_appearance (map row_source_id (c :: cs))) in
  select_in_execute w tr1 (lit "sources") ids = Ok data ->
  exists blocks records names,
    get_rag_context w notebook_id query source_ids match_count_ tr =
      (tr1 ++ [SelectIn (lit "sources") ids],
       Ok (PTuple [PStr (join (newline ++ newline) blocks);
                   PList records; PList names]))
    /\ length blocks = length (c :: cs)
    /\ forall i chunk,
         nth_error (c :: cs) i = Some chunk ->
         nth_error blocks i =
           Some (chunk_block w (sources_dict data) (Z.of_nat i + 1) chunk).
Proof.
  intros Hs ids Hd.
  rewrite (get_rag_context_found w _ _ _ _ _ _ _ _ Hs). cbv zeta.
  fold ids. rewrite Hd. fold (sources_dict data).
  eexists _, _, _. split; [reflexivity|].
  change 1 with (Z.of_nat 1).
  rewrite (render_chunks_parts (sources_dict data) (c :: cs) 1 [] [] []).
  rewrite app_nil_l. split.
  - rewrite length_map, length_combine, length_seq. lia.
  - intros i chunk Hi.
    rewrite nth_error_map, (nth_error_combine_seq _ 1%nat i chunk Hi).
    simpl option_map. do 2 f_equal. simpl fst. lia.
Qed.

End ContextProperties.

Section UnknownSources.

Variable w : World.

(** X23. When the lookup of the sources answers without rows, every
    chunk is attributed to "Unknown": [get_rag_context] returns the
    one name "Unknown" and, for every distinct source id of the ranked
    list, the placeholder record of that id. *)
Theorem X23_lookup_without_rows (notebook_id query : text)
    (source_ids : option (list text)) (match_count_ : Z)
    (tr tr1 : trace) (c : chunk_row) (cs : list chunk_row) :
  search w rag_service query notebook_id (if_any source_ids) match_count_ tr
    = (tr1, Ok (c :: cs)) ->
  let ids := set_order w (first_appearance (map row_source_id (c :: cs))) in
  select_in_execute w tr1 (lit "sources") ids = Ok None
  \/ select_in_execute w tr1 (lit "sources") ids = Ok (Some []) ->
  exists context_,
    get_rag_context w notebook_id query source_ids match_count_ tr =
      (tr1 ++ [SelectIn (lit "sources") ids],
       Ok (PTuple [PStr context_;
                   PList (map PRow (map unknown_source ids));
                   PList [PStr (lit "Unknown")]])).
Proof.
  intros Hs ids Hd.
  rewrite (get_rag_context_found w _ _ _ _ _ _ _ _ Hs). cbv zeta.
  fold ids.
  assert (Hnames : snd (render_chunks w [] 1 (c :: cs) [] [] [])
                   = [lit "Unknown"]).
  { rewrite render_chunks_names. rewrite app_nil_l.
    apply (first_appearance_constant (lit "Unknown") c cs). }
  destruct Hd as [-> | ->]; simpl fold_left; cbv beta iota;
    rewrite Hnames; eexists; reflexivity.
Qed.

End UnknownSources.

(** ** The citation and suggestion loops *)

Lemma parse_citations_spec (sources : list source_row) (content_ : text) :
  forall i citations,
    parse_citations i sources content_ = Ok citations ->
    Forall (fun c =>
              i <= cit_number c < i + len sources
              /\ contains (marker (cit_number c)) content_ = true
              /\ (exists source,
                    nth_error sources (Z.to_nat (cit_number c - i))
                      = Some source
                    /\ cit_source_id c = src_id source
                    /\ src_name source = Some (cit_source_name c))
              /\ len (cit_text c) <= 200)
           citations
    /\ StronglySorted Z.lt (map cit_number citations)
    /\ (forall k source,
          nth_error sources k = Some source ->
          contains (marker (i + Z.of_nat k)) content_ = true ->
          In (i + Z.of_nat k) (map cit_number citations)).
Proof.
  induction sources as [|s sources IH]; intros i citations H.
  - injection H as <-. repeat split; try constructor.
    intros [|k] source Hk; simpl in Hk; discriminate Hk.
  - cbn [parse_citations] in H.
    change (lit "[" ++ str_int i ++ lit "]") with (marker i) in H.
    rewrite len_cons.
    assert (Hshift : forall cs,
              Forall (fun c =>
                i + 1 <= cit_number c < i + 1 + len sources
                /\ contains (marker (cit_number c)) content_ = true
                /\ (exists source,
                      nth_error sources (Z.to_nat (cit_number c - (i + 1)))
                        = Some source
                      /\ cit_source_id c = src_id source
                      /\ src_name source = Some (cit_source_name c))
                /\ len (cit_text c) <= 200) cs ->
              Forall (fun c =>
                i < cit_number c
                /\ i <= cit_number c < i + (len sources + 1)
                /\ contains (marker (cit_number c)) content_ = true
                /\ (exists source,
                      nth_error (s :: sources) (Z.to_nat (cit_number c - i))
                        = Some source
                      /\ cit_source_id c = src_id source
                      /\ src_name source = Some (cit_source_name c))
                /\ len (cit_text c) <= 200) cs).
    { intros cs Hcs. eapply Forall_impl; [|exact Hcs].
      intros c [Hb [Hm [[src [Hn Hsrc]] Ht]]].
      split; [lia|]. split; [lia|]. split; [exact Hm|].
      split; [|exact Ht]. exists src. split; [|exact Hsrc].
      replace (Z.to_nat (cit_number c - i))
        with (S (Z.to_nat (cit_number c - (i + 1)))) by lia.
      exact Hn. }
    destruct (contains (marker i) content_) eqn:Em.
    + destruct (src_name s) as [name|] eqn:En; simpl in H; [|discriminate].
      destruct (parse_citations (i + 1) sources content_) as [rest|e] eqn:Er;
        simpl in H; [|discriminate].
      injection H as <-. destruct (IH _ _ Er) as [Hall [Hsorted Hin]].
      apply Hshift in Hall. split; [|split].
      * constructor.
        -- cbn [cit_number cit_source_id cit_source_name cit_text].
           rewrite Z.sub_diag. cbn [Z.to_nat nth_error].
           pose proof (len_nonneg sources).
           split; [lia|]. split; [exact Em|].
           split; [exists s; auto|].
           destruct (non_empty (src_summary s)) as [summary|].
           ++ rewrite slice_to_firstn by lia. unfold len.
              rewrite length_firstn. clear. lia.
           ++ vm_compute. discriminate.
        -- eapply Forall_impl; [|exact Hall]. intros c Hc; apply Hc.
      * simpl map. constructor; [exact Hsorted|].
        apply Forall_map. eapply Forall_impl; [|exact Hall].
        intros c Hc; apply Hc.
      * intros [|k] source Hk Hc; simpl in *.
        -- left. lia.
        -- right. replace (i + Z.pos (Pos.of_succ_nat k))
             with (i + 1 + Z.of_nat k) by lia.
           apply (Hin k source Hk).
           replace (i + 1 + Z.of_nat k)
             with (i + Z.pos (Pos.of_succ_nat k)) by lia.
           exact Hc.
    + destruct (IH _ _ H) as [Hall [Hsorted Hin]].
      apply Hshift in Hall. split; [|split].
      * eapply Forall_impl; [|exact Hall]. intros c Hc; apply Hc.
      * exact Hsorted.
      * intros [|k] source Hk Hc; simpl in *.
        -- rewrite Z.add_0_r in Hc. congruence.
        -- replace (i + Z.pos (Pos.of_succ_nat k))
             with (i + 1 + Z.of_nat k) by lia.
           apply (Hin k source Hk).
           replace (i + 1 + Z.of_nat k)
             with (i + Z.pos (Pos.of_succ_nat k)) by lia.
           exact Hc.
Qed.

(** X24. The citations [send_message] builds are numbered by the
    position of the source in [sources], not by the rank of a chunk:
    the numbers increase, lie between 1 and the number of sources, a
    source is cited exactly when the marker of its position occurs in
    the content, and a citation carries the id and the name of the
    source at that position and at most 200 characters of text.  A
    marker above the number of sources is never cited. *)
Theorem X24_citations_follow_source_positions (sources : list source_row)
    (content_ : text) (citations : list citation) :
  parse_citations 1 sources content_ = Ok citations ->
  StronglySorted Z.lt (map cit_number citations)
  /\ Forall (fun c =>
               1 <= cit_number c <= len sources
               /\ contains (marker (cit_number c)) content_ = true
               /\ (exists source,
                     nth_error sources (Z.to_nat (cit_number c - 1))
                       = Some source
                     /\ cit_source_id c = src_id source
                     /\ src_name source = Some (cit_source_name c))
               /\ len (cit_text c) <= 200)
            citations
  /\ (forall k source,
        nth_error sources k = Some source ->
        contains (marker (Z.of_nat k + 1)) content_ = true ->
        In (Z.of_nat k + 1) (map cit_number citations)).
Proof.
  intros H. destruct (parse_citations_spec _ _ _ _ H) as [Hall [Hsorted Hin]].
  split; [exact Hsorted|]. split.
  - eapply Forall_impl; [|exact Hall]. intros c [Hb Hrest].
    split; [lia | exact Hrest].
  - intros k source Hk Hc. rewrite Z.add_comm. apply (Hin k source Hk).
    rewrite Z.add_comm. exact Hc.
Qed.

Lemma In_lstrip (x : ascii) (s : text) : In x (lstrip s) -> In x s.
Proof.
  destruct (lstrip_split s) as [p [E _]]. intros H. rewrite E.
  apply in_or_app. right. exact H.
Qed.

Lemma In_strip (x : ascii) (s : text) : In x (strip s) -> In x s.
Proof.
  intros H. apply In_lstrip. unfold strip, rstrip in H.
  apply in_rev in H. apply In_lstrip in H. apply in_rev in H. exact H.
Qed.

Lemma In_firstn_In {A} (n : nat) (l : list A) (x : A) :
  In x (firstn n l) -> In x l.
Proof.
  intros H. rewrite <- (firstn_skipn n l). apply in_or_app. left. exact H.
Qed.

(** The pieces of a split on one character do not hold it. *)
Lemma split_go_char_free (c : ascii) (s : text) :
  forall cur, ~ In c cur ->
              Forall (fun p => ~ In c p) (split_go [c] 0 cur s).
Proof.
  induction s as [|a s IH]; intros cur Hcur; simpl.
  - constructor; [|constructor]. intros H. apply in_rev in H. auto.
  - destruct (Ascii.eqb_spec c a) as [->|Hne]; simpl.
    + constructor; [intros H; apply in_rev in H; auto|].
      apply IH. intros [].
    + apply IH. intros [H|H]; [congruence | auto].
Qed.

(** ** The [sources] dict of [get_rag_context] *)

Lemma dict_get_set {V} (k k' : text) (v : V) (d : dict V) :
  dict_get k' (dict_set k v d) =
    if text_eqb k' k then Some v else dict_get k' d.
Proof.
  induction d as [|[k0 v0] d IH]; simpl.
  - reflexivity.
  - destruct (text_eqb k k0) eqn:E0; simpl.
    + apply text_eqb_eq in E0. subst k0.
      destruct (text_eqb k' k); reflexivity.
    + rewrite IH. destruct (text_eqb k' k0) eqn:E1; [|reflexivity].
      apply text_eqb_eq in E1. subst k0.
      destruct (text_eqb k' k) eqn:E2; [|reflexivity].
      apply text_eqb_eq in E2. subst k'.
      assert (text_eqb k k = true) by (apply text_eqb_eq; reflexivity).
      congruence.
Qed.

Lemma find_app_last {A} (p : A -> bool) (l : list A) (a : A) :
  find p (l ++ [a]) =
    match find p l with
    | Some x => Some x
    | None => if p a then Some a else None
    end.
Proof.
  induction l as [|x l IH]; simpl; [reflexivity|].
  destruct (p x); [reflexivity | exact IH].
Qed.

Lemma dict_get_fold_set (sid : text) (rows : list source_row) :
  forall d,
    dict_get sid (fold_left (fun d s => dict_set (src_id s) s d) rows d) =
      match find (fun r => text_eqb sid (src_id r)) (rev rows) with
      | Some r => Some r
      | None => dict_get sid d
      end.
Proof.
  induction rows as [|r rows IH]; intros d; simpl; [reflexivity|].
  rewrite IH, find_app_last, dict_get_set.
  destruct (find _ (rev rows)); [reflexivity|].
  destruct (text_eqb sid (src_id r)); reflexivity.
Qed.

(** X19. Looking an id up in the [sources] dict of [get_rag_context]
    gives the last row the lookup returned with that id, and nothing
    when no row has it: a later row replaces an earlier one of the
    same id, and an id without a row gets the name "Unknown". *)
Theorem X19_sources_dict_last_row_wins (data : option (list source_row))
    (sid : text) :
  let rows := match data with Some l => l | None => [] end in
  dict_get sid (sources_dict data) =
    find (fun r => text_eqb sid (src_id r)) (rev rows)
  /\ ((forall r, In r rows -> src_id r <> sid) ->
      name_in (sources_dict data) sid = lit "Unknown").
Proof.
  intros rows.
  assert (E : dict_get sid (sources_dict data) =
              find (fun r => text_eqb sid (src_id r)) (rev rows)).
  { unfold sources_dict. fold rows. rewrite dict_get_fold_set.
    destruct (find _ (rev rows)); reflexivity. }
  split; [exact E|]. intros Hno. unfold name_in. rewrite E.
  destruct (find _ (rev rows)) as [r|] eqn:Ef; [|reflexivity].
  apply find_some in Ef as [Hin Heq]. apply text_eqb_eq in Heq.
  apply in_rev in Hin. exfalso. apply (Hno r Hin). congruence.
Qed.

(** ** The further properties on concrete inputs *)

Lemma X1_add_overlap_prefixes_witness :
  0 < chunk_overlap chunker_10_3
  /\ (2 <= length [lit "aaaaaaaa"; lit "bbbb"])%nat
  /\ length (_add_overlap chunker_10_3 [lit "aaaaaaaa"; lit "bbbb"]) = 2%nat
  /\ nth 0 (_add_overlap chunker_10_3 [lit "aaaaaaaa"; lit "bbbb"]) []
     = lit "aaaaaaaa"
  /\ nth 1 (_add_overlap chunker_10_3 [lit "aaaaaaaa"; lit "bbbb"]) []
     = lit "aaa bbbb".
Proof.
  assert (H1 : 0 < chunk_overlap chunker_10_3) by (simpl; lia).
  assert (H2 : (2 <= length [lit "aaaaaaaa"; lit "bbbb"])%nat) by (simpl; lia).
  destruct (X1_add_overlap_prefixes chunker_10_3
              [lit "aaaaaaaa"; lit "bbbb"] H1 H2) as [Hl [H0 Hi]].
  split; [exact H1|]. split; [exact H2|]. split; [exact Hl|].
  split; [exact H0|]. exact (Hi 0%nat ltac:(simpl; lia)).
Defined.

Lemma X2_add_overlap_unchanged_witness :
  (length [lit "only"] <= 1)%nat
  /\ _add_overlap chunker_10_3 [lit "only"] = [lit "only"].
Proof.
  assert (H : (length [lit "only"] <= 1)%nat) by (simpl; lia).
  split; [exact H|].
  apply (X2_add_overlap_unchanged chunker_10_3 [lit "only"]). right. exact H.
Defined.

Lemma X3_split_by_size_covers_text_witness :
  0 <= chunk_overlap chunker_4_1 < chunk_size chunker_4_1
  /\ exists slices,
       _split_by_size chunker_4_1 (lit "abcdefghij") = Ok slices
       /\ len slices = 4
       /\ concat (map (firstn 3) slices) = lit "abcdefghij".
Proof.
  assert (H : 0 <= chunk_overlap chunker_4_1 < chunk_size chunker_4_1)
    by (simpl; lia).
  split; [exact H|].
  destruct (X3_split_by_size_covers_text chunker_4_1 (lit "abcdefghij") H)
    as [slices [E [_ [Hlen [Hcat _]]]]].
  exists slices. split; [exact E|]. split; [exact Hlen | exact Hcat].
Defined.

Lemma X4_split_by_size_slices_overlap_witness :
  0 <= chunk_overlap chunker_4_1 < chunk_size chunker_4_1
  /\ _split_by_size chunker_4_1 (lit "abcdefghij")
     = Ok [lit "abcd"; lit "defg"; lit "ghij"; lit "j"]
  /\ skipn 3 (lit "abcd") = firstn 1 (lit "defg").
Proof.
  assert (H : 0 <= chunk_overlap chunker_4_1 < chunk_size chunker_4_1)
    by (simpl; lia).
  assert (E : _split_by_size chunker_4_1 (lit "abcdefghij")
              = Ok [lit "abcd"; lit "defg"; lit "ghij"; lit "j"])
    by (vm_compute; reflexivity).
  split; [exact H|]. split; [exact E|].
  exact (X4_split_by_size_slices_overlap chunker_4_1 (lit "abcdefghij")
           [lit "abcd"; lit "defg"; lit "ghij"; lit "j"] 0%nat
           (lit "abcd") (lit "defg") H E eq_refl eq_refl).
Defined.


Lemma X6_unsplittable_text_raises_witness :
  chunk_overlap chunker_5_5 = chunk_size chunker_5_5
  /\ chunk_size chunker_5_5 < len (strip (lit "abcdefgh"))
  /\ split_text chunker_5_5 (lit "abcdefgh") = Err ValueError.
Proof.
  assert (H0 : 0 <= chunk_size chunker_5_5) by (simpl; lia).
  assert (H1 : chunk_overlap chunker_5_5 = chunk_size chunker_5_5)
    by reflexivity.
  assert (H2 : chunk_size chunker_5_5 < len (strip (lit "abcdefgh")))
    by (vm_compute; reflexivity).
  split; [exact H1|]. split; [exact H2|].
  apply (X6_unsplittable_text_raises chunker_5_5 (lit "abcdefgh") H0 H1 H2).
  repeat constructor; (right; vm_compute; reflexivity) || (left; reflexivity).
Defined.

Lemma X7_unsplittable_text_dropped_witness :
  chunk_size chunker_5_9 < chunk_overlap chunker_5_9
  /\ chunk_size chunker_5_9 < len (strip (lit "abcdefgh"))
  /\ split_text chunker_5_9 (lit "abcdefgh") = Ok [].
Proof.
  assert (H0 : 0 <= chunk_size chunker_5_9) by (simpl; lia).
  assert (H1 : chunk_size chunker_5_9 < chunk_overlap chunker_5_9)
    by (simpl; lia).
  assert (H2 : chunk_size chunker_5_9 < len (strip (lit "abcdefgh")))
    by (vm_compute; reflexivity).
  split; [exact H1|]. split; [exact H2|].
  apply (X7_unsplittable_text_dropped chunker_5_9 (lit "abcdefgh") H0 H1 H2).
  repeat constructor; (right; vm_compute; reflexivity) || (left; reflexivity).
Defined.

Lemma X8_chunk_length_bound_witness :
  0 <= chunk_size chunker_3_1
  /\ split_text chunker_3_1 (lit "ab cd") = Ok ab_cd_chunks
  /\ Forall (fun c => len (content c) <= 3 + 5 * 2) ab_cd_chunks.
Proof.
  assert (H0 : 0 <= chunk_size chunker_3_1) by (simpl; lia).
  assert (E : split_text chunker_3_1 (lit "ab cd") = Ok ab_cd_chunks)
    by (vm_compute; reflexivity).
  split; [exact H0|]. split; [exact E|].
  exact (X8_chunk_length_bound chunker_3_1 (lit "ab cd") ab_cd_chunks H0 E).
Defined.

Lemma X9_short_text_single_chunk_witness :
  separators chunker_10_3
    = (newline ++ newline) :: [newline; lit ". "; lit " "; []]
  /\ len (strip (lit " hello ")) <= chunk_size chunker_10_3
  /\ split_text chunker_10_3 (lit " hello ") =
       Ok [ {| chunk_index := 0; content := lit "hello"; token_count := 1 |} ].
Proof.
  assert (H1 : separators chunker_10_3
               = (newline ++ newline) :: [newline; lit ". "; lit " "; []])
    by reflexivity.
  assert (H2 : len (strip (lit " hello ")) <= chunk_size chunker_10_3)
    by (vm_compute; discriminate).
  split; [exact H1|]. split; [exact H2|].
  apply (X9_short_text_single_chunk chunker_10_3 (lit " hello ")
           (newline ++ newline) [newline; lit ". "; lit " "; []] H1).
  - discriminate.
  - vm_compute. discriminate.
  - vm_compute. reflexivity.
  - exact H2.
Defined.

Lemma X10_chunk_content_stripped_witness :
  split_text chunker_3_1 (lit "ab cd") = Ok ab_cd_chunks
  /\ Forall (fun c => strip (content c) = content c
                      /\ blank (content c) = false
                      /\ len (content c) / 4 <= token_count c)
            ab_cd_chunks.
Proof.
  assert (E : split_text chunker_3_1 (lit "ab cd") = Ok ab_cd_chunks)
    by (vm_compute; reflexivity).
  split; [exact E|].
  exact (X10_chunk_content_stripped chunker_3_1 (lit "ab cd") ab_cd_chunks E).
Defined.

Lemma X11_batch_one_vector_per_text_witness :
  generate_embeddings_batch quiet_world [lit "a"; lit "  "; lit "b"] []
    = ([document_call (lit "a"); document_call (lit "b")],
       Ok [[S754_zero false]; zeros 768; [S754_zero false]])
  /\ nth_error [[S754_zero false]; zeros 768; [S754_zero false]] 1
     = Some (zeros 768).
Proof.
  assert (E : generate_embeddings_batch quiet_world
                [lit "a"; lit "  "; lit "b"] []
              = ([document_call (lit "a"); document_call (lit "b")],
                 Ok [[S754_zero false]; zeros 768; [S754_zero false]]))
    by (vm_compute; reflexivity).
  split; [exact E|].
  destruct (X11_batch_one_vector_per_text quiet_world
              [lit "a"; lit "  "; lit "b"] [] _ _ E) as [_ [_ Hz]].
  exact (Hz 1%nat (lit "  ") eq_refl eq_refl).
Defined.

Lemma X12_batch_stops_at_first_failure_witness :
  generate_embeddings_batch provider_down_world [lit "  "] []
    = ([], Ok [zeros 768])
  /\ generate_embedding provider_down_world (lit "a") []
     = ([document_call (lit "a")], Err (ProviderError 503))
  /\ generate_embeddings_batch provider_down_world
       [lit "  "; lit "a"; lit "b"] []
     = ([document_call (lit "a")], Err (ProviderError 503)).
Proof.
  assert (H1 : generate_embeddings_batch provider_down_world [lit "  "] []
               = ([], Ok [zeros 768])) by (vm_compute; reflexivity).
  assert (H2 : generate_embedding provider_down_world (lit "a") []
               = ([document_call (lit "a")], Err (ProviderError 503)))
    by (vm_compute; reflexivity).
  split; [exact H1|]. split; [exact H2|].
  exact (proj1 (X12_batch_stops_at_first_failure provider_down_world
                  [lit "  "] [lit "b"] (lit "a") [] [] _ _ _ H1 H2)).
Defined.

Lemma X13_nothing_to_ingest_witness :
  blank (lit "   ") = true
  /\ process_source quiet_world rag_service (lit "s1") (lit "   ") []
     = ([], Ok 0).
Proof.
  assert (H : blank (lit "   ") = true) by reflexivity.
  split; [exact H|].
  apply (X13_nothing_to_ingest quiet_world rag_service (lit "s1")
           (lit "   ") []).
  left. exact H.
Defined.

Lemma X14_insert_failure_keeps_earlier_batches_witness :
  split_text (chunker letter_service) letters_120 = Ok chunks_120
  /\ generate_embeddings_batch one_batch_world (map content chunks_120) []
     = (calls_120, Ok embeddings_120)
  /\ snd one_batch_run = Err (StoreError 507)
  /\ exists batches k,
       concat batches
         = map (make_record (lit "s1")) (combine chunks_120 embeddings_120)
       /\ (0 < k <= length batches)%nat
       /\ fst one_batch_run
          = calls_120 ++ map (Insert (lit "source_chunks")) (firstn k batches)
       /\ insert_execute one_batch_world
            (calls_120 ++ map (Insert (lit "source_chunks"))
                            (firstn (k - 1) batches))
            (lit "source_chunks") (nth (k - 1) batches [])
          = Err (StoreError 507).
Proof.
  assert (H1 : split_text (chunker letter_service) letters_120
               = Ok chunks_120) by (vm_compute; reflexivity).
  assert (H2 : chunks_120 <> []) by (vm_compute; discriminate).
  assert (H3 : generate_embeddings_batch one_batch_world
                 (map content chunks_120) [] = (calls_120, Ok embeddings_120))
    by (vm_compute; reflexivity).
  assert (H4 : one_batch_run = (fst one_batch_run, snd one_batch_run))
    by apply surjective_pairing.
  assert (H5 : snd one_batch_run = Err (StoreError 507))
    by (vm_compute; reflexivity).
  split; [exact H1|]. split; [exact H3|]. split; [exact H5|].
  destruct (X14_insert_failure_keeps_earlier_batches one_batch_world
              letter_service (lit "s1") letters_120 chunks_120 embeddings_120
              [] calls_120 (fst one_batch_run) (snd one_batch_run)
              H1 H2 H3 H4)
    as [batches [k [Hcat [Hk [Htr [_ Herr]]]]]].
  destruct (Herr _ H5) as [Hpos Hfail].
  exists batches, k. split; [exact Hcat|]. split; [split; assumption|].
  split; [exact Htr | exact Hfail].
Defined.

Lemma X15_every_chunk_is_embedded_witness :
  split_text chunker_3_1 (lit "ab cd") = Ok ab_cd_chunks
  /\ generate_embeddings_batch quiet_world (map content ab_cd_chunks) []
     = ([document_call (lit "ab"); document_call (lit "b b b b cd")],
        Ok [[S754_zero false]; [S754_zero false]])
  /\ [document_call (lit "ab"); document_call (lit "b b b b cd")]
     = [] ++ map (fun c => document_call (content c)) ab_cd_chunks.
Proof.
  assert (H1 : split_text chunker_3_1 (lit "ab cd") = Ok ab_cd_chunks)
    by (vm_compute; reflexivity).
  assert (H2 : generate_embeddings_batch quiet_world
                 (map content ab_cd_chunks) []
               = ([document_call (lit "ab"); document_call (lit "b b b b cd")],
                  Ok [[S754_zero false]; [S754_zero false]]))
    by (vm_compute; reflexivity).
  split; [exact H1|]. split; [exact H2|].
  exact (proj2 (X15_every_chunk_is_embedded quiet_world chunker_3_1
                  (lit "ab cd") ab_cd_chunks [] _ _ H1 H2)).
Defined.

Lemma X16_blank_query_searches_zero_vector_witness :
  blank (lit "  ") = true
  /\ search quiet_world rag_service (lit "  ") (lit "n1") None 10 []
     = ([Rpc (lit "match_source_chunks")
           {| query_embedding := zeros 768; match_count := 10;
              p_notebook_id := lit "n1"; p_source_ids := None |}],
        Ok []).
Proof.
  assert (H : blank (lit "  ") = true) by reflexivity.
  split; [exact H|].
  exact (X16_blank_query_searches_zero_vector quiet_world rag_service
           (lit "  ") (lit "n1") None 10 [] H).
Defined.

Lemma X17_fallback_context_shape_witness :
  select_ready_execute library_world [] (lit "sources") (lit "n1")
    (if_any None) = Ok (Some [doc_row])
  /\ Forall has_name_and_type [doc_row]
  /\ exists blocks names,
       get_sources_content library_world (lit "n1") None [] =
         ([SelectReady (lit "sources") (lit "n1") None],
          Ok (PTuple [PStr (join newline blocks);
                      PList [PRow doc_row];
                      PList (map PStr names)]))
       /\ map Some names = [Some (lit "Doc")]
       /\ length blocks = 1%nat.
Proof.
  assert (H1 : select_ready_execute library_world [] (lit "sources")
                 (lit "n1") (if_any None) = Ok (Some [doc_row]))
    by reflexivity.
  assert (H2 : Forall has_name_and_type [doc_row])
    by (repeat constructor; discriminate).
  split; [exact H1|]. split; [exact H2|].
  destruct (X17_fallback_context_shape library_world (lit "n1") None []
              (Some [doc_row]) H1 H2) as [blocks [names [E [Hn [Hl _]]]]].
  exists blocks, names. split; [exact E|]. split; [exact Hn | exact Hl].
Defined.

Lemma X18_fallback_missing_key_witness :
  select_ready_execute nameless_world [] (lit "sources") (lit "n1")
    (if_any None) = Ok (Some [doc_row; nameless_row])
  /\ Exists (fun r => ~ has_name_and_type r) [doc_row; nameless_row]
  /\ exists key,
       (key = "name"%string \/ key = "type"%string)
       /\ get_sources_content nameless_world (lit "n1") None [] =
            ([SelectReady (lit "sources") (lit "n1") None],
             Err (KeyError key)).
Proof.
  assert (H1 : select_ready_execute nameless_world [] (lit "sources")
                 (lit "n1") (if_any None) = Ok (Some [doc_row; nameless_row]))
    by reflexivity.
  assert (H2 : Exists (fun r => ~ has_name_and_type r)
                 [doc_row; nameless_row]).
  { apply Exists_cons_tl, Exists_cons_hd. intros [H _]. apply H.
    reflexivity. }
  split; [exact H1|]. split; [exact H2|].
  exact (X18_fallback_missing_key nameless_world (lit "n1") None []
           [doc_row; nameless_row] H1 H2).
Defined.

Lemma X20_nothing_found_nothing_ready_witness :
  search quiet_world rag_service (lit "unrelated query") (lit "n1")
    (if_any None) 5 [] = (library_search_trace, Ok [])
  /\ select_ready_execute quiet_world library_search_trace (lit "sources")
       (lit "n1") (if_any None) = Ok (Some [])
  /\ get_rag_context quiet_world (lit "n1") (lit "unrelated query") None 5 []
     = (library_search_trace ++ [SelectReady (lit "sources") (lit "n1") None],
        Ok (PTuple [PStr []; PList []; PList []])).
Proof.
  assert (H1 : search quiet_world rag_service (lit "unrelated query")
                 (lit "n1") (if_any None) 5 [] = (library_search_trace, Ok []))
    by (vm_compute; reflexivity).
  assert (H2 : select_ready_execute quiet_world library_search_trace
                 (lit "sources") (lit "n1") (if_any None) = Ok (Some []))
    by reflexivity.
  split; [exact H1|]. split; [exact H2|].
  apply (X20_nothing_found_nothing_ready quiet_world (lit "n1")
           (lit "unrelated query") None 5 [] library_search_trace (Ok []) H1).
  - left. reflexivity.
  - right. exact H2.
Defined.

Lemma X21_lookup_error_is_raised_witness :
  search lookup_down_world rag_service (lit "what is beta") (lit "n1")
    (if_any None) 10 [] = (ranked_search_trace, Ok ranked_chunks)
  /\ select_in_execute lookup_down_world ranked_search_trace (lit "sources")
       [lit "b"; lit "a"] = Err (StoreError 503)
  /\ get_rag_context lookup_down_world (lit "n1") (lit "what is beta")
       None 10 []
     = (ranked_search_trace ++ [SelectIn (lit "sources") [lit "b"; lit "a"]],
        Err (StoreError 503)).
Proof.
  assert (H1 : search lookup_down_world rag_service (lit "what is beta")
                 (lit "n1") (if_any None) 10 []
               = (ranked_search_trace, Ok ranked_chunks))
    by (vm_compute; reflexivity).
  assert (H2 : select_in_execute lookup_down_world ranked_search_trace
                 (lit "sources") [lit "b"; lit "a"] = Err (StoreError 503))
    by reflexivity.
  split; [exact H1|]. split; [exact H2|].
  exact (X21_lookup_error_is_raised lookup_down_world (lit "n1")
           (lit "what is beta") None 10 [] ranked_search_trace
           _ _ (StoreError 503) H1 H2).
Defined.

Lemma X22_one_block_per_chunk_witness :
  search ranked_world rag_service (lit "what is beta") (lit "n1")
    (if_any None) 10 [] = (ranked_search_trace, Ok ranked_chunks)
  /\ select_in_execute ranked_world ranked_search_trace (lit "sources")
       [lit "a"; lit "b"] = Ok (Some [row_a; row_b])
  /\ exists blocks records names,
       get_rag_context ranked_world (lit "n1") (lit "what is beta") None 10 []
       = (ranked_search_trace ++ [SelectIn (lit "sources") [lit "a"; lit "b"]],
          Ok (PTuple [PStr (join (newline ++ newline) blocks);
                      PList records; PList names]))
       /\ length blocks = 3%nat
       /\ nth_error blocks 1
          = Some (lit "[2] Source: Alpha (relevance: 0.00)" ++ newline
                  ++ lit "alpha" ++ newline).
Proof.
  assert (H1 : search ranked_world rag_service (lit "what is beta")
                 (lit "n1") (if_any None) 10 []
               = (ranked_search_trace, Ok ranked_chunks))
    by (vm_compute; reflexivity).
  assert (H2 : select_in_execute ranked_world ranked_search_trace
                 (lit "sources") [lit "a"; lit "b"] = Ok (Some [row_a; row_b]))
    by reflexivity.
  split; [exact H1|]. split; [exact H2|].
  destruct (X22_one_block_per_chunk ranked_world (lit "n1")
              (lit "what is beta") None 10 [] ranked_search_trace
              _ _ (Some [row_a; row_b]) H1 H2)
    as [blocks [records [names [E [Hl Hb]]]]].
  exists blocks, records, names. split; [exact E|]. split; [exact Hl|].
  exact (Hb 1%nat _ eq_refl).
Defined.

Lemma X23_lookup_without_rows_witness :
  search orphan_world rag_service (lit "what is beta") (lit "n1")
    (if_any None) 10 [] = (ranked_search_trace, Ok ranked_chunks)
  /\ select_in_execute orphan_world ranked_search_trace (lit "sources")
       [lit "b"; lit "a"] = Ok (Some [])
  /\ exists context_,
       get_rag_context orphan_world (lit "n1") (lit "what is beta") None 10 []
       = (ranked_search_trace ++ [SelectIn (lit "sources") [lit "b"; lit "a"]],
          Ok (PTuple [PStr context_;
                      PList [PRow (unknown_source (lit "b"));
                             PRow (unknown_source (lit "a"))];
                      PList [PStr (lit "Unknown")]])).
Proof.
  assert (H1 : search orphan_world rag_service (lit "what is beta")
                 (lit "n1") (if_any None) 10 []
               = (ranked_search_trace, Ok ranked_chunks))
    by (vm_compute; reflexivity).
  assert (H2 : select_in_execute orphan_world ranked_search_trace
                 (lit "sources") [lit "b"; lit "a"] = Ok (Some []))
    by reflexivity.
  split; [exact H1|]. split; [exact H2|].
  apply (X23_lookup_without_rows orphan_world (lit "n1")
           (lit "what is beta") None 10 [] ranked_search_trace _ _ H1).
  right. exact H2.
Defined.

Lemma X24_citations_follow_source_positions_witness :
  parse_citations 1 [row_a; row_b] (lit "see [2]")
    = Ok [ {| cit_number := 2; cit_source_id := lit "b";
              cit_source_name := lit "Beta"; cit_text := [];
              cit_confidence := float_0_9 |} ]
  /\ In 2 (map cit_number
             [ {| cit_number := 2; cit_source_id := lit "b";
                  cit_source_name := lit "Beta"; cit_text := [];
                  cit_confidence := float_0_9 |} ]).
Proof.
  assert (H : parse_citations 1 [row_a; row_b] (lit "see [2]")
              = Ok [ {| cit_number := 2; cit_source_id := lit "b";
                        cit_source_name := lit "Beta"; cit_text := [];
                        cit_confidence := float_0_9 |} ])
    by (vm_compute; reflexivity).
  split; [exact H|].
  destruct (X24_citations_follow_source_positions [row_a; row_b]
              (lit "see [2]") _ H) as [_ [_ Hin]].
  exact (Hin 1%nat row_b eq_refl eq_refl).
Defined.

(* ================================================================== *)
(** * Provenance of chunks, records written, sources returned *)
(* ================================================================== *)

(** ** Erasing the provenance gives the code *)

Lemma glue_shift d m : glue (shift d m) = glue m.
Proof. reflexivity. Qed.

Lemma map_glue_shift d l : map glue (map (shift d) l) = map glue l.
Proof. rewrite map_map. apply map_ext. intros m. reflexivity. Qed.

Lemma removelast_map {A B} (f : A -> B) (l : list A) :
  removelast (map f l) = map f (removelast l).
Proof.
  induction l as [|a l IH]; [reflexivity|].
  destruct l as [|b l]; [reflexivity|].
  change (f a :: removelast (map f (b :: l)) = f a :: map f (removelast (b :: l))).
  rewrite IH. reflexivity.
Qed.

Lemma last_map {A B} (f : A -> B) (l : list A) (d : A) :
  last (map f l) (f d) = f (last l d).
Proof.
  induction l as [|a l IH]; [reflexivity|].
  destruct l as [|b l]; [reflexivity|].
  change (last (map f (b :: l)) (f d) = f (last (b :: l) d)). exact IH.
Qed.

Lemma _split_by_size_erase self t :
  _split_by_size self t =
    rbind (_split_by_size_pieces self t) (fun ps => Ok (map glue ps)).
Proof.
  unfold _split_by_size, _split_by_size_pieces.
  destruct (py_range _ _ _) as [starts|e]; [|reflexivity]. simpl. f_equal.
  induction starts as [|i starts IH]; [reflexivity|]. simpl.
  destruct (truthy (slice t i (i + chunk_size self))); simpl; rewrite IH;
    reflexivity.
Qed.

Lemma add_overlap_from_erase self chunks :
  forall i prev,
    map glue (add_overlap_from_pieces self i prev chunks)
    = add_overlap_from self i prev (map glue chunks).
Proof.
  induction chunks as [|c chunks IH]; intros i prev; [reflexivity|].
  simpl. rewrite IH. f_equal.
  destruct ((0 <? i) && (0 <? chunk_overlap self)); [|reflexivity].
  unfold glue. simpl. rewrite <- !app_assoc. reflexivity.
Qed.

Lemma _add_overlap_erase self chunks :
  map glue (_add_overlap_pieces self chunks) = _add_overlap self (map glue chunks).
Proof.
  unfold _add_overlap_pieces, _add_overlap.
  replace (len (map glue chunks)) with (len chunks)
    by (unfold len; rewrite length_map; reflexivity).
  destruct (len chunks <=? 1); [reflexivity|]. apply add_overlap_from_erase.
Qed.

Lemma merge_splits_erase self (recurse : text -> result (list text))
    (recurse_p : text -> result (list piece)) (separator : text) :
  (forall x, recurse x = rbind (recurse_p x) (fun ps => Ok (map glue ps))) ->
  forall splits pos chunks current,
    merge_splits self recurse separator splits (map glue chunks) (glue current)
    = rbind (merge_splits_pieces self recurse_p separator pos splits
               chunks current)
            (fun '(cs, c) => Ok (map glue cs, glue c)).
Proof.
  intros Hrec. induction splits as [|x rest IH]; intros pos chunks current.
  - reflexivity.
  - cbn [merge_splits merge_splits_pieces]. cbv zeta.
    set (pot := if truthy (glue current)
                then {| origin := origin current; injected := injected current;
                        own := own current ++ separator ++ x |}
                else {| origin := pos; injected := []; own := x |}).
    assert (Hpot : (if truthy (glue current)
                    then glue current ++ separator ++ x else x) = glue pot).
    { unfold pot. destruct (truthy (glue current)); [|reflexivity].
      unfold glue. simpl. rewrite <- app_assoc. reflexivity. }
    rewrite Hpot.
    destruct (len (glue pot) <=? chunk_size self); [apply IH|].
    assert (Hch : (if truthy (glue current)
                   then map glue chunks ++ [glue current] else map glue chunks)
                  = map glue (if truthy (glue current)
                              then chunks ++ [current] else chunks)).
    { destruct (truthy (glue current)); [|reflexivity].
      rewrite map_app. reflexivity. }
    rewrite Hch.
    destruct (chunk_size self <? len x).
    + rewrite Hrec. destruct (recurse_p x) as [subs|e]; [|reflexivity].
      simpl rbind.
      rewrite <- (map_glue_shift pos subs), removelast_map, <- map_app.
      change (@nil ascii) with (glue empty_piece).
      rewrite last_map. apply IH.
    + apply (IH _ _ {| origin := pos; injected := []; own := x |}).
Qed.

Lemma _recursive_split_erase self separators :
  forall t,
    _recursive_split self separators t =
      rbind (_recursive_split_pieces self separators t)
            (fun ps => Ok (map glue ps)).
Proof.
  induction separators as [|sep rest IH]; intros t.
  - apply _split_by_size_erase.
  - cbn [_recursive_split _recursive_split_pieces].
    destruct (truthy sep); [|apply _split_by_size_erase].
    unfold merged, merged_pieces.
    change (merge_splits self (_recursive_split self rest) sep (split t sep)
              [] [])
      with (merge_splits self (_recursive_split self rest) sep (split t sep)
              (map glue []) (glue empty_piece)).
    rewrite (merge_splits_erase self _ _ sep IH (split t sep) 0 [] empty_piece).
    destruct (merge_splits_pieces _ _ _ _ _ _ _) as [[cs c]|e]; [|reflexivity].
    simpl rbind. rewrite _add_overlap_erase. do 2 f_equal.
    destruct (truthy (glue c)); [|reflexivity].
    rewrite map_app. reflexivity.
Qed.

(** ** What the parts of a chunk are *)

Lemma overlap_blocks_nil self n : overlap_blocks self n [].
Proof. exists []. repeat split; auto. simpl; lia. Qed.

Lemma overlap_blocks_mono self n n' s :
  (n <= n')%nat -> overlap_blocks self n s -> overlap_blocks self n' s.
Proof.
  intros Hn [tails [E [Hl [Hall H0]]]]. exists tails. repeat split; auto. lia.
Qed.

Lemma traced_mono self n n' t m :
  (n <= n')%nat -> traced self n t m -> traced self n' t m.
Proof.
  intros Hn [Hs [Hb Ho]]. repeat split; auto; try apply Hs.
  eapply overlap_blocks_mono; eauto.
Qed.

Lemma traced_truthy self n t m : traced self n t m -> truthy (glue m) = true.
Proof.
  intros [[_ [Hne _]] _]. unfold glue.
  destruct (injected m); [|reflexivity]. simpl.
  destruct (own m); [congruence | reflexivity].
Qed.

Lemma sorted_app (l1 l2 : list Z) (p : Z) :
  StronglySorted Z.lt l1 -> StronglySorted Z.lt l2 ->
  Forall (fun a => a < p) l1 -> Forall (fun b => p <= b) l2 ->
  StronglySorted Z.lt (l1 ++ l2).
Proof.
  intros H1 H2 Hlt Hge. induction H1 as [|a l1 Hs IH Ha]; [exact H2|].
  simpl. inversion Hlt; subst. constructor; [apply IH; assumption|].
  apply Forall_app. split; [exact Ha|].
  eapply Forall_impl; [|exact Hge]. intros b Hb. simpl in Hb. lia.
Qed.

Lemma sorted_filter (f : Z -> bool) (l : list Z) :
  StronglySorted Z.lt l -> StronglySorted Z.lt (filter f l).
Proof.
  induction 1 as [|a l Hs IH Ha]; simpl; [constructor|].
  destruct (f a); [|exact IH]. constructor; [exact IH|].
  apply Forall_forall. intros x Hx. apply filter_In in Hx as [Hx _].
  rewrite Forall_forall in Ha. auto.
Qed.

Lemma sorted_multiples (step : Z) (cnt : nat) :
  0 < step ->
  forall a, StronglySorted Z.lt
              (map (fun k => 0 + Z.of_nat k * step) (seq a cnt)).
Proof.
  intros Hs. induction cnt as [|cnt IH]; intros a; simpl; constructor.
  - apply IH.
  - apply Forall_forall. intros x Hx. apply in_map_iff in Hx as [k [<- Hk]].
    apply in_seq in Hk. nia.
Qed.

Lemma py_range_from_zero (n step : Z) (starts : list Z) :
  0 <= n -> py_range 0 n step = Ok starts ->
  StronglySorted Z.lt starts /\ Forall (fun i => 0 <= i < n) starts.
Proof.
  intros Hn H. unfold py_range in H.
  destruct (step =? 0) eqn:E0; [discriminate|]. apply Z.eqb_neq in E0.
  injection H as <-. unfold range_len.
  destruct (0 <? step) eqn:Es.
  - apply Z.ltb_lt in Es. split; [apply sorted_multiples; exact Es|].
    destruct (0 <? n) eqn:En; [|constructor]. apply Z.ltb_lt in En.
    apply Forall_forall. intros x Hx. apply in_map_iff in Hx as [k [<- Hk]].
    apply in_seq in Hk.
    assert (Hq : 0 <= (n - 0 - 1) / step) by (apply Z.div_pos; lia).
    assert (Hk' : Z.of_nat k <= (n - 0 - 1) / step) by lia.
    pose proof (Z.mul_div_le (n - 0 - 1) step Es). nia.
  - replace (n <? 0) with false by (symmetry; apply Z.ltb_ge; lia).
    split; constructor.
Qed.

Lemma hd_error_firstn {A} (n : nat) (l : list A) :
  firstn n l <> [] -> hd_error (firstn n l) = hd_error l.
Proof. destruct n, l; simpl; congruence. Qed.

Lemma _split_by_size_pieces_traced self (t : text) (ps : list piece) :
  _split_by_size_pieces self t = Ok ps ->
  Forall (traced self 0 t) ps /\ StronglySorted Z.lt (map origin ps).
Proof.
  unfold _split_by_size_pieces. intros H.
  destruct (py_range _ _ _) as [starts|e] eqn:Er; [|discriminate].
  injection H as <-.
  destruct (py_range_from_zero _ _ _ (len_nonneg t) Er) as [Hsorted Hrange].
  split.
  - apply Forall_forall. intros m Hm. apply filter_In in Hm as [Hm Hne].
    apply in_map_iff in Hm as [i [<- Hi]]. rewrite Forall_forall in Hrange.
    specialize (Hrange i Hi). simpl in Hne. apply truthy_true in Hne.
    split; [|split].
    + split; [simpl; lia|]. split; [exact Hne|]. simpl.
      unfold slice in Hne |- *. cbv zeta in Hne |- *.
      assert (Ha : clamp (len t) i = i).
      { unfold clamp. replace (i <? 0) with false
          by (symmetry; apply Z.ltb_ge; lia). lia. }
      rewrite Ha in Hne |- *. rewrite hd_error_firstn by exact Hne.
      symmetry. apply hd_error_skipn.
    + intros HC. simpl. apply len_slice_le. exact HC.
    + apply overlap_blocks_nil.
  - assert (E : map origin
                  (filter (fun m => truthy (own m))
                     (map (fun i => {| origin := i; injected := [];
                                       own := slice t i (i + chunk_size self) |})
                          starts))
                = filter (fun i => truthy (slice t i (i + chunk_size self)))
                    starts).
    { clear. induction starts as [|i starts IH]; [reflexivity|]. simpl.
      destruct (truthy _); simpl; rewrite IH; reflexivity. }
    rewrite E. apply sorted_filter. exact Hsorted.
Qed.

Lemma add_overlap_from_pieces_traced self n t (chunks : list piece) :
  Forall (traced self n t) chunks ->
  forall i prev,
    Forall (traced self (S n) t) (add_overlap_from_pieces self i prev chunks)
    /\ map origin (add_overlap_from_pieces self i prev chunks)
       = map origin chunks.
Proof.
  induction 1 as [|m chunks Hm _ IH]; intros i prev; simpl.
  - split; [constructor | reflexivity].
  - destruct (IH (i + 1) (glue m)) as [IH1 IH2]. split.
    + constructor; [|exact IH1].
      destruct ((0 <? i) && (0 <? chunk_overlap self)) eqn:E.
      * apply andb_prop in E as [_ HO]. apply Z.ltb_lt in HO.
        destruct Hm as [Hs [Hb [tails [Ei [Hl [Hall H0]]]]]].
        split; [exact Hs|]. split; [exact Hb|]. cbn [injected].
        exists (overlap_text self prev :: tails). split; [|split; [|split]].
        -- rewrite Ei. cbn [map concat]. rewrite <- app_assoc. reflexivity.
        -- simpl. lia.
        -- constructor; [|exact Hall].
           rewrite (proj2 (overlap_text_spec self prev HO)). lia.
        -- intros H. lia.
      * eapply traced_mono; [|exact Hm]. lia.
    + rewrite IH2.
      destruct ((0 <? i) && (0 <? chunk_overlap self)); reflexivity.
Qed.

Lemma _add_overlap_pieces_traced self n t (chunks : list piece) :
  Forall (traced self n t) chunks ->
  Forall (traced self (S n) t) (_add_overlap_pieces self chunks)
  /\ map origin (_add_overlap_pieces self chunks) = map origin chunks.
Proof.
  intros H. unfold _add_overlap_pieces. destruct (len chunks <=? 1).
  - split; [|reflexivity]. eapply Forall_impl; [|exact H].
    intros m Hm. eapply traced_mono; [|exact Hm]. lia.
  - apply add_overlap_from_pieces_traced. exact H.
Qed.

Lemma live_falsy chunks current :
  truthy (glue current) = false -> live chunks current = chunks.
Proof. unfold live. intros ->. reflexivity. Qed.

Lemma live_truthy chunks current :
  truthy (glue current) = true -> live chunks current = chunks ++ [current].
Proof. unfold live. intros ->. reflexivity. Qed.

(** The piece the loop starts at offset [pos] from the split [x]. *)
Lemma fresh_piece self n t (pos next : Z) (x tail : text)
    (chunks : list piece) :
  0 <= pos -> skipn (Z.to_nat pos) t = x ++ tail ->
  pos + len x <= next ->
  (0 <= chunk_size self -> len x <= chunk_size self) ->
  Forall (traced self n t) chunks ->
  StronglySorted Z.lt (map origin chunks) ->
  Forall (fun m => origin m < pos) chunks ->
  let fresh := {| origin := pos; injected := []; own := x |} in
  Forall (traced self n t) (live chunks fresh)
  /\ StronglySorted Z.lt (map origin (live chunks fresh))
  /\ Forall (fun m => origin m < next) (live chunks fresh).
Proof.
  intros Hpos Hskip Hnext Hfit Hall Hsorted Hlt fresh.
  pose proof (len_nonneg x) as Hx.
  assert (Hlt' : Forall (fun m => origin m < next) chunks).
  { eapply Forall_impl; [|exact Hlt]. intros m Hm; simpl in *; lia. }
  destruct x as [|c x].
  - rewrite live_falsy by reflexivity. repeat split; auto.
  - rewrite live_truthy by reflexivity. split; [|split].
    + apply Forall_app. split; [exact Hall|]. constructor; [|constructor].
      split; [|split].
      * split; [exact Hpos|]. split; [discriminate|]. cbn [origin own fresh].
        rewrite <- hd_error_skipn, Hskip. reflexivity.
      * exact Hfit.
      * apply overlap_blocks_nil.
    + rewrite map_app. apply (sorted_app _ _ pos); auto.
      * repeat constructor.
      * rewrite Forall_map. exact Hlt.
      * repeat constructor. simpl. lia.
    + apply Forall_app. split; [exact Hlt'|].
      repeat constructor. cbn [origin fresh]. rewrite len_cons in Hnext.
      pose proof (len_nonneg x). lia.
Qed.

Lemma skipn_length_app {A} (a b : list A) : skipn (length a) (a ++ b) = b.
Proof. induction a; simpl; auto. Qed.

Lemma traced_shift self n t (pos : Z) (x tail : text) (m : piece) :
  0 <= pos -> skipn (Z.to_nat pos) t = x ++ tail ->
  traced self n x m ->
  traced self n t (shift pos m)
  /\ pos <= origin (shift pos m) < pos + len x.
Proof.
  intros Hpos Hskip [[Ho [Hne Hhd]] [Hb Hblocks]].
  assert (Hlt : (Z.to_nat (origin m) < length x)%nat).
  { apply nth_error_Some. rewrite Hhd. destruct (own m); [congruence|].
    discriminate. }
  split.
  - split; [|split; [exact Hb | exact Hblocks]].
    split; [simpl; lia|]. split; [exact Hne|]. cbn [shift origin own].
    replace (Z.to_nat (pos + origin m))
      with (Z.to_nat pos + Z.to_nat (origin m))%nat by lia.
    rewrite <- nth_error_skipn, Hskip, nth_error_app1 by exact Hlt.
    exact Hhd.
  - cbn [shift origin]. unfold len. lia.
Qed.

Lemma sorted_shift (d : Z) (l : list piece) :
  StronglySorted Z.lt (map origin l) ->
  StronglySorted Z.lt (map origin (map (shift d) l)).
Proof.
  induction l as [|m l IH]; simpl; intros H; [constructor|].
  inversion H as [|? ? Hs Ha]; subst. constructor; [apply IH; exact Hs|].
  rewrite Forall_map in Ha |- *. rewrite Forall_map.
  eapply Forall_impl; [|exact Ha]. intros m' Hm'. unfold shift. simpl in *. lia.
Qed.

(** The sub-chunks of a split that was too long, moved to its offset. *)
Lemma sub_pieces self n t (pos next : Z) (x tail : text)
    (chunks subs : list piece) :
  0 <= pos -> skipn (Z.to_nat pos) t = x ++ tail ->
  pos + len x <= next ->
  Forall (traced self n x) subs -> StronglySorted Z.lt (map origin subs) ->
  Forall (traced self n t) chunks ->
  StronglySorted Z.lt (map origin chunks) ->
  Forall (fun m => origin m < pos) chunks ->
  let sub_chunks := map (shift pos) subs in
  let out := live (chunks ++ removelast sub_chunks)
                  (last sub_chunks empty_piece) in
  Forall (traced self n t) out
  /\ StronglySorted Z.lt (map origin out)
  /\ Forall (fun m => origin m < next) out.
Proof.
  intros Hpos Hskip Hnext Hsubs Hssorted Hall Hsorted Hlt sub_chunks out.
  assert (Hlt' : Forall (fun m => origin m < next) chunks).
  { pose proof (len_nonneg x).
    eapply Forall_impl; [|exact Hlt]. intros m Hm; simpl in *; lia. }
  assert (Hsh : Forall (fun m => traced self n t m
                                 /\ pos <= origin m < pos + len x) sub_chunks).
  { unfold sub_chunks. rewrite Forall_map.
    eapply Forall_impl; [|exact Hsubs]. intros m Hm.
    eapply traced_shift; eauto. }
  assert (Hss : StronglySorted Z.lt (map origin sub_chunks))
    by (apply sorted_shift; exact Hssorted).
  clearbody sub_chunks.
  assert (Hout : out = chunks ++ sub_chunks).
  { unfold out. destruct sub_chunks as [|s0 sl].
    - unfold live. simpl. rewrite !app_nil_r. reflexivity.
    - destruct (exists_last (l := s0 :: sl) ltac:(discriminate))
        as [init [z E]].
      rewrite E in Hsh |- *. apply Forall_app in Hsh as [_ Hz].
      inversion Hz as [|? ? [Hz' _] _]; subst.
      rewrite removelast_last, last_last.
      rewrite live_truthy by (eapply traced_truthy; exact Hz').
      rewrite <- app_assoc. reflexivity. }
  rewrite Hout. split; [|split].
  - apply Forall_app. split; [exact Hall|].
    eapply Forall_impl; [|exact Hsh]. intros m Hm; apply Hm.
  - rewrite map_app. apply (sorted_app _ _ pos); auto.
    + rewrite Forall_map. exact Hlt.
    + rewrite Forall_map. eapply Forall_impl; [|exact Hsh].
      intros m Hm. simpl in *. lia.
  - apply Forall_app. split; [exact Hlt'|].
    eapply Forall_impl; [|exact Hsh]. intros m Hm. simpl in *. lia.
Qed.

Lemma merge_splits_pieces_traced self
    (recurse : text -> result (list piece)) (separator : text) (n : nat)
    (t : text) :
  (forall x subs, recurse x = Ok subs ->
     Forall (traced self n x) subs /\ StronglySorted Z.lt (map origin subs)) ->
  forall splits pos chunks current out_chunks out_current,
    0 <= pos ->
    (splits <> [] -> skipn (Z.to_nat pos) t = join separator splits) ->
    Forall (traced self n t) (live chunks current) ->
    StronglySorted Z.lt (map origin (live chunks current)) ->
    Forall (fun m => origin m < pos) (live chunks current) ->
    merge_splits_pieces self recurse separator pos splits chunks current
      = Ok (out_chunks, out_current) ->
    Forall (traced self n t) (live out_chunks out_current)
    /\ StronglySorted Z.lt (map origin (live out_chunks out_current)).
Proof.
  intros Hrec.
  induction splits as [|x rest IH];
    intros pos chunks current out_chunks out_current Hpos Hskip Hall Hsorted
           Hlt H.
  - injection H as <- <-. split; assumption.
  - cbn [merge_splits_pieces] in H. cbv zeta in H.
    pose proof (len_nonneg x) as Hx. pose proof (len_nonneg separator) as Hsep.
    set (next := pos + len x + len separator) in *.
    assert (Hhere : exists tail, skipn (Z.to_nat pos) t = x ++ tail).
    { rewrite Hskip by discriminate. destruct rest as [|y rest].
      - exists []. rewrite app_nil_r. reflexivity.
      - eexists. apply join_cons. discriminate. }
    destruct Hhere as [tail Hhere].
    assert (Hnext : rest <> [] ->
                    skipn (Z.to_nat next) t = join separator rest).
    { intros Hne.
      replace (Z.to_nat next)
        with (length (x ++ separator) + Z.to_nat pos)%nat
        by (unfold next, len; rewrite length_app; lia).
      rewrite <- skipn_skipn, Hskip by discriminate.
      rewrite (join_cons separator x rest Hne), app_assoc.
      apply skipn_length_app. }
    assert (Hnext0 : 0 <= next) by (unfold next; lia).
    assert (Hnextx : pos + len x <= next) by (unfold next; lia).
    fold (live chunks current) in H.
    destruct (truthy (glue current)) eqn:Ec.
    + (* a chunk is being accumulated *)
      set (pot := {| origin := origin current; injected := injected current;
                     own := own current ++ separator ++ x |}) in *.
      destruct (len (glue pot) <=? chunk_size self) eqn:Efit.
      * apply Z.leb_le in Efit.
        rewrite (live_truthy _ _ Ec) in Hall, Hsorted, Hlt.
        apply Forall_app in Hall as [Hall Hcur].
        inversion Hcur as [|? ? [[Ho [Hne Hhd]] [Hb Hblocks]] _]; subst.
        assert (Hpot : truthy (glue pot) = true).
        { unfold glue, pot. simpl. destruct (injected current); simpl;
            [|reflexivity].
          destruct (own current); [congruence | reflexivity]. }
        apply (IH next chunks pot out_chunks out_current Hnext0 Hnext);
          [| | |exact H]; rewrite (live_truthy _ _ Hpot).
        -- apply Forall_app. split; [exact Hall|].
           constructor; [|constructor]. split; [|split].
           ++ split; [exact Ho|]. unfold pot. cbn [origin own].
              split.
              ** destruct (own current); [congruence | discriminate].
              ** rewrite Hhd. destruct (own current); [congruence|].
                 reflexivity.
           ++ intros _. unfold glue in Efit. rewrite len_app in Efit.
              pose proof (len_nonneg (injected pot)). lia.
           ++ exact Hblocks.
        -- rewrite map_app in Hsorted |- *. exact Hsorted.
        -- apply Forall_app in Hlt as [Hlt Hc]. apply Forall_app. split.
           ++ eapply Forall_impl; [|exact Hlt]. intros m Hm. simpl in *. lia.
           ++ inversion Hc; subst. repeat constructor. unfold pot. simpl.
              lia.
      * destruct (chunk_size self <? len x) eqn:Ebig.
        -- destruct (recurse x) as [subs|e] eqn:Er; [|discriminate].
           cbn [rbind] in H. destruct (Hrec x subs Er) as [Hsubs Hssorted].
           destruct (sub_pieces self n t pos next x tail
                       (live chunks current) subs Hpos Hhere Hnextx
                       Hsubs Hssorted Hall Hsorted Hlt) as [H1 [H2 H3]].
           exact (IH next _ _ _ _ Hnext0 Hnext H1 H2 H3 H).
        -- apply Z.ltb_ge in Ebig.
           destruct (fresh_piece self n t pos next x tail
                       (live chunks current) Hpos Hhere Hnextx
                       (fun _ => Ebig) Hall Hsorted Hlt) as [H1 [H2 H3]].
           exact (IH next _ _ _ _ Hnext0 Hnext H1 H2 H3 H).
    + (* no chunk is being accumulated *)
      destruct (len (glue {| origin := pos; injected := []; own := x |})
                <=? chunk_size self) eqn:Efit.
      * apply Z.leb_le in Efit. unfold glue in Efit. simpl in Efit.
        rewrite (live_falsy _ _ Ec) in Hall, Hsorted, Hlt.
        destruct (fresh_piece self n t pos next x tail chunks Hpos Hhere
                    Hnextx (fun _ => Efit) Hall Hsorted Hlt) as [H1 [H2 H3]].
        exact (IH next _ _ _ _ Hnext0 Hnext H1 H2 H3 H).
      * destruct (chunk_size self <? len x) eqn:Ebig.
        -- destruct (recurse x) as [subs|e] eqn:Er; [|discriminate].
           cbn [rbind] in H. destruct (Hrec x subs Er) as [Hsubs Hssorted].
           destruct (sub_pieces self n t pos next x tail
                       (live chunks current) subs Hpos Hhere Hnextx
                       Hsubs Hssorted Hall Hsorted Hlt) as [H1 [H2 H3]].
           exact (IH next _ _ _ _ Hnext0 Hnext H1 H2 H3 H).
        -- apply Z.ltb_ge in Ebig.
           destruct (fresh_piece self n t pos next x tail
                       (live chunks current) Hpos Hhere Hnextx
                       (fun _ => Ebig) Hall Hsorted Hlt) as [H1 [H2 H3]].
           exact (IH next _ _ _ _ Hnext0 Hnext H1 H2 H3 H).
Qed.

(** What the pieces of [_recursive_split] are. *)
Lemma _recursive_split_pieces_traced self (separators : list text) :
  forall t pieces,
    _recursive_split_pieces self separators t = Ok pieces ->
    Forall (traced self (length separators) t) pieces
    /\ StronglySorted Z.lt (map origin pieces).
Proof.
  induction separators as [|sep rest IH]; intros t pieces H.
  - apply _split_by_size_pieces_traced. exact H.
  - cbn [_recursive_split_pieces] in H.
    destruct (truthy sep) eqn:Esep.
    2:{ destruct (_split_by_size_pieces_traced self t pieces H) as [H1 H2].
        split; [|exact H2]. eapply Forall_impl; [|exact H1].
        intros m Hm. eapply traced_mono; [|exact Hm]. lia. }
    apply truthy_true in Esep. unfold merged_pieces in H.
    destruct (merge_splits_pieces _ _ _ _ _ _ _) as [[chunks current]|e] eqn:Em;
      [|discriminate].
    cbn [rbind] in H. injection H as <-.
    fold (live chunks current).
    destruct (merge_splits_pieces_traced self _ sep (length rest) t IH
                (split t sep) 0 [] empty_piece chunks current) as [H1 H2];
      try (constructor; fail); try exact Em; try lia.
    { intros _. simpl. symmetry. apply join_split. exact Esep. }
    destruct (_add_overlap_pieces_traced self _ t _ H1) as [H3 H4].
    split; [exact H3|]. rewrite H4. exact H2.
Qed.

Lemma split_text_pieces (self : TextChunker) (t : text) (chunks : list Chunk) :
  split_text self t = Ok chunks ->
  exists pieces,
    (blank t = true /\ pieces = [] \/
     blank t = false /\
     _recursive_split_pieces self (separators self) (strip t) = Ok pieces /\
     _recursive_split self (separators self) (strip t) = Ok (map glue pieces))
    /\ chunks = collect 0 (map glue pieces).
Proof.
  unfold split_text. rewrite blank_test. intros H. destruct (blank t).
  - injection H as <-. exists []. split; [left; auto | reflexivity].
  - cbv zeta in H. rewrite _recursive_split_erase in H.
    destruct (_recursive_split_pieces self (separators self) (strip t))
      as [pieces|e] eqn:E; [|discriminate].
    cbn [rbind] in H. injection H as <-. exists pieces.
    split; [|reflexivity]. right. split; [reflexivity|].
    split; [reflexivity|]. rewrite _recursive_split_erase, E. reflexivity.
Qed.

Lemma nth_map_glue (pieces : list piece) (k : nat) :
  (k < length pieces)%nat ->
  exists m, nth_error pieces k = Some m /\ nth k (map glue pieces) [] = glue m.
Proof.
  intros Hk. destruct (nth_error pieces k) as [m|] eqn:E.
  - exists m. split; [reflexivity|].
    change (@nil ascii) with (glue empty_piece). rewrite map_nth.
    f_equal. apply nth_error_nth. exact E.
  - apply nth_error_None in E. lia.
Qed.




(** C2. With [0 <= chunk_overlap < chunk_size], [split_text] returns
    chunks for every text, and no chunk's content before overlap
    injection exceeds [chunk_size]: the content of a chunk is the
    stripped string of its segment, the segment is the text that
    [_add_overlap] injected followed by the chunk's own content, and
    the own content is not empty and has at most [chunk_size]
    characters.  What was injected is at most one block per separator
    level, each block a tail of at most [chunk_overlap] characters and
    a space, and nothing when [chunk_overlap = 0].  The slices of the
    fixed-stride fallback have at most [chunk_size] characters too. *)
Theorem C2_own_content_fits (self : TextChunker) (t : text) :
  0 <= chunk_overlap self < chunk_size self ->
  exists chunks pieces,
    split_text self t = Ok chunks
    /\ (blank t = true /\ pieces = [] \/
        blank t = false /\
        _recursive_split_pieces self (separators self) (strip t) = Ok pieces /\
        _recursive_split self (separators self) (strip t)
          = Ok (map glue pieces))
    /\ Forall (fun c =>
                 exists m,
                   nth_error pieces (Z.to_nat (chunk_index c)) = Some m
                   /\ content c = strip (injected m ++ own m))
              chunks
    /\ Forall (fun m =>
                 len (own m) <= chunk_size self
                 /\ own m <> []
                 /\ overlap_blocks self (length (separators self))
                      (injected m)
                 /\ (chunk_overlap self = 0 -> injected m = []))
              pieces
    /\ (forall x slices,
          _split_by_size self x = Ok slices ->
          Forall (fun s => len s <= chunk_size self) slices).
Proof.
  intros HO.
  assert (Hret : exists chunks, split_text self t = Ok chunks).
  { unfold split_text.
    destruct (negb (truthy t) || negb (truthy (strip t)));
      [eexists; reflexivity|].
    destruct (_recursive_split_total self (separators self)
                ltac:(lia) (strip t)) as [segments ->].
    eexists; reflexivity. }
  destruct Hret as [chunks H]. exists chunks.
  destruct (split_text_pieces self t chunks H) as [pieces [Hp E]].
  exists pieces. split; [exact H|]. split; [exact Hp|]. split; [|split].
  - subst chunks.
    destruct (collect_spec (map glue pieces) 0) as [Hall _].
    eapply Forall_impl; [|exact Hall]. intros c [Hi [Hc _]].
    rewrite Z.sub_0_r in Hc. unfold len in Hi. rewrite length_map in Hi.
    destruct (nth_map_glue pieces (Z.to_nat (chunk_index c)) ltac:(lia))
      as [m [Em Eg]].
    exists m. split; [exact Em|]. rewrite Hc, Eg. reflexivity.
  - destruct Hp as [[_ ->]|[_ [Hp _]]]; [constructor|].
    destruct (_recursive_split_pieces_traced self _ _ _ Hp) as [H1 _].
    eapply Forall_impl; [|exact H1].
    intros m [[_ [Hne _]] [Hb Hblocks]].
    split; [apply Hb; lia|]. split; [exact Hne|]. split; [exact Hblocks|].
    intros H0. destruct Hblocks as [tails [-> [_ [_ Hnil]]]].
    rewrite Hnil by lia. reflexivity.
  - intros x slices Hx. apply (_split_by_size_bound self x slices);
      [lia | exact Hx].
Qed.

(** ** The records [process_source] writes *)

Section IngestRecords.

Variable w : World.

(** The vector of a text that is not blank is the provider's answer to
    the call made for it. *)
Lemma generate_embeddings_batch_answers (texts : list text) :
  forall tr tr' vs,
    generate_embeddings_batch w texts tr = (tr', Ok vs) ->
    Forall (fun t => blank t = false) texts ->
    forall k t,
      nth_error texts k = Some t ->
      exists v,
        nth_error vs k = Some v
        /\ embed_content w (tr ++ map document_call (firstn k texts))
             MODEL_NAME (slice_to t 10000) (lit "retrieval_document") = Ok v.
Proof.
  unfold generate_embeddings_batch.
  induction texts as [|a texts IH]; intros tr tr' vs H Hnb k t Hk.
  - destruct k; discriminate.
  - inversion Hnb as [|? ? Ha Hnb']; subst.
    simpl in H. unfold bind at 1 in H. rewrite generate_embedding_run, Ha in H.
    destruct (embed_content w tr _ _ _) as [v|e] eqn:Ev; [|discriminate].
    unfold bind at 1 in H.
    destruct (mapM (generate_embedding w) texts (tr ++ [document_call a]))
      as [tr2 [vs2|e]] eqn:E2; [|discriminate].
    injection H as <- <-. destruct k as [|k].
    + simpl in Hk. injection Hk as <-. exists v. simpl. rewrite app_nil_r.
      split; [reflexivity | exact Ev].
    + simpl in Hk. destruct (IH _ _ _ E2 Hnb' k t Hk) as [v' [Hv' Hans]].
      exists v'. split; [exact Hv'|]. simpl firstn. simpl map.
      rewrite <- app_assoc in Hans. exact Hans.
Qed.

Lemma records_fields (source_id : text) (cs : list Chunk) :
  forall es : list EmbeddingVector,
    length es = length cs ->
    let records := map (make_record source_id) (combine cs es) in
    map rec_source_id records = map (fun _ => source_id) cs
    /\ map rec_chunk_index records = map chunk_index cs
    /\ map rec_content records = map content cs
    /\ map rec_embedding records = es
    /\ map rec_token_count records = map token_count cs.
Proof.
  induction cs as [|c cs IH]; intros [|e es] Hl; simpl in *;
    try discriminate; [repeat split|].
  destruct (IH es ltac:(lia)) as [H1 [H2 [H3 [H4 H5]]]].
  cbv zeta in *. rewrite H1, H2, H3, H4, H5. repeat split.
Qed.

(** C7. When the provider and the store do not fail and the chunker
    yields n >= 1 chunks, [process_source] embeds every chunk with one
    provider call, in chunk order, and pairs each chunk with the
    vector the provider answered for it: the records written carry,
    chunk by chunk, the source id, the chunk's index, content and
    token count, and that vector.  They are written in sequential
    insert calls that, taken one after the other, are the records in
    chunk order: n / 50 calls of 50 records and then, if n mod 50 is
    not zero, one of n mod 50, which makes ceil(n / 50) calls; it
    returns n.  At n = 120 the calls have sizes 50, 50, 20. *)
Theorem C7_batched_inserts (self : RAGService) (source_id content_ : text)
    (chunks : list Chunk) (tr : trace) :
  (forall tr m c t, exists v, embed_content w tr m c t = Ok v) ->
  (forall tr tbl b, insert_execute w tr tbl b = Ok tt) ->
  split_text (chunker self) content_ = Ok chunks ->
  chunks <> [] ->
  exists embeddings batches tr1,
    generate_embeddings_batch w (map content chunks) tr = (tr1, Ok embeddings)
    /\ length embeddings = length chunks
    /\ tr1 = tr ++ map (fun c => document_call (content c)) chunks
    /\ (forall k c,
          nth_error chunks k = Some c ->
          exists v,
            nth_error embeddings k = Some v
            /\ embed_content w
                 (tr ++ map (fun c => document_call (content c))
                          (firstn k chunks))
                 MODEL_NAME (slice_to (content c) 10000)
                 (lit "retrieval_document") = Ok v)
    /\ process_source w self source_id content_ tr =
         (tr1 ++ map (Insert (lit "source_chunks")) batches, Ok (len chunks))
    /\ concat batches =
         map (fun p => {| rec_source_id := source_id;
                          rec_chunk_index := chunk_index (fst p);
                          rec_content := content (fst p);
                          rec_embedding := snd p;
                          rec_token_count := token_count (fst p) |})
             (combine chunks embeddings)
    /\ map rec_source_id (concat batches) = map (fun _ => source_id) chunks
    /\ map rec_chunk_index (concat batches) = map chunk_index chunks
    /\ map rec_content (concat batches) = map content chunks
    /\ map rec_embedding (concat batches) = embeddings
    /\ map rec_token_count (concat batches) = map token_count chunks
    /\ map len batches =
         repeat 50 (Z.to_nat (len chunks / 50))
         ++ (if len chunks mod 50 =? 0 then [] else [len chunks mod 50])
    /\ len batches = (len chunks + 49) / 50
    /\ (len chunks = 120 -> map len batches = [50; 50; 20]).
Proof.
  intros Hembed Hinsert Hs Hne.
  assert (Hbatch : forall texts tr0, exists tr1 vs,
             generate_embeddings_batch w texts tr0 = (tr1, Ok vs)).
  { unfold generate_embeddings_batch.
    induction texts as [|t texts IH]; intros tr0.
    - exists tr0, []. reflexivity.
    - simpl. unfold bind at 1.
      assert (H1 : exists tr1 v, generate_embedding w t tr0 = (tr1, Ok v)).
      { unfold generate_embedding.
        destruct (negb (truthy t) || negb (truthy (strip t))).
        - eexists _, _; reflexivity.
        - unfold call.
          destruct (Hembed tr0 MODEL_NAME (slice_to t 10000)
                      (lit "retrieval_document")) as [v ->].
          eexists _, _; reflexivity. }
      destruct H1 as [tr1 [v ->]]. unfold bind at 1.
      destruct (IH tr1) as [tr2 [vs ->]].
      eexists _, _; reflexivity. }
  destruct (Hbatch (map content chunks) tr) as [tr1 [embeddings Eb]].
  assert (Hnb : Forall (fun t => blank t = false) (map content chunks)).
  { rewrite Forall_map.
    destruct (split_text_segments _ _ _ Hs) as [segments [_ Hall]].
    eapply Forall_impl; [|exact Hall]. intros c [_ [Hcon [Hn _]]].
    destruct (blank (content c)) eqn:E; [|reflexivity].
    apply strip_blank in E. rewrite Hcon, strip_idem in E. congruence. }
  destruct (generate_embeddings_batch_ok w _ _ _ _ Eb) as [Hlen [Htr _]].
  rewrite length_map in Hlen.
  rewrite filter_all, map_map in Htr
    by (eapply Forall_impl; [|exact Hnb]; intros x Hx; simpl in Hx;
        rewrite Hx; reflexivity).
  set (records := map (make_record source_id) (combine chunks embeddings)).
  assert (Hrl : len records = len chunks).
  { unfold records, len. rewrite length_map, length_combine. lia. }
  destruct (batches_of_50 records) as [starts [Er [Hcat [Hsizes Hcount]]]].
  cbv zeta in Hcat, Hsizes, Hcount.
  exists embeddings, (map (fun i => slice records i (i + batch_size)) starts),
         tr1.
  rewrite (process_source_run w self source_id content_ chunks tr Hs Hne), Eb.
  cbv zeta. fold records. rewrite Er, (insert_loop_ok w _ _ Hinsert).
  rewrite Hcat, Hrl in *.
  destruct (records_fields source_id chunks embeddings Hlen)
    as [F1 [F2 [F3 [F4 F5]]]].
  fold records in F1, F2, F3, F4, F5.
  split; [reflexivity|]. split; [exact Hlen|]. split; [exact Htr|].
  split.
  { intros k c Hk.
    destruct (generate_embeddings_batch_answers _ _ _ _ Eb Hnb k (content c))
      as [v [Hv Hans]].
    - rewrite nth_error_map, Hk. reflexivity.
    - exists v. split; [exact Hv|].
      rewrite firstn_map, map_map in Hans. exact Hans. }
  split; [reflexivity|]. split.
  { unfold records. apply map_ext. intros [c e]. reflexivity. }
  repeat split; auto.
  intros H120. rewrite Hsizes, H120. reflexivity.
Qed.

End IngestRecords.

(** ** The sources [get_rag_context] returns *)

(** The [sources] dict holds, for an id, the row the lookup returned. *)
Lemma dict_get_sources_dict (data : option (list source_row)) (sid : text) :
  dict_get sid (sources_dict data) = stored_row data sid.
Proof.
  unfold sources_dict, stored_row. rewrite dict_get_fold_set.
  destruct (find _ _); reflexivity.
Qed.

Section ContributingSources.

Variable w : World.

(** C8 (amended). After a search that found chunks, [get_rag_context]
    looks the distinct source ids of the ranked list up in one call.
    The source names returned are the names the answer of that lookup
    gives to the chunks' sources ("Unknown" for an id without a row),
    each once, in the order of first appearance in the ranked list.
    The source records returned are one per distinct source id of the
    ranked list, the row the lookup returned for the id or the
    "Unknown" placeholder; their order is the iteration order of the
    Python set of ids, which is some arrangement of the
    first-appearance order. *)
Theorem C8_names_ordered_records_distinct (notebook_id query : text)
    (source_ids : option (list text)) (match_count_ : Z)
    (tr tr1 tr2 : trace) (c : chunk_row) (cs : list chunk_row) (v : pyval) :
  set_iteration (set_order w) ->
  search w rag_service query notebook_id (if_any source_ids) match_count_ tr
    = (tr1, Ok (c :: cs)) ->
  get_rag_context w notebook_id query source_ids match_count_ tr
    = (tr2, Ok v) ->
  let ids := set_order w (first_appearance (map row_source_id (c :: cs))) in
  exists data context_ records names,
    select_in_execute w tr1 (lit "sources") ids = Ok data
    /\ v = PTuple [PStr context_; PList (map PRow records);
                   PList (map PStr names)]
    /\ names = first_appearance
                 (map (fun ch => stored_name data (row_source_id ch)) (c :: cs))
    /\ NoDup names
    /\ records = map (fun sid => match stored_row data sid with
                                 | Some r => r
                                 | None => unknown_source sid
                                 end) ids
    /\ map src_id records = ids
    /\ NoDup (map src_id records)
    /\ Permutation (map src_id records)
         (first_appearance (map row_source_id (c :: cs))).
Proof.
  intros Hset Hs H ids.
  rewrite (get_rag_context_found w _ _ _ _ _ _ _ _ Hs) in H. cbv zeta in H.
  fold ids in H.
  destruct (select_in_execute w tr1 (lit "sources") ids) as [data|e];
    [|discriminate].
  fold (sources_dict data) in H.
  assert (Hperm : Permutation ids
                    (first_appearance (map row_source_id (c :: cs))))
    by (apply Hset, NoDup_first_appearance).
  assert (Hrec : map (fun sid => match dict_get sid (sources_dict data) with
                                 | Some s => s
                                 | None => unknown_source sid
                                 end) ids
                 = map (fun sid => match stored_row data sid with
                                   | Some r => r
                                   | None => unknown_source sid
                                   end) ids).
  { apply map_ext. intros sid. rewrite dict_get_sources_dict. reflexivity. }
  assert (Hids : map src_id
                   (map (fun sid => match stored_row data sid with
                                    | Some r => r
                                    | None => unknown_source sid
                                    end) ids) = ids).
  { rewrite map_map. rewrite <- (map_id ids) at 2. apply map_ext.
    intros sid. destruct (stored_row data sid) as [r|] eqn:E; [|reflexivity].
    unfold stored_row in E. apply find_some in E as [_ E].
    apply text_eqb_eq in E. congruence. }
  pose proof (render_chunks_names w (sources_dict data) (c :: cs) 1 [] [] [])
    as Hn.
  rewrite app_nil_l in Hn.
  assert (Hnames : snd (render_chunks w (sources_dict data) 1 (c :: cs)
                          [] [] [])
                   = first_appearance
                       (map (fun ch => stored_name data (row_source_id ch))
                            (c :: cs))).
  { rewrite Hn. unfold first_appearance. f_equal. apply map_ext.
    intros ch. unfold name_in, stored_name.
    rewrite dict_get_sources_dict. reflexivity. }
  rewrite Hrec, Hnames in H.
  exists data,
    (join (newline ++ newline)
       (fst (render_chunks w (sources_dict data) 1 (c :: cs) [] [] []))),
    (map (fun sid => match stored_row data sid with
                     | Some r => r
                     | None => unknown_source sid
                     end) ids),
    (first_appearance
       (map (fun ch => stored_name data (row_source_id ch)) (c :: cs))).
  split; [reflexivity|].
  split; [injection H as _ Hv; symmetry; exact Hv|].
  split; [reflexivity|]. split; [apply NoDup_first_appearance|].
  split; [reflexivity|]. split; [exact Hids|]. rewrite Hids. split.
  - eapply Permutation_NoDup;
      [apply Permutation_sym; exact Hperm | apply NoDup_first_appearance].
  - exact Hperm.
Qed.

End ContributingSources.

(** ** Citations of sources that may lack a key *)

Lemma parse_citations_as_cited (sources : list source_row) (content_ : text) :
  forall i,
    parse_citations i sources content_
    = citations_of i (map as_cited sources) content_.
Proof.
  induction sources as [|s sources IH]; intros i; [reflexivity|].
  cbn [parse_citations citations_of map]. rewrite IH.
  destruct (contains _ content_); reflexivity.
Qed.

(** X25. The citation loop raises only for a cited source that lacks
    the id or the name: it returns exactly when every source whose
    marker occurs in the content has both keys, whatever the sources
    that are not cited lack.  When it raises, the error is KeyError of
    the first cited source that lacks a key, for "id" if the id is
    absent and else for "name".  On rows of the store, which have
    their id, it is the loop of [parse_citations]. *)
Theorem X25_citations_raise_only_for_cited_source_without_key
    (sources : list cited_source) (content_ : text) (i : Z) :
  ((exists citations, citations_of i sources content_ = Ok citations)
   <-> (forall k source,
          nth_error sources k = Some source ->
          contains (marker (i + Z.of_nat k)) content_ = true ->
          has_id_and_name source))
  /\ (forall e, citations_of i sources content_ = Err e ->
        exists k source,
          nth_error sources k = Some source
          /\ contains (marker (i + Z.of_nat k)) content_ = true
          /\ (key_id source = None /\ e = KeyError "id"
              \/ key_id source <> None /\ key_name source = None
                 /\ e = KeyError "name")
          /\ (forall j earlier,
                (j < k)%nat -> nth_error sources j = Some earlier ->
                contains (marker (i + Z.of_nat j)) content_ = true ->
                has_id_and_name earlier))
  /\ (forall rows : list source_row,
        parse_citations i rows content_
        = citations_of i (map as_cited rows) content_).
Proof.
  split; [|split; [|intros rows; apply parse_citations_as_cited]].
  - revert i. induction sources as [|s sources IH]; intros i.
    + split.
      * intros _ [|k] source Hk; discriminate Hk.
      * intros _. eexists; reflexivity.
    + cbn [citations_of].
      change (lit "[" ++ str_int i ++ lit "]") with (marker i).
      destruct (IH (i + 1)) as [IH1 IH2].
      assert (Hshift : forall k, i + 1 + Z.of_nat k = i + Z.of_nat (S k))
        by (intros k; lia).
      assert (Hrest : (forall k source,
                         nth_error (s :: sources) k = Some source ->
                         contains (marker (i + Z.of_nat k)) content_ = true ->
                         has_id_and_name source) ->
                      exists citations,
                        citations_of (i + 1) sources content_ = Ok citations).
      { intros Hall. apply IH2. intros k source Hk Hc.
        apply (Hall (S k) source Hk). rewrite <- Hshift. exact Hc. }
      assert (Htail : (exists citations,
                         citations_of (i + 1) sources content_ = Ok citations)
                      -> forall k source,
                           nth_error sources k = Some source ->
                           contains (marker (i + Z.of_nat (S k))) content_
                             = true ->
                           has_id_and_name source).
      { intros Hex k source Hk Hc. apply (IH1 Hex k source Hk).
        rewrite Hshift. exact Hc. }
      destruct (contains (marker i) content_) eqn:Em.
      * destruct (key_id s) as [id|] eqn:Ei; cbn [getitem rbind].
        -- destruct (key_name s) as [name|] eqn:En; cbn [getitem rbind].
           ++ destruct (citations_of (i + 1) sources content_) as [rest|e]
                eqn:Er; cbn [rbind].
              ** split; [|intros _; eexists; reflexivity].
                 intros _ [|k] source Hk Hc.
                 --- injection Hk as <-. split; congruence.
                 --- apply (Htail (ex_intro _ rest eq_refl) k source Hk Hc).
              ** split; [intros [c H]; discriminate H|].
                 intros Hall. destruct (Hrest Hall) as [c Hc].
                 discriminate Hc.
           ++ split; [intros [c H]; discriminate H|].
              intros Hall. exfalso.
              destruct (Hall 0%nat s eq_refl) as [_ Hn];
                [rewrite Z.add_0_r; exact Em | congruence].
        -- split; [intros [c H]; discriminate H|].
           intros Hall. exfalso.
           destruct (Hall 0%nat s eq_refl) as [Hn _];
             [rewrite Z.add_0_r; exact Em | congruence].
      * split.
        -- intros Hex [|k] source Hk Hc.
           ++ rewrite Z.add_0_r in Hc. congruence.
           ++ apply (Htail Hex k source Hk Hc).
        -- exact Hrest.
  - revert i. induction sources as [|s sources IH]; intros i e H;
      [discriminate H|].
    cbn [citations_of] in H.
    change (lit "[" ++ str_int i ++ lit "]") with (marker i) in H.
    assert (Hshift : forall k, i + 1 + Z.of_nat k = i + Z.of_nat (S k))
      by (intros k; lia).
    assert (Hlater : forall e,
              citations_of (i + 1) sources content_ = Err e ->
              (contains (marker i) content_ = true -> has_id_and_name s) ->
              exists k source,
                nth_error (s :: sources) k = Some source
                /\ contains (marker (i + Z.of_nat k)) content_ = true
                /\ (key_id source = None /\ e = KeyError "id"
                    \/ key_id source <> None /\ key_name source = None
                       /\ e = KeyError "name")
                /\ (forall j earlier,
                      (j < k)%nat ->
                      nth_error (s :: sources) j = Some earlier ->
                      contains (marker (i + Z.of_nat j)) content_ = true ->
                      has_id_and_name earlier)).
    { intros e' He' Hs.
      destruct (IH (i + 1) e' He') as [k [source [Hk [Hc [Hkey Hbefore]]]]].
      exists (S k), source. split; [exact Hk|].
      split; [rewrite <- Hshift; exact Hc|]. split; [exact Hkey|].
      intros [|j] earlier Hj Hnth Hcj.
      - injection Hnth as <-. apply Hs. rewrite Z.add_0_r in Hcj. exact Hcj.
      - apply (Hbefore j earlier); [lia | exact Hnth|].
        rewrite Hshift. exact Hcj. }
    destruct (contains (marker i) content_) eqn:Em.
    + destruct (key_id s) as [id|] eqn:Ei; cbn [getitem rbind] in H.
      * destruct (key_name s) as [name|] eqn:En; cbn [getitem rbind] in H.
        -- destruct (citations_of (i + 1) sources content_) as [rest|e']
             eqn:Er; cbn [rbind] in H; [discriminate H|].
           injection H as <-. apply Hlater; [reflexivity|].
           intros _. split; congruence.
        -- injection H as <-. exists 0%nat, s. split; [reflexivity|].
           split; [rewrite Z.add_0_r; exact Em|].
           split; [right; repeat split; congruence|].
           intros j earlier Hj. lia.
      * injection H as <-. exists 0%nat, s. split; [reflexivity|].
        split; [rewrite Z.add_0_r; exact Em|].
        split; [left; split; [exact Ei | reflexivity]|].
        intros j earlier Hj. lia.
    + apply Hlater; [exact H|]. intros Hc. discriminate Hc.
Qed.

(** ** The lines kept as suggested questions *)

Lemma kept_lines_cons (x : text) (l : list text) :
  kept_lines (x :: l) = kept_lines [x] ++ kept_lines l.
Proof. unfold kept_lines. simpl. destruct (truthy (strip x)); reflexivity. Qed.

Lemma lstrip_blank_app (a s : text) : blank a = true -> lstrip (a ++ s) = lstrip s.
Proof.
  induction a as [|c a IH]; simpl; [reflexivity|]. intros H.
  apply andb_prop in H as [Hc Ha]. rewrite Hc. apply IH. exact Ha.
Qed.

Lemma lstrip_app (x y : text) : blank x = false -> lstrip (x ++ y) = lstrip x ++ y.
Proof.
  induction x as [|c x IH]; simpl; [discriminate|]. intros H.
  destruct (is_space c); [apply IH; exact H | reflexivity].
Qed.

Lemma rstrip_app_blank (y b : text) : blank b = true -> rstrip (y ++ b) = rstrip y.
Proof.
  intros H. unfold rstrip. rewrite rev_app_distr, lstrip_blank_app; [reflexivity|].
  rewrite blank_rev. exact H.
Qed.

Lemma strip_app_blank (x b : text) : blank b = true -> strip (x ++ b) = strip x.
Proof.
  intros H. destruct (blank x) eqn:Ex.
  - rewrite !strip_blank; [reflexivity | exact Ex |].
    rewrite blank_app, Ex, H. reflexivity.
  - unfold strip. rewrite lstrip_app by exact Ex.
    apply rstrip_app_blank. exact H.
Qed.

Lemma strip_cons_space (c : ascii) (p : text) :
  is_space c = true -> strip (c :: p) = strip p.
Proof. intros H. unfold strip. simpl. rewrite H. reflexivity. Qed.

(** What [split_go] has read so far is put before its first piece. *)
Lemma split_go_cur (sep s : text) :
  forall k cur,
    split_go sep k cur s =
      match split_go sep k [] s with
      | p :: rest => (rev cur ++ p) :: rest
      | [] => []
      end.
Proof.
  induction s as [|c s IH]; intros k cur; simpl.
  - rewrite app_nil_r. reflexivity.
  - destruct k as [|k]; [|apply IH].
    destruct (starts_with sep (c :: s)); [rewrite app_nil_r; reflexivity|].
    rewrite (IH 0%nat (c :: cur)), (IH 0%nat [c]).
    destruct (split_go sep 0 [] s); [reflexivity|].
    simpl. rewrite <- app_assoc. reflexivity.
Qed.

Lemma split_go_newline_step (c : ascii) (s cur : text) :
  split_go newline 0 cur (c :: s) =
    if Ascii.eqb "010"%char c then rev cur :: split_go newline 0 [] s
    else split_go newline 0 (c :: cur) s.
Proof.
  change newline with ["010"%char]. cbn [split_go starts_with].
  rewrite andb_true_r. reflexivity.
Qed.

(** Whitespace before the text changes nothing in the lines kept. *)
Lemma kept_lines_blank_prefix (a s : text) :
  blank a = true ->
  kept_lines (split (a ++ s) newline) = kept_lines (split s newline).
Proof.
  induction a as [|c a IH]; intros H; [reflexivity|].
  simpl in H. apply andb_prop in H as [Hc Ha]. simpl app.
  unfold split in *. rewrite split_go_newline_step.
  destruct (Ascii.eqb "010"%char c).
  - rewrite kept_lines_cons. simpl. apply IH. exact Ha.
  - rewrite <- (IH Ha), split_go_cur. clear IH.
    destruct (split_go newline 0 [] (a ++ s)) as [|p rest]; [reflexivity|].
    rewrite (kept_lines_cons (rev [c] ++ p)), (kept_lines_cons p). f_equal.
    unfold kept_lines. cbn [rev app filter].
    rewrite (strip_cons_space c p Hc).
    destruct (truthy (strip p)); cbn [map];
      rewrite ?(strip_cons_space c p Hc); reflexivity.
Qed.

Lemma kept_lines_snoc_blank (x b : text) :
  blank b = true -> kept_lines [x ++ b] = kept_lines [x].
Proof.
  intros H. unfold kept_lines. cbn [filter].
  rewrite (strip_app_blank x b H).
  destruct (truthy (strip x)); cbn [map];
    rewrite ?(strip_app_blank x b H); reflexivity.
Qed.

Lemma kept_lines_blank_only (b : text) :
  blank b = true ->
  forall cur, kept_lines (split_go newline 0 cur b) = kept_lines [rev cur].
Proof.
  induction b as [|c b IH]; intros H cur; [reflexivity|].
  simpl in H. apply andb_prop in H as [Hc Hb].
  rewrite split_go_newline_step. destruct (Ascii.eqb "010"%char c).
  - rewrite kept_lines_cons, (IH Hb []). apply app_nil_r.
  - rewrite (IH Hb (c :: cur)). simpl rev. apply kept_lines_snoc_blank.
    simpl. rewrite Hc. reflexivity.
Qed.

(** Whitespace after the text changes nothing either. *)
Lemma kept_lines_blank_suffix (s b : text) :
  blank b = true ->
  forall cur,
    kept_lines (split_go newline 0 cur (s ++ b))
    = kept_lines (split_go newline 0 cur s).
Proof.
  intros Hb. induction s as [|c s IH]; intros cur.
  - apply kept_lines_blank_only. exact Hb.
  - simpl app. rewrite !split_go_newline_step.
    destruct (Ascii.eqb "010"%char c); [|apply IH].
    rewrite kept_lines_cons, IH, <- kept_lines_cons. reflexivity.
Qed.

(** [strip] before splitting into lines changes nothing in the lines
    kept. *)
Lemma kept_lines_strip (t : text) :
  kept_lines (split (strip t) newline) = kept_lines (split t newline).
Proof.
  destruct (lstrip_split t) as [a [Ea Ha]].
  destruct (rstrip_split (lstrip t)) as [b [Eb Hb]].
  pose proof (kept_lines_blank_prefix a (lstrip t) Ha) as H1.
  rewrite <- Ea in H1.
  pose proof (kept_lines_blank_suffix (rstrip (lstrip t)) b Hb []) as H2.
  rewrite <- Eb in H2.
  rewrite H1. symmetry. exact H2.
Qed.

(** Splitting what [join] made of lines without line breaks gives the
    lines back. *)
Lemma split_go_line (p : text) :
  ~ In "010"%char p ->
  forall cur, split_go newline 0 cur p = [rev cur ++ p].
Proof.
  induction p as [|c p IH]; intros Hp cur; simpl app.
  - rewrite app_nil_r. reflexivity.
  - rewrite split_go_newline_step.
    destruct (Ascii.eqb_spec "010"%char c) as [E|Hne].
    + exfalso. apply Hp. left. symmetry. exact E.
    + rewrite IH by (intros H; apply Hp; right; exact H).
      simpl. rewrite <- app_assoc. reflexivity.
Qed.

Lemma split_go_line_break (p s : text) :
  ~ In "010"%char p ->
  forall cur,
    split_go newline 0 cur (p ++ newline ++ s)
    = (rev cur ++ p) :: split_go newline 0 [] s.
Proof.
  induction p as [|c p IH]; intros Hp cur; simpl app.
  - change (newline ++ s) with ("010"%char :: s).
    rewrite split_go_newline_step, app_nil_r. reflexivity.
  - rewrite split_go_newline_step.
    destruct (Ascii.eqb_spec "010"%char c) as [E|Hne].
    + exfalso. apply Hp. left. symmetry. exact E.
    + rewrite IH by (intros H; apply Hp; right; exact H).
      simpl. rewrite <- app_assoc. reflexivity.
Qed.

Lemma split_join_lines (lines : list text) :
  lines <> [] ->
  Forall (fun l => ~ In "010"%char l) lines ->
  split (join newline lines) newline = lines.
Proof.
  intros Hne H. unfold split. destruct lines as [|p lines]; [congruence|].
  clear Hne. revert p H. induction lines as [|q lines IH]; intros p H.
  - inversion H as [|? ? Hp _]; subst. simpl. apply (split_go_line p Hp []).
  - inversion H as [|? ? Hp Hl]; subst.
    rewrite join_cons by discriminate.
    rewrite (split_go_line_break p _ Hp []). simpl rev. simpl app.
    f_equal. apply IH. exact Hl.
Qed.

(** X26. The suggested questions [send_message] keeps are the first
    three lines of the generator's answer that are not blank, each
    stripped: for an answer made of lines joined by line breaks, they
    are the first three of the stripped non-blank lines, in order.  So
    there are at most three, none is empty, none starts or ends with
    whitespace and none holds a line break. *)
Theorem X26_suggested_questions (lines : list text) :
  Forall (fun l => ~ In "010"%char l) lines ->
  suggested_questions (join newline lines)
    = firstn 3 (map strip (filter (fun l => negb (blank l)) lines))
  /\ len (suggested_questions (join newline lines)) <= 3
  /\ Forall (fun q => q <> [] /\ strip q = q /\ ~ In "010"%char q)
            (suggested_questions (join newline lines)).
Proof.
  intros Hlines.
  assert (E : suggested_questions (join newline lines)
              = firstn 3 (map strip (filter (fun l => negb (blank l)) lines))).
  { unfold suggested_questions. rewrite slice_to_firstn by lia.
    change (Z.to_nat 3) with 3%nat. f_equal.
    fold (kept_lines (split (strip (join newline lines)) newline)).
    rewrite kept_lines_strip.
    assert (Ek : forall l, kept_lines l
                           = map strip (filter (fun q => negb (blank q)) l)).
    { intros l. unfold kept_lines. f_equal. apply filter_ext.
      intros q. apply truthy_strip_blank. }
    destruct lines as [|p lines]; [reflexivity|].
    rewrite split_join_lines by (discriminate || exact Hlines). apply Ek. }
  split; [exact E|]. rewrite E. split.
  - unfold len. rewrite length_firstn. lia.
  - apply Forall_forall. intros q Hq. apply In_firstn_In in Hq.
    apply in_map_iff in Hq as [line [<- Hline]].
    apply filter_In in Hline as [Hline Hnb].
    split; [|split; [apply strip_idem|]].
    + intros Hnil. apply strip_nil_blank in Hnil. rewrite Hnil in Hnb.
      discriminate.
    + intros Hin. apply In_strip in Hin. rewrite Forall_forall in Hlines.
      exact (Hlines line Hline Hin).
Qed.
(** ** Provenance, ingest records and sources on concrete inputs *)

Lemma C2_own_content_fits_witness :
  0 <= chunk_overlap chunker_40_10 < chunk_size chunker_40_10
  /\ _recursive_split_pieces chunker_40_10 (separators chunker_40_10)
       (strip scenario1) = Ok scenario1_pieces
  /\ map (fun m => len (own m)) scenario1_pieces = [14; 38; 35; 36; 11]
  /\ Forall (fun m =>
               len (own m) <= 40
               /\ own m <> []
               /\ overlap_blocks chunker_40_10 5 (injected m)
               /\ (chunk_overlap chunker_40_10 = 0 -> injected m = []))
            scenario1_pieces
  /\ exists chunks,
       split_text chunker_40_10 scenario1 = Ok chunks
       /\ Forall (fun c =>
                    exists m,
                      nth_error scenario1_pieces (Z.to_nat (chunk_index c))
                        = Some m
                      /\ content c = strip (injected m ++ own m))
                 chunks.
Proof.
  assert (H : 0 <= chunk_overlap chunker_40_10 < chunk_size chunker_40_10)
    by (simpl; lia).
  assert (E : _recursive_split_pieces chunker_40_10 (separators chunker_40_10)
                (strip scenario1) = Ok scenario1_pieces)
    by (vm_compute; reflexivity).
  split; [exact H|]. split; [exact E|]. split; [reflexivity|].
  destruct (C2_own_content_fits chunker_40_10 scenario1 H)
    as [chunks [pieces [Hs [Hp [Hc [Hall _]]]]]].
  assert (Ep : pieces = scenario1_pieces).
  { destruct Hp as [[Hb _]|[_ [Hp _]]]; [vm_compute in Hb; discriminate Hb|].
    rewrite E in Hp. injection Hp as <-. reflexivity. }
  rewrite Ep in Hc, Hall. split; [exact Hall|].
  exists chunks. split; [exact Hs | exact Hc].
Defined.


Lemma C7_batched_inserts_witness :
  split_text (chunker letter_service) letters_120 = Ok chunks_120
  /\ len chunks_120 = 120
  /\ exists embeddings batches,
       process_source quiet_world letter_service (lit "s1") letters_120 []
         = (calls_120 ++ map (Insert (lit "source_chunks")) batches, Ok 120)
       /\ generate_embeddings_batch quiet_world (map content chunks_120) []
          = (calls_120, Ok embeddings)
       /\ map rec_source_id (concat batches)
          = map (fun _ => lit "s1") chunks_120
       /\ map rec_chunk_index (concat batches) = map chunk_index chunks_120
       /\ map rec_content (concat batches) = map content chunks_120
       /\ map rec_embedding (concat batches) = embeddings
       /\ map rec_token_count (concat batches) = map token_count chunks_120
       /\ map len batches = [50; 50; 20].
Proof.
  assert (Hs : split_text (chunker letter_service) letters_120 = Ok chunks_120)
    by (vm_compute; reflexivity).
  assert (Hl : len chunks_120 = 120) by reflexivity.
  assert (Hne : chunks_120 <> []) by (vm_compute; discriminate).
  split; [exact Hs|]. split; [exact Hl|].
  destruct (C7_batched_inserts quiet_world letter_service (lit "s1")
              letters_120 chunks_120 []
              (fun _ _ _ _ => ex_intro _ _ eq_refl)
              (fun _ _ _ => eq_refl) Hs Hne)
    as [embeddings [batches [tr1 [Eb [_ [Etr [_ [Hp [_ [F1 [F2 [F3 [F4 [F5
         [_ [_ H120]]]]]]]]]]]]]]]].
  rewrite app_nil_l in Etr. change (tr1 = calls_120) in Etr. subst tr1.
  exists embeddings, batches.
  split; [exact Hp|]. split; [exact Eb|]. split; [exact F1|].
  split; [exact F2|]. split; [exact F3|]. split; [exact F4|].
  split; [exact F5|]. exact (H120 Hl).
Defined.

Lemma C8_names_ordered_records_distinct_witness :
  set_iteration (set_order ranked_world)
  /\ search ranked_world rag_service (lit "what is beta") (lit "n1")
       (if_any None) 10 [] = (ranked_search_trace, Ok ranked_chunks)
  /\ get_rag_context ranked_world (lit "n1") (lit "what is beta") None 10 []
     = (ranked_search_trace ++ [SelectIn (lit "sources") [lit "a"; lit "b"]],
        Ok ranked_context)
  /\ exists data context_ records names,
       select_in_execute ranked_world ranked_search_trace (lit "sources")
         [lit "a"; lit "b"] = Ok data
       /\ ranked_context = PTuple [PStr context_; PList (map PRow records);
                                   PList (map PStr names)]
       /\ names = first_appearance
                    (map (fun ch => stored_name data (row_source_id ch))
                         ranked_chunks)
       /\ NoDup names
       /\ records = map (fun sid => match stored_row data sid with
                                    | Some r => r
                                    | None => unknown_source sid
                                    end) [lit "a"; lit "b"]
       /\ map src_id records = [lit "a"; lit "b"]
       /\ NoDup (map src_id records)
       /\ Permutation (map src_id records)
            (first_appearance (map row_source_id ranked_chunks)).
Proof.
  assert (Hs : search ranked_world rag_service (lit "what is beta") (lit "n1")
                 (if_any None) 10 [] = (ranked_search_trace, Ok ranked_chunks))
    by (vm_compute; reflexivity).
  assert (Hg : get_rag_context ranked_world (lit "n1") (lit "what is beta")
                 None 10 []
               = (ranked_search_trace
                    ++ [SelectIn (lit "sources") [lit "a"; lit "b"]],
                  Ok ranked_context))
    by (vm_compute; reflexivity).
  split; [exact ranked_world_set_iteration|].
  split; [exact Hs|]. split; [exact Hg|].
  exact (C8_names_ordered_records_distinct ranked_world (lit "n1")
           (lit "what is beta") None 10 [] ranked_search_trace _ _ _ _
           ranked_world_set_iteration Hs Hg).
Defined.

Lemma X26_suggested_questions_witness :
  Forall (fun l => ~ In "010"%char l) answer_lines
  /\ suggested_questions (join newline answer_lines)
     = [lit "What is A?"; lit "Why B?"; lit "How C?"].
Proof.
  assert (H : Forall (fun l => ~ In "010"%char l) answer_lines).
  { repeat constructor; vm_compute; intuition discriminate. }
  split; [exact H|].
  exact (proj1 (X26_suggested_questions answer_lines H)).
Defined.
